(** * ring2sip: the SIP leg, the Ring leg and the orchestrator

    A shallow embedding of [src/sip.js], of the Ring leg (the class [Ring])
    and of [src/index.js], and the properties of the specification that
    were checked against them.

    Layout: the model comes first (JavaScript strings and numbers, the
    regular-expression fragment the parser uses, the SDP parser and
    builder, the three components as state-passing functions returning
    the list of actions they perform), then the predicates and the
    sample inputs the statements use, then the properties. *)

From Stdlib Require Import List Bool NArith ZArith Lia String.
Import ListNotations.

Set Implicit Arguments.

(* ================================================================== *)
(** * Part I: the model                                                *)
(* ================================================================== *)

(** ** JavaScript strings

    A JavaScript string is a sequence of UTF-16 code units; a code unit
    is kept as an [N].  [js] turns a literal of the source into such a
    sequence. *)

Module Js.

Definition jsstring := list N.

Definition js (s : string) : jsstring :=
  map Ascii.N_of_ascii (list_ascii_of_string s).

Definition LF : N := 10%N.
Definition CR : N := 13%N.
Definition SP : N := 32%N.
Definition CRLF : jsstring := [CR; LF].

(** ECMAScript LineTerminator: LF, CR, LS, PS. *)
Definition isLineTerminator (c : N) : bool :=
  ((c =? 10) || (c =? 13) || (c =? 8232) || (c =? 8233))%N.

(** ECMAScript WhiteSpace: TAB, VT, FF, ZWNBSP and the space separators
    (category Zs). *)
Definition isWhiteSpace (c : N) : bool :=
  ((c =? 9) || (c =? 11) || (c =? 12) || (c =? 32) || (c =? 160)
   || (c =? 5760) || ((8192 <=? c) && (c <=? 8202))
   || (c =? 8239) || (c =? 8287) || (c =? 12288) || (c =? 65279))%N.

(** What [trim] strips and what [\s] matches. *)
Definition isSpace (c : N) : bool := isWhiteSpace c || isLineTerminator c.

Definition isDigit (c : N) : bool := ((48 <=? c) && (c <=? 57))%N.

(** [\w] without the unicode and ignore-case flags: [A-Za-z0-9_]. *)
Definition isWord (c : N) : bool :=
  (((65 <=? c) && (c <=? 90)) || ((97 <=? c) && (c <=? 122))
   || isDigit c || (c =? 95))%N.

Fixpoint dropWhile (p : N -> bool) (s : jsstring) : jsstring :=
  match s with
  | [] => []
  | c :: s' => if p c then dropWhile p s' else s
  end.

Fixpoint takeWhile (p : N -> bool) (s : jsstring) : jsstring :=
  match s with
  | [] => []
  | c :: s' => if p c then c :: takeWhile p s' else []
  end.

Definition trimStart (s : jsstring) : jsstring := dropWhile isSpace s.
Definition trimEnd (s : jsstring) : jsstring := rev (dropWhile isSpace (rev s)).

(** [String.prototype.trim]. *)
Definition trim (s : jsstring) : jsstring := trimEnd (trimStart s).

(** [String.prototype.split] with a separator of one code unit, the only
    use the source makes of it (['\n'] and [' ']).  The empty string
    splits into one empty piece. *)
Fixpoint split (sep : N) (s : jsstring) : list jsstring :=
  match s with
  | [] => [[]]
  | c :: s' =>
      if (c =? sep)%N then [] :: split sep s'
      else match split sep s' with
           | [] => [[c]]
           | w :: ws => (c :: w) :: ws
           end
  end.

(** [Array.prototype.join]. *)
Fixpoint join (sep : jsstring) (parts : list jsstring) : jsstring :=
  match parts with
  | [] => []
  | [p] => p
  | p :: rest => p ++ sep ++ join sep rest
  end.

(** [s.startsWith(prefix)]. *)
Fixpoint startsWith (s prefix : jsstring) : bool :=
  match prefix, s with
  | [], _ => true
  | p :: prefix', c :: s' => (c =? p)%N && startsWith s' prefix'
  | _ :: _, [] => false
  end.

(** [s.includes(sub)]: [sub] occurs somewhere in [s]. *)
Fixpoint includes (s sub : jsstring) : bool :=
  startsWith s sub
  || match s with
     | [] => false
     | _ :: s' => includes s' sub
     end.

(** [String.prototype.toUpperCase] on the ASCII range.  The source
    applies it only to text matched by [[\w\-]+], which is ASCII; other
    code units are left as they are here. *)
Definition toUpperCase (s : jsstring) : jsstring :=
  map (fun c => if ((97 <=? c) && (c <=? 122))%N then (c - 32)%N else c) s.

(** Truthiness of a string: every string but the empty one. *)
Definition truthyString (s : jsstring) : bool :=
  match s with [] => false | _ :: _ => true end.

(** ** JavaScript numbers

    The numbers of this program are results of [parseInt]: [NaN], an
    integer-valued double, or an infinity.  The two zeros are one value
    here ([-0] and [+0] are not told apart by truthiness nor by
    [Array.prototype.includes]). *)

Inductive number : Type :=
| NaN
| Num (z : Z)
| PosInf
| NegInf.

(** The double nearest to a natural number (ties to even); [None] when
    it is beyond the finite doubles. *)
Definition roundDouble (n : N) : option N :=
  if (n <? 2 ^ 53)%N then Some n
  else
    let e := (N.log2 n - 52)%N in
    let q := N.shiftr n e in
    let r := (n mod 2 ^ e)%N in
    let half := (2 ^ (e - 1))%N in
    let q' := if (r <? half)%N then q
              else if (half <? r)%N then (q + 1)%N
              else if N.even q then q else (q + 1)%N in
    let v := (q' * 2 ^ e)%N in
    if (2 ^ 1024 <=? v)%N then None else Some v.

Definition digitsValue (ds : jsstring) : N :=
  fold_left (fun acc c => (10 * acc + (c - 48))%N) ds 0%N.

(** [parseInt(s, 10)]: leading white space is skipped, then an optional
    sign, then the longest run of decimal digits; [NaN] when that run is
    empty. *)
Definition parseInt10 (s : jsstring) : number :=
  let s1 := trimStart s in
  let '(negative, s2) :=
    match s1 with
    | c :: rest =>
        if (c =? 45)%N then (true, rest)
        else if (c =? 43)%N then (false, rest)
        else (false, s1)
    | [] => (false, [])
    end in
  match takeWhile isDigit s2 with
  | [] => NaN
  | ds =>
      match roundDouble (digitsValue ds) with
      | Some m => Num (if negative then - Z.of_N m else Z.of_N m)
      | None => if negative then NegInf else PosInf
      end
  end.

(** SameValueZero on numbers, the comparison of
    [Array.prototype.includes]. *)
Definition sameValueZero (a b : number) : bool :=
  match a, b with
  | NaN, NaN => true
  | Num x, Num y => (x =? y)%Z
  | PosInf, PosInf => true
  | NegInf, NegInf => true
  | _, _ => false
  end.

(** [arr.includes(x)]. *)
Definition arrayIncludes (arr : list number) (x : number) : bool :=
  existsb (fun y => sameValueZero y x) arr.

(** Truthiness of a number: all but [NaN] and zero. *)
Definition truthyNumber (x : number) : bool :=
  match x with
  | NaN => false
  | Num z => negb (z =? 0)%Z
  | PosInf | NegInf => true
  end.

End Js.

(** ** The regular expressions of the parser

    The four patterns of [_parseRemoteSdp] are sequences of literal
    text, of a greedy [+] over one character class, and of a capture
    group around such a [+].  [matchHere] is the backtracking matcher of
    ECMAScript for that fragment: a [+] first takes the longest run and
    gives characters back one at a time while the rest of the pattern
    fails. *)

Module Regex.
Import Js.

Inductive cclass : Type :=
| Space        (* \s *)
| NonSpace     (* \S *)
| Digit        (* \d *)
| WordDash     (* [\w\-] *)
| Dot.         (* . *)

Definition cclass_mem (c : cclass) (x : N) : bool :=
  match c with
  | Space => isSpace x
  | NonSpace => negb (isSpace x)
  | Digit => isDigit x
  | WordDash => isWord x || (x =? 45)%N
  | Dot => negb (isLineTerminator x)
  end.

Inductive atom : Type :=
| Chars (l : jsstring)    (* literal text *)
| Plus (c : cclass)       (* c+ *)
| Group (c : cclass).     (* (c+) *)

Definition regex := list atom.

Fixpoint stripPrefix (prefix s : jsstring) : option jsstring :=
  match prefix, s with
  | [], _ => Some s
  | p :: prefix', c :: s' => if (c =? p)%N then stripPrefix prefix' s' else None
  | _ :: _, [] => None
  end.

Fixpoint runLength (p : N -> bool) (s : jsstring) : nat :=
  match s with
  | [] => 0
  | c :: s' => if p c then S (runLength p s') else 0
  end.

(** Try [k], [k-1], ..., [1]; the first success wins. *)
Fixpoint backtrack {A : Type} (k : nat) (f : nat -> option A) : option A :=
  match k with
  | 0 => None
  | S k' => match f k with
            | Some x => Some x
            | None => backtrack k' f
            end
  end.

(** Match [r] at the start of [s]; the result lists the captures. *)
Fixpoint matchHere (r : regex) (s : jsstring) {struct r} : option (list jsstring) :=
  match r with
  | [] => Some []
  | Chars l :: r' =>
      match stripPrefix l s with
      | Some s' => matchHere r' s'
      | None => None
      end
  | Plus c :: r' =>
      backtrack (runLength (cclass_mem c) s)
                (fun k => matchHere r' (skipn k s))
  | Group c :: r' =>
      backtrack (runLength (cclass_mem c) s)
                (fun k => option_map (cons (firstn k s)) (matchHere r' (skipn k s)))
  end.

(** [s.match(r)] for a pattern without the global flag: the leftmost
    match; the result is [match[1], match[2], ...]. *)
Fixpoint regexMatch (r : regex) (s : jsstring) : option (list jsstring) :=
  match matchHere r s with
  | Some caps => Some caps
  | None =>
      match s with
      | [] => None
      | _ :: s' => regexMatch r s'
      end
  end.

(** [/m=audio\s+(\d+)\s+RTP\/\S+\s+(.+)/] *)
Definition re_m_audio : regex :=
  [Chars (js "m=audio"); Plus Space; Group Digit; Plus Space;
   Chars (js "RTP/"); Plus NonSpace; Plus Space; Group Dot].

(** [/m=video\s+(\d+)\s+RTP\/\S+\s+(.+)/] *)
Definition re_m_video : regex :=
  [Chars (js "m=video"); Plus Space; Group Digit; Plus Space;
   Chars (js "RTP/"); Plus NonSpace; Plus Space; Group Dot].

(** [/c=IN IP4\s+(\S+)/] *)
Definition re_c_in_ip4 : regex :=
  [Chars (js "c=IN IP4"); Plus Space; Group NonSpace].

(** [/a=rtpmap:(\d+)\s+([\w\-]+)/] *)
Definition re_rtpmap : regex :=
  [Chars (js "a=rtpmap:"); Group Digit; Plus Space; Group WordDash].

End Regex.

(** ** Configuration

    The part of [process.env] the model reads.  [LOCAL_VIDEO_PORT] is
    the module constant [parseInt(LOCAL_RTP_PORT) + 2] of [sip.js]; it
    enters the program only through string concatenation, so it is kept
    as the text that concatenation yields. *)

Module Config.
Import Js.

Record Env : Type := {
  SIP_DOMAIN : jsstring;
  SIP_DEST : jsstring;
  SIP_USER : jsstring;
  LOCAL_IP : jsstring;
  LOCAL_SIP_PORT : jsstring;
  LOCAL_VIDEO_PORT : jsstring
}.

End Config.

(** ** The SDP negotiator ([_parseRemoteSdp], [_buildLocalSdp]) *)

Module Sdp.
Import Js Regex Config.

(** [{ destination, port, payloadType }] *)
Record Endpoint : Type := {
  destination : jsstring;
  port : number;
  payloadType : number
}.

(** [{ audio, video }], each an endpoint or [null]. *)
Record MediaOffer : Type := {
  audio : option Endpoint;
  video : option Endpoint
}.

Definition loopback : jsstring := js "127.0.0.1".

(** [sdp.split('\n').map(l => l.trim())] *)
Definition sdpLines (sdp : jsstring) : list jsstring :=
  map trim (split LF sdp).

(** The body of the two [lines.forEach] loops: one line of the scan for
    a payload type whose codec name contains [codecName].  [found] is
    the variable the loop assigns ([opusPayloadType], [h264PayloadType]),
    [None] for [null]. *)
Definition rtpmapStep (codecName : jsstring) (payloadTypes : list number)
  (found : option number) (line : jsstring) : option number :=
  if startsWith line (js "a=rtpmap:") then
    match regexMatch re_rtpmap line with
    | Some [ptText; codecText] =>
        let pt := parseInt10 ptText in
        let codec := toUpperCase codecText in
        if includes codec codecName && arrayIncludes payloadTypes pt
        then Some pt
        else found
    | _ => found
    end
  else found.

Definition findPayloadType (codecName : jsstring) (payloadTypes : list number)
  (lines : list jsstring) : option number :=
  fold_left (rtpmapStep codecName payloadTypes) lines None.

(** The [m=] line of a media kind: the first line that starts with
    [prefix], matched against [re]; the port and the payload types. *)
Definition mediaLine (prefix : jsstring) (re : regex) (lines : list jsstring)
  : option (number * list number) :=
  match find (fun line => startsWith line prefix) lines with
  | Some mLine =>
      match regexMatch re mLine with
      | Some [portText; ptsText] =>
          Some (parseInt10 portText, map parseInt10 (split SP ptsText))
      | _ => None
      end
  | None => None
  end.

(** [let destination = '127.0.0.1'] and the [c=IN IP4] lookup of the
    audio block. *)
Definition audioDestination (lines : list jsstring) : jsstring :=
  match find (fun line => startsWith line (js "c=IN IP4")) lines with
  | Some cLine =>
      match regexMatch re_c_in_ip4 cLine with
      | Some (addr :: _) => addr
      | _ => loopback
      end
  | None => loopback
  end.

(** The AUDIO (OPUS) block: the value of [result.audio] after it. *)
Definition parseAudio (lines : list jsstring) : option Endpoint :=
  match mediaLine (js "m=audio") re_m_audio lines with
  | Some (port, payloadTypes) =>
      let destination := audioDestination lines in
      match findPayloadType (js "OPUS") payloadTypes lines with
      | Some opusPayloadType =>
          if truthyNumber opusPayloadType
          then Some {| destination := destination; port := port;
                       payloadType := opusPayloadType |}
          else None
      | None => None
      end
  | None => None
  end.

(** The VIDEO (H264) block: the value of [result.video] after it, given
    [result.audio]. *)
Definition parseVideo (lines : list jsstring) (resultAudio : option Endpoint)
  : option Endpoint :=
  match mediaLine (js "m=video") re_m_video lines with
  | Some (port, payloadTypes) =>
      let destination :=
        match resultAudio with
        | Some a => a.(destination)
        | None => loopback
        end in
      match findPayloadType (js "H264") payloadTypes lines with
      | Some h264PayloadType =>
          if truthyNumber h264PayloadType
          then Some {| destination := destination; port := port;
                       payloadType := h264PayloadType |}
          else None
      | None => None
      end
  | None => None
  end.

(** [_parseRemoteSdp(sdp)]; [None] is [null]. *)
Definition _parseRemoteSdp (sdp : jsstring) : option MediaOffer :=
  if truthyString sdp then
    let lines := sdpLines sdp in
    let resultAudio := parseAudio lines in
    let resultVideo := parseVideo lines resultAudio in
    match resultAudio, resultVideo with
    | None, None => None
    | _, _ => Some {| audio := resultAudio; video := resultVideo |}
    end
  else None.

(** [_buildLocalSdp(sessionId)].  [sessionId] is the text the template
    literal puts in the origin line for the number it is given. *)
Definition _buildLocalSdp (env : Env) (sessionId : jsstring) : jsstring :=
  join CRLF
    [ js "v=0";
      js "o=- " ++ sessionId ++ js " " ++ sessionId ++ js " IN IP4 " ++ env.(LOCAL_IP);
      js "s=-";
      js "c=IN IP4 " ++ env.(LOCAL_IP);
      js "t=0 0";
      js "m=audio 8000 RTP/AVP 96";
      js "a=rtpmap:96 OPUS/48000/2";
      js "a=fmtp:96 useinbandfec=1;minptime=10";
      js "a=ptime:20";
      js "a=maxptime:150";
      js "a=sendrecv";
      js "m=video " ++ env.(LOCAL_VIDEO_PORT) ++ js " RTP/AVP 99";
      js "a=rtpmap:99 H264/90000";
      js "a=fmtp:99 packetization-mode=1;profile-level-id=42e01f";
      js "a=sendonly" ]
  ++ CRLF.

End Sdp.


(** ** RTP packets and the sequencer

    An RTP packet as the two legs see it: the payload-type field of its
    header, which they rewrite, and the rest.  The class [RtpSequencer]
    ([rtp-sequencer.js]) is not part of the sources at hand: both legs
    are parameterised by its state and by its method [process], which
    may renumber the packet and says whether to forward it. *)

Module Rtp.
Import Js.

Record RtpPacket : Type := {
  header_payloadType : number;
  header_sequenceNumber : N;
  header_timestamp : N;
  payload : list N
}.

Definition set_payloadType (pt : number) (rtp : RtpPacket) : RtpPacket :=
  {| header_payloadType := pt;
     header_sequenceNumber := rtp.(header_sequenceNumber);
     header_timestamp := rtp.(header_timestamp);
     payload := rtp.(payload) |}.

(** The type of [RtpSequencer.prototype.process(rtp, isTone)]. *)
Definition processFn (Sequencer : Type) : Type :=
  Sequencer -> RtpPacket -> bool -> Sequencer * RtpPacket * bool.

End Rtp.

(** ** The SIP leg ([class Sip] of [sip.js])

    Every method is a function from the state of the object (and the
    values it draws from [rstring()] and [Date.now()]) to the new state
    and the list of actions it performs, in program order.  Console
    output is left out.  A callback handed to [sipLib.send] is kept as
    data ([callback]) and run by [invokeCallback] when the library
    delivers a response. *)

Module Sip.
Import Js Config Sdp Rtp.

Inductive method : Type := REGISTER | INVITE | ACK | BYE | CANCEL | OPTIONS.

(** What [digest.signRequest] (library [sip/digest.js]) leaves in the
    [authorization] header: credentials computed for a challenge. *)
Inductive credentials : Type := DigestFor (challenge : jsstring).

(** A request, built here or received: the headers the code reads or
    sets ([to], [via], [contact] and [max-forwards] are left out). *)
Record Request : Type := {
  rq_method : method;
  rq_uri : jsstring;
  rq_from_tag : jsstring;
  rq_call_id : jsstring;
  rq_cseq : Z;
  rq_expires : option Z;
  rq_authorization : option credentials;
  rq_content : option jsstring
}.

(** A response, received or built by [sipLib.makeResponse]. *)
Record Response : Type := {
  status : Z;
  reason : jsstring;
  rs_from_tag : jsstring;
  rs_call_id : jsstring;
  rs_cseq : Z;
  rs_contact : option jsstring;         (* headers.contact[0].uri *)
  www_authenticate : option jsstring;   (* headers['www-authenticate'] *)
  rs_content : option jsstring
}.

(** [sipLib.makeResponse(request, status, reason)] answers within the
    transaction of [request]: same call-id and CSeq, no body. *)
Definition makeResponse (request : Request) (st : Z) (rsn : jsstring) : Response :=
  {| status := st; reason := rsn;
     rs_from_tag := request.(rq_from_tag);
     rs_call_id := request.(rq_call_id);
     rs_cseq := request.(rq_cseq);
     rs_contact := None;
     www_authenticate := None;
     rs_content := None |}.

Definition with_content (c : jsstring) (rs : Response) : Response :=
  {| status := rs.(status); reason := rs.(reason);
     rs_from_tag := rs.(rs_from_tag);
     rs_call_id := rs.(rs_call_id); rs_cseq := rs.(rs_cseq);
     rs_contact := rs.(rs_contact);
     www_authenticate := rs.(www_authenticate);
     rs_content := Some c |}.

(** [digest.signRequest(authSession, request, response, credentials)]:
    adds the [authorization] header for the challenge of [response]. *)
Definition signRequest (request : Request) (response : Response) : Request :=
  {| rq_method := request.(rq_method);
     rq_uri := request.(rq_uri);
     rq_from_tag := request.(rq_from_tag);
     rq_call_id := request.(rq_call_id);
     rq_cseq := request.(rq_cseq);
     rq_expires := request.(rq_expires);
     rq_authorization :=
       match response.(www_authenticate) with
       | Some challenge => Some (DigestFor challenge)
       | None => request.(rq_authorization)
       end;
     rq_content := request.(rq_content) |}.

(** [request.headers.cseq.seq += 1] *)
Definition bump_cseq (request : Request) : Request :=
  {| rq_method := request.(rq_method);
     rq_uri := request.(rq_uri);
     rq_from_tag := request.(rq_from_tag);
     rq_call_id := request.(rq_call_id);
     rq_cseq := (request.(rq_cseq) + 1)%Z;
     rq_expires := request.(rq_expires);
     rq_authorization := request.(rq_authorization);
     rq_content := request.(rq_content) |}.

(** The [callback] argument of [_retryWithDigestAuth]: [() => { }] for
    REGISTER and unregister, [(authResp) =>
    this._handleInviteResponse(authResp)] for INVITE. *)
Inductive retryCallback : Type := RcNothing | RcHandleInviteResponse.

(** The callbacks the code hands to [sipLib.send]. *)
Inductive callback : Type :=
| CbRegister (registerRequest : Request)   (* in [sendRegister] *)
| CbUnregister (req : Request)             (* in [sendUnregister] *)
| CbInvite                                 (* in [initiateCall] *)
| CbRetry (k : retryCallback).             (* in [_retryWithDigestAuth] *)

Inductive event : Type :=
| Ringing
| CallEstablished (rtpInfo : option MediaOffer)
| CallFailed (st : Z) (rsn : jsstring)
| CallEnded
| InboundCall.

Inductive socket : Type := AudioSocket | VideoSocket.

Inductive action : Type :=
| SendRequest (request : Request) (cb : option callback)  (* sipLib.send(request, cb) *)
| SendResponse (response : Response)                      (* sipLib.send(response) *)
| Emit (e : event)                                        (* this.emit(...) *)
| UdpSend (s : socket) (rtp : RtpPacket) (port : number) (address : jsstring)
| UdpClose (s : socket)
| SetInterval (ms : Z)
| ClearInterval
| Throw.                                                  (* a TypeError ends the call *)

Definition string_eqb (a b : jsstring) : bool :=
  if list_eq_dec N.eq_dec a b then true else false.

Definition isSome {A : Type} (o : option A) : bool :=
  match o with Some _ => true | None => false end.

(** [response.status === 401 && response.headers['www-authenticate']] *)
Definition isChallenge (response : Response) : bool :=
  (response.(status) =? 401)%Z && isSome response.(www_authenticate).

Definition registerExpires : Z := 600.

Section WithSequencer.

Variable Sequencer : Type.
Variable process : processFn Sequencer.

Record State : Type := {
  sipSession : option Response;
  inviteRequest : option Request;
  isSipStackStarted : bool;
  initiatingCall : bool;
  serverRtpInfo : option MediaOffer;
  udp : bool;               (* the audio socket, [false] once set to null *)
  udpVideo : bool;
  rtpSequencer : Sequencer;
  registerInterval : bool;  (* a refresh timer is set *)
  currentCallId : option jsstring
}.

(** The constructor. *)
Definition new_Sip (seq : Sequencer) : State :=
  {| sipSession := None; inviteRequest := None;
     isSipStackStarted := false; initiatingCall := false;
     serverRtpInfo := None; udp := true; udpVideo := true;
     rtpSequencer := seq; registerInterval := false;
     currentCallId := None |}.

Definition set_sipSession (v : option Response) (s : State) : State :=
  {| sipSession := v; inviteRequest := s.(inviteRequest);
     isSipStackStarted := s.(isSipStackStarted);
     initiatingCall := s.(initiatingCall);
     serverRtpInfo := s.(serverRtpInfo); udp := s.(udp);
     udpVideo := s.(udpVideo); rtpSequencer := s.(rtpSequencer);
     registerInterval := s.(registerInterval);
     currentCallId := s.(currentCallId) |}.

Definition set_inviteRequest (v : option Request) (s : State) : State :=
  {| sipSession := s.(sipSession); inviteRequest := v;
     isSipStackStarted := s.(isSipStackStarted);
     initiatingCall := s.(initiatingCall);
     serverRtpInfo := s.(serverRtpInfo); udp := s.(udp);
     udpVideo := s.(udpVideo); rtpSequencer := s.(rtpSequencer);
     registerInterval := s.(registerInterval);
     currentCallId := s.(currentCallId) |}.

Definition set_isSipStackStarted (v : bool) (s : State) : State :=
  {| sipSession := s.(sipSession); inviteRequest := s.(inviteRequest);
     isSipStackStarted := v;
     initiatingCall := s.(initiatingCall);
     serverRtpInfo := s.(serverRtpInfo); udp := s.(udp);
     udpVideo := s.(udpVideo); rtpSequencer := s.(rtpSequencer);
     registerInterval := s.(registerInterval);
     currentCallId := s.(currentCallId) |}.

Definition set_initiatingCall (v : bool) (s : State) : State :=
  {| sipSession := s.(sipSession); inviteRequest := s.(inviteRequest);
     isSipStackStarted := s.(isSipStackStarted);
     initiatingCall := v;
     serverRtpInfo := s.(serverRtpInfo); udp := s.(udp);
     udpVideo := s.(udpVideo); rtpSequencer := s.(rtpSequencer);
     registerInterval := s.(registerInterval);
     currentCallId := s.(currentCallId) |}.

Definition set_serverRtpInfo (v : option MediaOffer) (s : State) : State :=
  {| sipSession := s.(sipSession); inviteRequest := s.(inviteRequest);
     isSipStackStarted := s.(isSipStackStarted);
     initiatingCall := s.(initiatingCall);
     serverRtpInfo := v; udp := s.(udp);
     udpVideo := s.(udpVideo); rtpSequencer := s.(rtpSequencer);
     registerInterval := s.(registerInterval);
     currentCallId := s.(currentCallId) |}.

Definition set_sockets (a v : bool) (s : State) : State :=
  {| sipSession := s.(sipSession); inviteRequest := s.(inviteRequest);
     isSipStackStarted := s.(isSipStackStarted);
     initiatingCall := s.(initiatingCall);
     serverRtpInfo := s.(serverRtpInfo); udp := a;
     udpVideo := v; rtpSequencer := s.(rtpSequencer);
     registerInterval := s.(registerInterval);
     currentCallId := s.(currentCallId) |}.

Definition set_rtpSequencer (v : Sequencer) (s : State) : State :=
  {| sipSession := s.(sipSession); inviteRequest := s.(inviteRequest);
     isSipStackStarted := s.(isSipStackStarted);
     initiatingCall := s.(initiatingCall);
     serverRtpInfo := s.(serverRtpInfo); udp := s.(udp);
     udpVideo := s.(udpVideo); rtpSequencer := v;
     registerInterval := s.(registerInterval);
     currentCallId := s.(currentCallId) |}.

Definition set_registerInterval (v : bool) (s : State) : State :=
  {| sipSession := s.(sipSession); inviteRequest := s.(inviteRequest);
     isSipStackStarted := s.(isSipStackStarted);
     initiatingCall := s.(initiatingCall);
     serverRtpInfo := s.(serverRtpInfo); udp := s.(udp);
     udpVideo := s.(udpVideo); rtpSequencer := s.(rtpSequencer);
     registerInterval := v;
     currentCallId := s.(currentCallId) |}.

Definition set_currentCallId (v : option jsstring) (s : State) : State :=
  {| sipSession := s.(sipSession); inviteRequest := s.(inviteRequest);
     isSipStackStarted := s.(isSipStackStarted);
     initiatingCall := s.(initiatingCall);
     serverRtpInfo := s.(serverRtpInfo); udp := s.(udp);
     udpVideo := s.(udpVideo); rtpSequencer := s.(rtpSequencer);
     registerInterval := s.(registerInterval);
     currentCallId := v |}.

Definition sipUri (user host : jsstring) : jsstring :=
  js "sip:" ++ user ++ js "@" ++ host.

(** [initialize()]: starts the stack once. *)
Definition initialize (s : State) : State :=
  if s.(isSipStackStarted) then s else set_isSipStackStarted true s.

(** [_retryWithDigestAuth(request, response, successLog, errorLog,
    callback)]: signs [request], adds one to its CSeq and sends it
    again.  [request] is an object the caller shares: the result is the
    object after the call. *)
Definition _retryWithDigestAuth (request : Request) (response : Response)
  (k : retryCallback) : Request * list action :=
  let request' := bump_cseq (signRequest request response) in
  (request', [SendRequest request' (Some (CbRetry k))]).

(** The local [sendRegister] of [register()]; [callId] and [tag] are
    its two draws of [rstring()]. *)
Definition sendRegister (env : Env) (callId tag : jsstring) : list action :=
  let registerRequest :=
    {| rq_method := REGISTER;
       rq_uri := js "sip:" ++ env.(SIP_DOMAIN);
       rq_from_tag := tag;
       rq_call_id := callId;
       rq_cseq := 1;
       rq_expires := Some registerExpires;
       rq_authorization := None;
       rq_content := None |} in
  [SendRequest registerRequest (Some (CbRegister registerRequest))].

(** [register()] *)
Definition register (env : Env) (s : State) (callId tag : jsstring)
  : State * list action :=
  if s.(registerInterval) then (s, [])
  else (set_registerInterval true s,
        sendRegister env callId tag ++ [SetInterval (registerExpires * 1000)]).

(** [initiateCall()]; [sessionId] is the text of [Date.now()]. *)
Definition initiateCall (env : Env) (s : State) (sessionId tag callId : jsstring)
  : State * list action :=
  if s.(initiatingCall) then (s, [])
  else
    let inviteRequest :=
      {| rq_method := INVITE;
         rq_uri := sipUri env.(SIP_DEST) env.(SIP_DOMAIN);
         rq_from_tag := tag;
         rq_call_id := callId;
         rq_cseq := 1;
         rq_expires := None;
         rq_authorization := None;
         rq_content := Some (_buildLocalSdp env sessionId) |} in
    (set_inviteRequest (Some inviteRequest) (set_initiatingCall true s),
     [SendRequest inviteRequest (Some CbInvite)]).

(** The BYE or CANCEL of [cleanup()]; [None] when reading
    [headers.contact[0]] raises. *)
Definition terminateDialog (s : State) : option (list action) :=
  match s.(sipSession) with
  | Some response =>
      match response.(rs_contact) with
      | Some uri =>
          Some [SendRequest
                  {| rq_method := BYE;
                     rq_uri := uri;
                     rq_from_tag := response.(rs_from_tag);
                     rq_call_id := response.(rs_call_id);
                     rq_cseq := (response.(rs_cseq) + 1)%Z;
                     rq_expires := None;
                     rq_authorization := None;
                     rq_content := None |} None]
      | None => None
      end
  | None =>
      match s.(inviteRequest) with
      | Some request =>
          Some [SendRequest
                  {| rq_method := CANCEL;
                     rq_uri := request.(rq_uri);
                     rq_from_tag := request.(rq_from_tag);
                     rq_call_id := request.(rq_call_id);
                     rq_cseq := (request.(rq_cseq) + 1)%Z;
                     rq_expires := None;
                     rq_authorization := None;
                     rq_content := None |} None]
      | None => Some []
      end
  end.

(** [cleanup()]; [tag] and [callId] are the draws of [rstring()] for the
    unregister request. *)
Definition cleanup (env : Env) (s : State) (tag callId : jsstring)
  : State * list action :=
  match terminateDialog s with
  | None => (s, [Throw])
  | Some hangup =>
      let unregisterRequest :=
        {| rq_method := REGISTER;
           rq_uri := js "sip:" ++ env.(SIP_DOMAIN);
           rq_from_tag := tag;
           rq_call_id := callId;
           rq_cseq := 1;
           rq_expires := Some 0%Z;
           rq_authorization := None;
           rq_content := None |} in
      let unregister :=
        if s.(registerInterval)
        then [ClearInterval;
              SendRequest unregisterRequest (Some (CbUnregister unregisterRequest))]
        else [] in
      let closeAudio := if s.(udp) then [UdpClose AudioSocket] else [] in
      let closeVideo := if s.(udpVideo) then [UdpClose VideoSocket] else [] in
      (set_inviteRequest None
         (set_sipSession None
            (set_sockets false false (set_registerInterval false s))),
       hangup ++ unregister ++ closeAudio ++ closeVideo)
  end.

(** [sendAudioPacket(rtp, isTone)]: the state, the packet object after
    the call, and the actions. *)
Definition sendAudioPacket (s : State) (rtp : RtpPacket) (isTone : bool)
  : State * RtpPacket * list action :=
  match s.(serverRtpInfo) with
  | None => (s, rtp, [])
  | Some info =>
      match info.(audio) with
      | None => (s, rtp, [])
      | Some a =>
          let '(seq', rtp1, shouldForward) := process s.(rtpSequencer) rtp isTone in
          let s' := set_rtpSequencer seq' s in
          if shouldForward then
            let rtp2 := set_payloadType a.(payloadType) rtp1 in
            if s'.(udp)
            then (s', rtp2, [UdpSend AudioSocket rtp2 a.(port) a.(destination)])
            else (s', rtp2, [Throw])
          else (s', rtp1, [])
      end
  end.

(** [sendVideoPacket(rtp)] *)
Definition sendVideoPacket (s : State) (rtp : RtpPacket)
  : State * RtpPacket * list action :=
  match s.(serverRtpInfo) with
  | None => (s, rtp, [])
  | Some info =>
      match info.(video) with
      | None => (s, rtp, [])
      | Some v =>
          let rtp' := set_payloadType v.(payloadType) rtp in
          if s.(udpVideo)
          then (s, rtp', [UdpSend VideoSocket rtp' v.(port) v.(destination)])
          else (s, rtp', [Throw])
      end
  end.

(** [_handleBye(request)] *)
Definition _handleBye (s : State) (request : Request) : State * list action :=
  let ok := SendResponse (makeResponse request 200 (js "OK")) in
  match s.(sipSession) with
  | Some session =>
      let ourCallId := session.(rs_call_id) in
      let receivedCallId := request.(rq_call_id) in
      if truthyString ourCallId && truthyString receivedCallId
         && string_eqb ourCallId receivedCallId
      then (set_sipSession None s, [ok; Emit CallEnded])
      else (s, [ok])
  | None => (s, [ok])
  end.

(** [_handleInboundInvite(request)]; [sessionId] is the text of
    [Date.now()]. *)
Definition _handleInboundInvite (env : Env) (s : State) (request : Request)
  (sessionId : jsstring) : State * list action :=
  if s.(initiatingCall) then (s, [])
  else
    let s1 := set_currentCallId (Some request.(rq_call_id))
                (set_initiatingCall true s) in
    let remoteSdp := match request.(rq_content) with
                     | Some c => c
                     | None => []
                     end in
    let remoteInfo := _parseRemoteSdp remoteSdp in
    let reject :=
      (s1, [SendResponse (makeResponse request 488 (js "Not Acceptable Here"))]) in
    match remoteInfo with
    | None => reject
    | Some info =>
        match info.(audio) with
        | None => reject
        | Some _ =>
            let okResponse :=
              with_content (_buildLocalSdp env sessionId)
                           (makeResponse request 200 (js "OK")) in
            (set_sipSession (Some okResponse)
               (set_serverRtpInfo (Some info) s1),
             [SendResponse (makeResponse request 100 (js "Trying"));
              Emit InboundCall;
              SendResponse (makeResponse request 180 (js "Ringing"));
              SendResponse okResponse;
              Emit (CallEstablished (Some info))])
        end
    end.

(** [_handleInviteResponse(response)] *)
Definition _handleInviteResponse (s : State) (response : Response)
  : State * list action :=
  match s.(inviteRequest) with
  | None => (s, [])
  | Some request =>
      if isChallenge response then
        let '(request', sent) :=
          _retryWithDigestAuth request response RcHandleInviteResponse in
        (set_inviteRequest (Some request') s, sent)
      else if (100 <=? response.(status))%Z && (response.(status) <? 200)%Z then
        if (response.(status) =? 180)%Z then (s, [Emit Ringing]) else (s, [])
      else if (200 <=? response.(status))%Z && (response.(status) <? 300)%Z then
        let info := match response.(rs_content) with
                    | Some c => _parseRemoteSdp c
                    | None => None
                    end in
        let s' := set_serverRtpInfo info (set_sipSession (Some response) s) in
        match response.(rs_contact) with
        | Some uri =>
            (s', [SendRequest
                    {| rq_method := ACK;
                       rq_uri := uri;
                       rq_from_tag := response.(rs_from_tag);
                       rq_call_id := response.(rs_call_id);
                       rq_cseq := response.(rs_cseq);
                       rq_expires := None;
                       rq_authorization := None;
                       rq_content := None |} None;
                  Emit (CallEstablished info)])
        | None => (s', [Throw])
        end
      else
        (set_inviteRequest None s,
         [Emit (CallFailed response.(status) response.(reason))])
  end.

(** The response callbacks of [sendRegister] and [sendUnregister]. *)
Definition registerResponse (s : State) (request : Request) (response : Response)
  : State * list action :=
  if isChallenge response
  then (s, snd (_retryWithDigestAuth request response RcNothing))
  else (s, []).

(** The library delivers [response] to the callback [cb]. *)
Definition invokeCallback (s : State) (cb : callback) (response : Response)
  : State * list action :=
  match cb with
  | CbRegister registerRequest => registerResponse s registerRequest response
  | CbUnregister req => registerResponse s req response
  | CbInvite => _handleInviteResponse s response
  | CbRetry RcNothing => (s, [])
  | CbRetry RcHandleInviteResponse => _handleInviteResponse s response
  end.

(** The request handler given to [sipLib.start] in [initialize()]. *)
Definition onRequest (env : Env) (s : State) (request : Request)
  (sessionId : jsstring) : State * list action :=
  match request.(rq_method) with
  | BYE => _handleBye s request
  | INVITE => _handleInboundInvite env s request sessionId
  | OPTIONS => (s, [SendResponse (makeResponse request 200 (js "OK"))])
  | _ => (s, [])
  end.

(** What can happen to the object next: a call of one of its methods,
    or the SIP library delivering a request or a response. *)
Inductive operation : Type :=
| OpInitialize
| OpRegister (callId tag : jsstring)
| OpRegisterTick (callId tag : jsstring)     (* the refresh timer *)
| OpInitiateCall (sessionId tag callId : jsstring)
| OpCleanup (tag callId : jsstring)
| OpSendAudioPacket (rtp : RtpPacket) (isTone : bool)
| OpSendVideoPacket (rtp : RtpPacket)
| OpRequest (request : Request) (sessionId : jsstring)
| OpResponse (cb : callback) (response : Response).

Definition perform (env : Env) (s : State) (op : operation) : State * list action :=
  match op with
  | OpInitialize => (initialize s, [])
  | OpRegister callId tag => register env s callId tag
  | OpRegisterTick callId tag => (s, sendRegister env callId tag)
  | OpInitiateCall sessionId tag callId => initiateCall env s sessionId tag callId
  | OpCleanup tag callId => cleanup env s tag callId
  | OpSendAudioPacket rtp isTone =>
      let '(s', _, acts) := sendAudioPacket s rtp isTone in (s', acts)
  | OpSendVideoPacket rtp =>
      let '(s', _, acts) := sendVideoPacket s rtp in (s', acts)
  | OpRequest request sessionId => onRequest env s request sessionId
  | OpResponse cb response => invokeCallback s cb response
  end.

(** The state after a sequence of operations and the actions of each. *)
Fixpoint run (env : Env) (s : State) (ops : list operation)
  : State * list (list action) :=
  match ops with
  | [] => (s, [])
  | op :: ops' =>
      let '(s1, acts) := perform env s op in
      let '(s2, rest) := run env s1 ops' in
      (s2, acts :: rest)
  end.

End WithSequencer.

End Sip.

(** ** The Ring leg ([class Ring])

    Same conventions as for the SIP leg.  [initiateCall] returns the
    state of the promise it hands back; [_establishCall] is cut at its
    [await]: [initiateCall] runs it up to [startLiveCall()], and
    [liveCallStarted] or [liveCallFailed] resume it when the provider
    answers. *)

Module Ring.
Import Js Rtp.

(** A call handle of the provider. *)
Definition Call := N.

(** The argument of the [buttonPressed] event: the camera object (from
    [onDoorbellPressed] and [onActiveNotifications]) or
    [{ camera, dingId }] (from [onNewNotification]). *)
Inductive buttonData : Type :=
| TheCamera
| WithDingId (dingId : option jsstring).

Inductive event : Type :=
| ButtonPressed (data : buttonData)
| CallEstablished
| ReceivingAudio
| CallEnded.

Inductive timer : Type :=
| Reconnect             (* the reconnection of the [onCallEnded] subscriber *)
| KeyFrameIfCall        (* [if (this.currentCall) this.currentCall.requestKeyFrame()] *)
| KeyFrame (c : Call).  (* [call.requestKeyFrame()] *)

Inductive action : Type :=
| StartLiveCall                              (* this.camera.startLiveCall() *)
| Subscribe (c : Call)                       (* the four subscriptions on the call *)
| ActivateCameraSpeaker (c : Call)
| RequestKeyFrame (c : Call)
| CallStop (c : Call)                        (* call.stop() *)
| CallSendAudioPacket (c : Call) (rtp : RtpPacket)
| SipSendAudioPacket (rtp : RtpPacket)       (* this.sip.sendAudioPacket(rtp, false) *)
| SipSendVideoPacket (rtp : RtpPacket)
| SetTimeout (ms : Z) (t : timer)
| SetInterval (ms : Z) (t : timer)
| Emit (e : event)
| Resolve                                    (* of the promise of initiateCall *)
| Reject.

(** The promise [initiateCall] returns, as it is on return. *)
Inductive promise : Type := Pending | Rejected.

(** Whose promise a resumed [_establishCall] settles: one a caller from
    outside holds, or the one the reconnection attached its [catch]
    to. *)
Inductive holder : Type := ByCaller | ByReconnection.

Section WithSequencer.

Variable Sequencer : Type.
Variable process : processFn Sequencer.

Record State : Type := {
  ringApi : bool;                 (* set by [initialize] *)
  camera : bool;                  (* the doorbell was found *)
  currentCall : option Call;
  sip : bool;                     (* set by [pipeAudio] *)
  initiatingCall : bool;
  receivingAudio : bool;
  intentionalDisconnect : bool;   (* undefined at first, which is falsy *)
  audioPayloadType : option number;
  rtpSequencer : Sequencer
}.

Definition new_Ring (seq : Sequencer) : State :=
  {| ringApi := false; camera := false; currentCall := None; sip := false;
     initiatingCall := false; receivingAudio := false;
     intentionalDisconnect := false; audioPayloadType := None;
     rtpSequencer := seq |}.

Definition set_currentCall (v : option Call) (s : State) : State :=
  {| ringApi := s.(ringApi); camera := s.(camera); currentCall := v;
     sip := s.(sip); initiatingCall := s.(initiatingCall);
     receivingAudio := s.(receivingAudio);
     intentionalDisconnect := s.(intentionalDisconnect);
     audioPayloadType := s.(audioPayloadType);
     rtpSequencer := s.(rtpSequencer) |}.

Definition set_sip (v : bool) (s : State) : State :=
  {| ringApi := s.(ringApi); camera := s.(camera);
     currentCall := s.(currentCall);
     sip := v; initiatingCall := s.(initiatingCall);
     receivingAudio := s.(receivingAudio);
     intentionalDisconnect := s.(intentionalDisconnect);
     audioPayloadType := s.(audioPayloadType);
     rtpSequencer := s.(rtpSequencer) |}.

Definition set_initiatingCall (v : bool) (s : State) : State :=
  {| ringApi := s.(ringApi); camera := s.(camera);
     currentCall := s.(currentCall);
     sip := s.(sip); initiatingCall := v;
     receivingAudio := s.(receivingAudio);
     intentionalDisconnect := s.(intentionalDisconnect);
     audioPayloadType := s.(audioPayloadType);
     rtpSequencer := s.(rtpSequencer) |}.

Definition set_receivingAudio (v : bool) (s : State) : State :=
  {| ringApi := s.(ringApi); camera := s.(camera);
     currentCall := s.(currentCall);
     sip := s.(sip); initiatingCall := s.(initiatingCall);
     receivingAudio := v;
     intentionalDisconnect := s.(intentionalDisconnect);
     audioPayloadType := s.(audioPayloadType);
     rtpSequencer := s.(rtpSequencer) |}.

Definition set_intentionalDisconnect (v : bool) (s : State) : State :=
  {| ringApi := s.(ringApi); camera := s.(camera);
     currentCall := s.(currentCall);
     sip := s.(sip); initiatingCall := s.(initiatingCall);
     receivingAudio := s.(receivingAudio);
     intentionalDisconnect := v;
     audioPayloadType := s.(audioPayloadType);
     rtpSequencer := s.(rtpSequencer) |}.

Definition set_rtpSequencer (v : Sequencer) (s : State) : State :=
  {| ringApi := s.(ringApi); camera := s.(camera);
     currentCall := s.(currentCall);
     sip := s.(sip); initiatingCall := s.(initiatingCall);
     receivingAudio := s.(receivingAudio);
     intentionalDisconnect := s.(intentionalDisconnect);
     audioPayloadType := s.(audioPayloadType);
     rtpSequencer := v |}.

(** [initiateCall()], with [_establishCall(resolve, reject)] up to its
    [await].  [None] is the [undefined] of the guarded return; without
    [ringApi], and when reading [this.camera.name] raises inside the
    [try], the promise is rejected at once. *)
Definition initiateCall (s : State) : State * list action * option promise :=
  if s.(initiatingCall) then (s, [], None)
  else
    let s1 := set_intentionalDisconnect false (set_initiatingCall true s) in
    if negb s1.(ringApi) then (s1, [], Some Rejected)
    else if negb s1.(camera) then (s1, [], Some Rejected)
    else (s1, [StartLiveCall], Some Pending).

(** [_establishCall] after [await this.camera.startLiveCall()] gave
    [call]. *)
Definition liveCallStarted (s : State) (call : Call) : State * list action :=
  let s1 := set_currentCall (Some call) s in
  (s1,
   (if s1.(sip) then [SetTimeout 500 KeyFrameIfCall] else [])
   ++ [Subscribe call;
       ActivateCameraSpeaker call;
       SetTimeout 1000 (KeyFrame call);
       SetInterval 4000 (KeyFrame call);
       Resolve]).

(** The [catch] handler the reconnection attaches to the promise:
    [this.emit('callEnded')]. *)
Definition reconnectionFailed (s : State) : State * list action :=
  (s, [Emit CallEnded]).

(** [_establishCall] after [startLiveCall()] failed: the [catch] block
    calls [reject(err)]; the handler of the promise's holder runs. *)
Definition liveCallFailed (s : State) (h : holder) : State * list action :=
  match h with
  | ByCaller => (s, [Reject])
  | ByReconnection =>
      let '(s', acts) := reconnectionFailed s in (s', Reject :: acts)
  end.

(** The callback of [setTimeout(..., 2000)] in the [onCallEnded]
    subscriber: [initiateCall()] again, with a [catch] on its promise. *)
Definition reconnect (s : State) : State * list action * option promise :=
  let '(s1, acts, result) := initiateCall s in
  match result with
  | Some Rejected =>
      let '(s2, acts') := reconnectionFailed s1 in (s2, acts ++ acts', result)
  | _ => (s1, acts, result)
  end.

(** The subscriber of [call.onCallEnded]. *)
Definition onCallEnded (s : State) : State * list action :=
  if negb s.(intentionalDisconnect) then
    (set_initiatingCall false (set_currentCall None s),
     [SetTimeout 2000 Reconnect])
  else (s, [Emit CallEnded]).

(** The subscriber of [call.connection.onCallAnswered]. *)
Definition onCallAnswered (s : State) : State * list action :=
  (s, [Emit CallEstablished]).

(** The subscriber of [call.connection.onAudioRtp]. *)
Definition onAudioRtp (s : State) (rtp : RtpPacket) : State * list action :=
  let first := negb s.(receivingAudio) in
  let s1 := if first then set_receivingAudio true s else s in
  (s1,
   (if first then [Emit ReceivingAudio] else [])
   ++ (if s1.(sip) then [SipSendAudioPacket rtp] else [])).

(** The subscriber of [call.connection.onVideoRtp]. *)
Definition onVideoRtp (s : State) (rtp : RtpPacket) : State * list action :=
  (s, if s.(sip) then [SipSendVideoPacket rtp] else []).

(** The callbacks of the timers. *)
Definition onTimer (s : State) (t : timer) : State * list action :=
  match t with
  | Reconnect => let '(s', acts, _) := reconnect s in (s', acts)
  | KeyFrameIfCall =>
      match s.(currentCall) with
      | Some c => (s, [RequestKeyFrame c])
      | None => (s, [])
      end
  | KeyFrame c => (s, [RequestKeyFrame c])
  end.

(** [sendAudioPacket(rtp, isTone)] *)
Definition sendAudioPacket (s : State) (rtp : RtpPacket) (isTone : bool)
  : State * RtpPacket * list action :=
  match s.(currentCall) with
  | None => (s, rtp, [])
  | Some call =>
      let '(seq', rtp1, shouldForward) := process s.(rtpSequencer) rtp isTone in
      let s' := set_rtpSequencer seq' s in
      if shouldForward then
        let rtp2 := match s'.(audioPayloadType) with
                    | Some pt => if truthyNumber pt
                                 then set_payloadType pt rtp1 else rtp1
                    | None => rtp1
                    end in
        (s', rtp2, [CallSendAudioPacket call rtp2])
      else (s', rtp1, [])
  end.

(** [pipeAudio(sip)]; a call handle of the provider has a
    [connection]. *)
Definition pipeAudio (s : State) : State * list action :=
  let s1 := set_sip true s in
  match s1.(currentCall) with
  | Some c => (s1, [RequestKeyFrame c])
  | None => (s1, [])
  end.

(** [cleanup()] *)
Definition cleanup (s : State) : State * list action :=
  let s1 := set_intentionalDisconnect true s in
  match s1.(currentCall) with
  | Some c => (set_currentCall None s1, [CallStop c])
  | None => (s1, [])
  end.

End WithSequencer.

End Ring.

(** ** The orchestrator ([index.js])

    The [buttonPressed] listener with the two variables it closes over,
    [fullCleanup], [doConnect] and [notify].  The result of a handler is
    the list of calls it makes on the two legs, on the tone player and
    on the timers, in program order.  The two calls of [fullCleanup] on
    the legs are the models of the legs themselves, [Sip.cleanup] and
    [Ring.cleanup], run on the legs as they are at that moment: the
    trace records what each did, and when [sip.cleanup()] raises the
    exception leaves [fullCleanup], which has no handler, so that
    nothing after it is reached.

    [Promise.race([tonePromise, timeoutPromise]).then(...)] is kept as a
    numbered race in [pendingRaces]: the promise of [tones.playHangup()]
    resolving and the 2000 ms timer firing both run [raceSettled], and
    only the first of the two finds the race pending.  [tones.js] is not
    part of the sources at hand; of [playHangup] the model says only
    that it returns a promise, which resolves or stays pending, and
    [tones.cleanup()] is taken to return. *)

Module Index.
Import Js Config.

Inductive timer : Type :=
| HangupTimeout (race : nat)   (* resolves [timeoutPromise] of that race *)
| ProcessExit.                 (* [process.exit(0)] *)

Inductive call : Type :=
| SipInitiateCall              (* sip.initiateCall() *)
| RingInitiateCall             (* ring.initiateCall() *)
| SipCleanup (did : list Sip.action)    (* sip.cleanup(), and what it did *)
| RingCleanup (did : list Ring.action)  (* ring.cleanup(), and what it did *)
| TonesCleanup                 (* tones.cleanup() *)
| TonesPlayHangup (race : nat) (* tones.playHangup(), entering that race *)
| SetTimeout (ms : Z) (t : timer)
| Notify.                      (* notify() *)

Record State : Type := {
  lastButtonPress : Z;
  lastDingId : option jsstring;
  pendingRaces : list nat;
  nextRace : nat
}.

Definition initial : State :=
  {| lastButtonPress := 0; lastDingId := None;
     pendingRaces := []; nextRace := 0 |}.

(** The call raised: a [TypeError] left it. *)
Definition raised (did : list Sip.action) : bool :=
  existsb (fun a => match a with Sip.Throw => true | _ => false end) did.

(** [fullCleanup()], on the two legs as they are when it is called;
    [tag] and [callId] are the draws of [rstring()] that
    [sip.cleanup()] makes for its unregistration.  The result is the
    two legs afterwards and the calls made.  An exception of
    [sip.cleanup()] is not caught here: [ring.cleanup()],
    [tones.cleanup()] and the timer of [process.exit] are then not
    reached. *)
Definition fullCleanup {R Q : Type} (env : Env)
  (ring : Ring.State R) (sip : Sip.State Q) (tag callId : jsstring)
  : Ring.State R * Sip.State Q * list call :=
  let '(sip', sipDid) := Sip.cleanup env sip tag callId in
  if raised sipDid then (ring, sip', [SipCleanup sipDid])
  else
    let '(ring', ringDid) := Ring.cleanup ring in
    (ring', sip',
     [SipCleanup sipDid; RingCleanup ringDid; TonesCleanup;
      SetTimeout 200 ProcessExit]).

(** [doConnect()] *)
Definition doConnect : list call := [SipInitiateCall; RingInitiateCall].

(** The [catch] of [doConnect]. *)
Definition connectFailed {R Q : Type} (env : Env)
  (ring : Ring.State R) (sip : Sip.State Q) (tag callId : jsstring)
  : list call :=
  snd (fullCleanup env ring sip tag callId).

(** The [dingId] variable of the listener after its first [if]:
    [data.dingId] when it is truthy, [null] otherwise. *)
Definition dingIdOf (data : Ring.buttonData) : option jsstring :=
  match data with
  | Ring.TheCamera => None
  | Ring.WithDingId (Some d) => if truthyString d then Some d else None
  | Ring.WithDingId None => None
  end.

(** [dingId && lastDingId === dingId] *)
Definition duplicateDing (st : State) (dingId : option jsstring) : bool :=
  match dingId, st.(lastDingId) with
  | Some d, Some l => Sip.string_eqb l d
  | _, _ => false
  end.

(** [now - lastButtonPress < 500] *)
Definition withinDebounce (st : State) (now : Z) : bool :=
  (now - st.(lastButtonPress) <? 500)%Z.

(** The two early returns of the listener. *)
Definition suppressed (st : State) (data : Ring.buttonData) (now : Z) : bool :=
  duplicateDing st (dingIdOf data) || withinDebounce st now.

(** [ring.initiatingCall || ring.currentCall || sip.initiatingCall ||
    sip.inviteRequest || sip.sipSession] *)
Definition callActive {R Q : Type} (ring : Ring.State R) (sip : Sip.State Q) : bool :=
  ring.(Ring.initiatingCall) || Sip.isSome ring.(Ring.currentCall)
  || sip.(Sip.initiatingCall) || Sip.isSome sip.(Sip.inviteRequest)
  || Sip.isSome sip.(Sip.sipSession).

(** The listener of [ring.on('buttonPressed', ...)]; [now] is
    [Date.now()]. *)
Definition buttonPressed {R Q : Type} (st : State)
  (ring : Ring.State R) (sip : Sip.State Q)
  (data : Ring.buttonData) (now : Z) : State * list call :=
  let dingId := dingIdOf data in
  if duplicateDing st dingId then (st, [])
  else if withinDebounce st now then (st, [])
  else
    let lastDingId' := match dingId with
                       | Some d => Some d
                       | None => st.(lastDingId)
                       end in
    if callActive ring sip then
      let race := st.(nextRace) in
      ({| lastButtonPress := now; lastDingId := lastDingId';
          pendingRaces := race :: st.(pendingRaces);
          nextRace := S race |},
       [TonesPlayHangup race; SetTimeout 2000 (HangupTimeout race)])
    else
      ({| lastButtonPress := now; lastDingId := lastDingId';
          pendingRaces := st.(pendingRaces);
          nextRace := st.(nextRace) |},
       Notify :: doConnect).

(** One of the two promises of race [race] is settled: the [then]
    callback runs if the race was still pending, and calls
    [fullCleanup()] on the legs as they are then. *)
Definition raceSettled {R Q : Type} (env : Env) (st : State)
  (ring : Ring.State R) (sip : Sip.State Q) (tag callId : jsstring)
  (race : nat) : State * list call :=
  if existsb (Nat.eqb race) st.(pendingRaces) then
    ({| lastButtonPress := st.(lastButtonPress);
        lastDingId := st.(lastDingId);
        pendingRaces := filter (fun r => negb (Nat.eqb race r)) st.(pendingRaces);
        nextRace := st.(nextRace) |},
     snd (fullCleanup env ring sip tag callId))
  else (st, []).

(** The promise of [tones.playHangup()] of race [race] resolves. *)
Definition toneFinished {R Q : Type} (env : Env) (st : State)
  (ring : Ring.State R) (sip : Sip.State Q) (tag callId : jsstring)
  (race : nat) : State * list call :=
  raceSettled env st ring sip tag callId race.

(** A timer of the orchestrator fires. *)
Definition onTimer {R Q : Type} (env : Env) (st : State)
  (ring : Ring.State R) (sip : Sip.State Q) (tag callId : jsstring)
  (t : timer) : State * list call :=
  match t with
  | HangupTimeout race => raceSettled env st ring sip tag callId race
  | ProcessExit => (st, [])
  end.

End Index.

(** ** [rstring()] of [sip.js]

    The nine characters of a call-id or a tag.  [draw i] is the index
    [Math.floor(Math.random() * chars.length)] of the [i]-th turn of the
    loop. *)

Module Random.
Import Js.

Definition chars : jsstring :=
  js "ABCDEFGHIJKLMNOPQRSTUVWXYZabcdefghijklmnopqrstuvwxyz0123456789".

(** [s.charAt(i)]: the empty string outside the string. *)
Definition charAt (s : jsstring) (i : nat) : jsstring :=
  match nth_error s i with
  | Some c => [c]
  | None => []
  end.

Definition rstring (draw : nat -> nat) : jsstring :=
  fold_left (fun result i => result ++ charAt chars (draw i)) (seq 0 9) [].

End Random.

(** ** Runs of the Ring leg

    [initialize()] once [getCameras()] has answered, and what can happen
    to the object next: a call of one of its methods, an answer of the
    provider, an event of the live call, a timer. *)

Module RingRun.
Import Js Rtp Ring.

Section WithSequencer.

Variable Sequencer : Type.
Variable process : processFn Sequencer.

(** [initialize()]: [ringApi] is set; [found] says whether a doorbell
    named [CAMERA_NAME] is among the cameras, which sets [camera]. *)
Definition initialize (found : bool) (s : State Sequencer) : State Sequencer :=
  {| ringApi := true;
     camera := if found then true else s.(camera);
     currentCall := s.(currentCall);
     sip := s.(sip); initiatingCall := s.(initiatingCall);
     receivingAudio := s.(receivingAudio);
     intentionalDisconnect := s.(intentionalDisconnect);
     audioPayloadType := s.(audioPayloadType);
     rtpSequencer := s.(rtpSequencer) |}.

Inductive operation : Type :=
| OpInitialize (found : bool)
| OpInitiateCall
| OpLiveCallStarted (call : Call)
| OpLiveCallFailed (h : holder)
| OpCallEnded
| OpCallAnswered
| OpAudioRtp (rtp : RtpPacket)
| OpVideoRtp (rtp : RtpPacket)
| OpTimer (t : timer)
| OpSendAudioPacket (rtp : RtpPacket) (isTone : bool)
| OpPipeAudio
| OpCleanup.

Definition perform (s : State Sequencer) (op : operation)
  : State Sequencer * list action :=
  match op with
  | OpInitialize found => (initialize found s, [])
  | OpInitiateCall => let '(s', acts, _) := initiateCall s in (s', acts)
  | OpLiveCallStarted call => liveCallStarted s call
  | OpLiveCallFailed h => liveCallFailed s h
  | OpCallEnded => onCallEnded s
  | OpCallAnswered => onCallAnswered s
  | OpAudioRtp rtp => onAudioRtp s rtp
  | OpVideoRtp rtp => onVideoRtp s rtp
  | OpTimer t => onTimer s t
  | OpSendAudioPacket rtp isTone =>
      let '(s', _, acts) := sendAudioPacket process s rtp isTone in (s', acts)
  | OpPipeAudio => pipeAudio s
  | OpCleanup => cleanup s
  end.

Fixpoint run (s : State Sequencer) (ops : list operation)
  : State Sequencer * list (list action) :=
  match ops with
  | [] => (s, [])
  | op :: ops' =>
      let '(s1, acts) := perform s op in
      let '(s2, rest) := run s1 ops' in
      (s2, acts :: rest)
  end.

End WithSequencer.

End RingRun.

(** ** Runs of the orchestrator

    What the [buttonPressed] listener and the hangup races see over
    time: a press, the promise of a hangup tone resolving, a timer
    firing, each with the state of the two legs at that moment (and,
    for the two that may run [fullCleanup()], the draws of [rstring()]
    of [sip.cleanup()]). *)

Module IndexRun.
Import Js Config Index.

Section WithLegs.

Variables R Q : Type.
Variable env : Env.

Inductive event : Type :=
| Pressed (ring : Ring.State R) (sip : Sip.State Q)
          (data : Ring.buttonData) (now : Z)
| ToneFinished (ring : Ring.State R) (sip : Sip.State Q)
               (tag callId : jsstring) (race : nat)
| TimerFired (ring : Ring.State R) (sip : Sip.State Q)
             (tag callId : jsstring) (t : timer).

Definition step (st : State) (ev : event) : State * list call :=
  match ev with
  | Pressed ring sip data now => buttonPressed st ring sip data now
  | ToneFinished ring sip tag callId race =>
      toneFinished env st ring sip tag callId race
  | TimerFired ring sip tag callId t => onTimer env st ring sip tag callId t
  end.

Fixpoint run (st : State) (evs : list event) : State * list (list call) :=
  match evs with
  | [] => (st, [])
  | ev :: evs' =>
      let '(st1, calls) := step st ev in
      let '(st2, rest) := run st1 evs' in
      (st2, calls :: rest)
  end.

(** The times of the presses that get past the two early returns. *)
Fixpoint acceptedTimes (st : State) (evs : list event) : list Z :=
  match evs with
  | [] => []
  | ev :: evs' =>
      let st1 := fst (step st ev) in
      match ev with
      | Pressed _ _ data now =>
          if suppressed st data now then acceptedTimes st1 evs'
          else now :: acceptedTimes st1 evs'
      | _ => acceptedTimes st1 evs'
      end
  end.

End WithLegs.

End IndexRun.

(* ================================================================== *)
(** * Part II: the vocabulary of the properties                        *)
(* ================================================================== *)

Unset Implicit Arguments.

(** ** Predicates the statements use *)

Module Spec.
Import Js Regex Config Sdp Rtp Sip.

(** Every code unit of [s] satisfies [p]. *)
Definition all (p : N -> bool) (s : jsstring) : Prop :=
  Forall (fun c => p c = true) s.

(** No code unit of [s] satisfies [p]. *)
Definition none (p : N -> bool) (s : jsstring) : Prop :=
  Forall (fun c => p c = false) s.

(** A non-empty run of decimal digits. *)
Definition digits (d : jsstring) : Prop := d <> [] /\ all isDigit d.

(** [s] is empty or starts outside the class [c]. *)
Definition stops (c : cclass) (s : jsstring) : Prop :=
  match s with
  | [] => True
  | x :: _ => cclass_mem c x = false
  end.

(** The text [m] is an instance of the pattern, with these captures. *)
Inductive Matches : regex -> jsstring -> list jsstring -> Prop :=
| Matches_nil : Matches [] [] []
| Matches_Chars l r m caps :
    Matches r m caps -> Matches (Chars l :: r) (l ++ m) caps
| Matches_Plus c r w m caps :
    w <> [] -> all (cclass_mem c) w ->
    Matches r m caps -> Matches (Plus c :: r) (w ++ m) caps
| Matches_Group c r w m caps :
    w <> [] -> all (cclass_mem c) w ->
    Matches r m caps -> Matches (Group c :: r) (w ++ m) (w :: caps).

(** A configured local address: not empty, no white space in it. *)
Definition wellFormedAddress (a : jsstring) : bool :=
  truthyString a && forallb (fun c => negb (isSpace c)) a.

(** A text without line feed, as the text of a number is. *)
Definition noLineFeed (s : jsstring) : bool :=
  forallb (fun c => negb (c =? LF)%N) s.

(** [request.content || ''] *)
Definition offerOf (request : Request) : jsstring :=
  match request.(rq_content) with
  | Some c => c
  | None => []
  end.

(** [line] holds an [a=rtpmap:] entry that names a codec containing
    OPUS (in any case) for a payload type among [pts]. *)
Definition opus_rtpmap_for (pts : list number) (line : jsstring) : Prop :=
  exists before d w codec rest,
    line = before ++ js "a=rtpmap:" ++ d ++ w ++ codec ++ rest
    /\ digits d
    /\ w <> [] /\ all isSpace w
    /\ codec <> [] /\ all (cclass_mem WordDash) codec
    /\ includes (toUpperCase codec) (js "OPUS") = true
    /\ arrayIncludes pts (parseInt10 d) = true.

(** The offer has no OPUS rtpmap among the payload types its [m=audio]
    line advertises. *)
Definition no_opus_offered (sdp : jsstring) : Prop :=
  forall port pts,
    mediaLine (js "m=audio") re_m_audio (sdpLines sdp) = Some (port, pts) ->
    forall line, In line (sdpLines sdp) -> ~ opus_rtpmap_for pts line.

(** The 488 of the handler. *)
Definition notAcceptable (request : Request) : action :=
  SendResponse (makeResponse request 488 (js "Not Acceptable Here")).

(** The requests among the actions, as method and CSeq. *)
Fixpoint requestsSent (acts : list action) : list (method * Z) :=
  match acts with
  | [] => []
  | SendRequest rq _ :: rest => (rq.(rq_method), rq.(rq_cseq)) :: requestsSent rest
  | _ :: rest => requestsSent rest
  end.

(** The negotiated endpoints of the leg, if any. *)
Definition audioEndpoint {Q : Type} (s : State Q) : option Endpoint :=
  match s.(serverRtpInfo) with
  | Some info => info.(audio)
  | None => None
  end.

Definition videoEndpoint {Q : Type} (s : State Q) : option Endpoint :=
  match s.(serverRtpInfo) with
  | Some info => info.(video)
  | None => None
  end.

(** [info] was parsed from a session description of the peer. *)
Definition negotiated (info : MediaOffer) : Prop :=
  exists sdp, _parseRemoteSdp sdp = Some info.

(** Whatever the object stores in [serverRtpInfo] was parsed from a
    session description of the peer. *)
Definition endpointsNegotiated {Q : Type} (s : State Q) : Prop :=
  forall info, s.(serverRtpInfo) = Some info -> negotiated info.

(** ** The claims that fail, as the specification states them *)

(** The claim of the specification at one offer: the offer has the two
    lines, and the parser returns the port and the payload type they
    carry. *)
Definition audio_offer_claim
  (sdp portText ptText rest : jsstring) (pts : list jsstring) : Prop :=
  digits portText -> digits ptText -> Forall digits pts -> In ptText pts ->
  In (js "m=audio " ++ portText ++ js " RTP/AVP " ++ join [SP] pts) (sdpLines sdp) ->
  In (js "a=rtpmap:" ++ ptText ++ js " OPUS/" ++ rest) (sdpLines sdp) ->
  exists offer a,
    _parseRemoteSdp sdp = Some offer /\ offer.(audio) = Some a
    /\ a.(payloadType) = parseInt10 ptText
    /\ a.(port) = parseInt10 portText.

(** The claim of the specification at one INVITE. *)
Definition invite_claim {Q : Type} (env : Env) (s : State Q)
  (request : Request) (sessionId : jsstring) : Prop :=
  no_opus_offered (offerOf request) ->
  (forall offer, _parseRemoteSdp (offerOf request) = Some offer ->
                 offer.(audio) = None)
  /\ snd (_handleInboundInvite env s request sessionId)
     = [notAcceptable request].

End Spec.

(** ** Sample inputs *)

Module Samples.
Import Js Config Sdp Rtp Sip.

(** An offer with two OPUS lines, for 96 and for 97. *)
Definition two_opus_offer : jsstring :=
  join CRLF [ js "v=0";
              js "c=IN IP4 10.0.0.5";
              js "m=audio 5004 RTP/AVP 96 97";
              js "a=rtpmap:96 OPUS/48000/2";
              js "a=rtpmap:97 OPUS/16000" ] ++ CRLF.

(** An offer with a connection line and video only. *)
Definition video_only_offer : jsstring :=
  join CRLF [ js "v=0";
              js "c=IN IP4 10.0.0.5";
              js "m=video 5006 RTP/AVP 99";
              js "a=rtpmap:99 H264/90000" ] ++ CRLF.

(** An offer with a connection line, PCMU audio and H264 video: its
    audio block does not resolve. *)
Definition pcmu_video_offer : jsstring :=
  join CRLF [ js "v=0";
              js "c=IN IP4 10.0.0.5";
              js "m=audio 5004 RTP/AVP 0";
              js "a=rtpmap:0 PCMU/8000";
              js "m=video 5006 RTP/AVP 99";
              js "a=rtpmap:99 H264/90000" ] ++ CRLF.

(** An offer with a connection line, audio and video. *)
Definition audio_video_offer : jsstring :=
  join CRLF [ js "c=IN IP4 10.0.0.5";
              js "m=audio 5004 RTP/AVP 96";
              js "a=rtpmap:96 opus/48000/2";
              js "m=video 5006 RTP/AVP 99";
              js "a=rtpmap:99 H264/90000" ] ++ CRLF.

(** An offer of PCMU only (static payload type 0). *)
Definition pcmu_offer : jsstring :=
  join CRLF [ js "v=0";
              js "c=IN IP4 10.0.0.5";
              js "m=audio 5004 RTP/AVP 0" ] ++ CRLF.

(** An INVITE with that offer. *)
Definition pcmu_invite : Request :=
  {| rq_method := INVITE; rq_uri := js "sip:doorbell@192.168.1.20:5060";
     rq_from_tag := js "a73kszlfl"; rq_call_id := js "3848276298220188511";
     rq_cseq := 1; rq_expires := None; rq_authorization := None;
     rq_content := Some pcmu_offer |}.

(** A configuration. *)
Definition env0 : Env :=
  {| SIP_DOMAIN := js "pbx.example.org"; SIP_DEST := js "100";
     SIP_USER := js "doorbell"; LOCAL_IP := js "192.168.1.20";
     LOCAL_SIP_PORT := js "5060"; LOCAL_VIDEO_PORT := js "8002" |}.

(** An INVITE that offers OPUS as payload type 96. *)
Definition opus_invite : Request :=
  {| rq_method := INVITE; rq_uri := js "sip:doorbell@192.168.1.20:5060";
     rq_from_tag := js "a73kszlfl"; rq_call_id := js "3848276298220188511";
     rq_cseq := 1; rq_expires := None; rq_authorization := None;
     rq_content := Some (join CRLF [ js "v=0";
                                     js "c=IN IP4 10.0.0.5";
                                     js "m=audio 5004 RTP/AVP 96";
                                     js "a=rtpmap:96 opus/48000/2" ] ++ CRLF) |}.

(** A packet as the Ring leg hands it over. *)
Definition ringPacket : RtpPacket :=
  {| header_payloadType := Num 111; header_sequenceNumber := 4711;
     header_timestamp := 960; payload := [120; 1; 2]%N |}.

(** A 401 with a challenge, within the call [callId]. *)
Definition unauthorized (callId nonce : jsstring) (cseq : Z) : Response :=
  {| status := 401; reason := js "Unauthorized";
     rs_from_tag := js "a73kszlfl"; rs_call_id := callId; rs_cseq := cseq;
     rs_contact := None;
     www_authenticate := Some (js "Digest realm=pbx.example.org, nonce=" ++ nonce);
     rs_content := None |}.

(** A sequencer that forwards everything unchanged, to run the model. *)
Definition forwardAll : processFn unit := fun seq rtp _ => (seq, rtp, true).

(** An initialised Ring leg with a live call. *)
Definition live : Ring.State unit :=
  {| Ring.ringApi := true; Ring.camera := true; Ring.currentCall := Some 7%N;
     Ring.sip := true; Ring.initiatingCall := true;
     Ring.receivingAudio := true; Ring.intentionalDisconnect := false;
     Ring.audioPayloadType := None; Ring.rtpSequencer := tt |}.

(** The legs of a call in progress, to run the model: the Ring leg
    holds a call, the SIP leg has an INVITE out. *)
Definition ringInCall : Ring.State unit :=
  {| Ring.ringApi := true; Ring.camera := true; Ring.currentCall := Some 7%N;
     Ring.sip := false; Ring.initiatingCall := true;
     Ring.receivingAudio := false; Ring.intentionalDisconnect := false;
     Ring.audioPayloadType := None; Ring.rtpSequencer := tt |}.

Definition sipInCall : Sip.State unit :=
  fst (Sip.initiateCall env0 (Sip.new_Sip tt)
         (js "1730000000000") (js "Gh7Rw21pZ") (js "Xk29dLmQ7")).

End Samples.

(** ** More predicates and samples *)

Module Spec2.
Import Js Regex Config Sdp Rtp Sip Spec.

(** [line] holds an [a=rtpmap:] entry for the payload type [pt], one of
    [pts], that names a codec containing [codecName] (in any case). *)
Definition rtpmap_for (codecName : jsstring) (pts : list number) (pt : number)
  (line : jsstring) : Prop :=
  exists before d w codec rest,
    line = before ++ js "a=rtpmap:" ++ d ++ w ++ codec ++ rest
    /\ digits d
    /\ w <> [] /\ all isSpace w
    /\ codec <> [] /\ all (cclass_mem WordDash) codec
    /\ includes (toUpperCase codec) codecName = true
    /\ parseInt10 d = pt
    /\ arrayIncludes pts pt = true.

(** [line] holds an [m=] entry of the kind [kind] (["m=audio"],
    ["m=video"]) with the port [port] and the payload types [pts]. *)
Definition media_line (kind : jsstring) (port : number) (pts : list number)
  (line : jsstring) : Prop :=
  exists before ws1 d ws2 proto ws3 ptsText rest,
    line = before ++ kind ++ ws1 ++ d ++ ws2 ++ js "RTP/" ++ proto ++ ws3
             ++ ptsText ++ rest
    /\ ws1 <> [] /\ all isSpace ws1
    /\ digits d
    /\ ws2 <> [] /\ all isSpace ws2
    /\ proto <> [] /\ none isSpace proto
    /\ ws3 <> [] /\ all isSpace ws3
    /\ ptsText <> [] /\ none isLineTerminator ptsText
    /\ port = parseInt10 d
    /\ pts = map parseInt10 (split SP ptsText).

(** The INVITE requests among the actions, as call-id and CSeq. *)
Fixpoint invitesOf (acts : list action) : list (jsstring * Z) :=
  match acts with
  | [] => []
  | SendRequest rq _ :: rest =>
      match rq.(rq_method) with
      | INVITE => (rq.(rq_call_id), rq.(rq_cseq)) :: invitesOf rest
      | _ => invitesOf rest
      end
  | _ :: rest => invitesOf rest
  end.

(** The INVITE requests of a run, in order. *)
Definition allInvites (trace : list (list action)) : list (jsstring * Z) :=
  flat_map invitesOf trace.

(** [(callId, 1); (callId, 2); ...; (callId, n)] *)
Definition countUp (callId : jsstring) (n : nat) : list (jsstring * Z) :=
  map (fun k => (callId, Z.of_nat k)) (seq 1 n).

(** The callbacks of [sendRegister] and [sendUnregister] close over a
    REGISTER request: the responses a run delivers to such callbacks are
    for REGISTER requests. *)
Definition registerCallbackTyped (op : operation) : Prop :=
  match op with
  | OpResponse (CbRegister rq) _ => rq.(rq_method) = REGISTER
  | OpResponse (CbUnregister rq) _ => rq.(rq_method) = REGISTER
  | _ => True
  end.

(** The operations that set a call up: [initiateCall()] and an inbound
    INVITE. *)
Definition isCallSetup (op : operation) : bool :=
  match op with
  | OpInitiateCall _ _ _ => true
  | OpRequest request _ =>
      match request.(rq_method) with INVITE => true | _ => false end
  | _ => false
  end.

(** Two call-ids are both non-empty and the same: the test of
    [_handleBye]. *)
Definition sameCall (ours received : jsstring) : Prop :=
  ours <> [] /\ ours = received.

(** The times of a list are at least 500 ms apart, the first at least
    500 ms after [previous]. *)
Fixpoint spaced (previous : Z) (times : list Z) : Prop :=
  match times with
  | [] => True
  | t :: rest => (t - previous >= 500)%Z /\ spaced t rest
  end.

(** A press without dedup id, as the listener reads it. *)
Definition withoutDingId {R Q : Type} (ev : IndexRun.event R Q) : Prop :=
  match ev with
  | IndexRun.Pressed _ _ data _ => Index.dingIdOf data = None
  | _ => True
  end.

(** A BYE within the call [callId]. *)
Definition byeFor (callId : jsstring) : Request :=
  {| rq_method := BYE; rq_uri := js "sip:doorbell@192.168.1.20:5060";
     rq_from_tag := js "a73kszlfl"; rq_call_id := callId;
     rq_cseq := 2; rq_expires := None; rq_authorization := None;
     rq_content := None |}.

(** A final response to the INVITE of [Samples.sipInCall]. *)
Definition answer (st : Z) (rsn : jsstring) (challenge : option jsstring)
  (contact : option jsstring) (content : option jsstring) : Response :=
  {| status := st; reason := rsn;
     rs_from_tag := js "Gh7Rw21pZ"; rs_call_id := js "Xk29dLmQ7"; rs_cseq := 1;
     rs_contact := contact; www_authenticate := challenge;
     rs_content := content |}.

(** The SIP leg in an inbound call it has answered: its session is the
    200 it built for the INVITE. *)
Definition sipInboundCall : State unit :=
  fst (_handleInboundInvite Samples.env0 (new_Sip tt) Samples.opus_invite
         (js "1730000000000")).

(** The SIP leg in an outbound call that was answered: its session is
    the 200 it received, with the contact of the peer. *)
Definition sipOutboundCall : State unit :=
  fst (_handleInviteResponse Samples.sipInCall
         (answer 200 (js "OK") None (Some (js "sip:100@10.0.0.5"))
                 (Some Samples.audio_video_offer))).

(** What the INVITE requests sent so far are, given the state of the
    object: none before the first call set-up; then those of one call,
    numbered from 1, the last of them the request the object holds. *)
Definition invitesSoFar {Q : Type} (s : State Q) (sent : list (jsstring * Z))
  : Prop :=
  (s.(initiatingCall) = false -> sent = [] /\ s.(inviteRequest) = None)
  /\ match s.(inviteRequest) with
     | Some rq => rq.(rq_method) = INVITE
                  /\ exists n, sent = countUp rq.(rq_call_id) n
                               /\ rq.(rq_cseq) = Z.of_nat n
     | None => exists callId n, sent = countUp callId n
     end.

Definition isNil {A : Type} (l : list A) : bool :=
  match l with [] => true | _ :: _ => false end.

(** The number of call set-ups of a run that did anything. *)
Definition answeredSetups (ops : list operation) (trace : list (list action))
  : nat :=
  List.length
    (filter (fun p => isCallSetup (fst p) && negb (isNil (snd p)))
            (combine ops trace)).

(** An action on one of the two sockets. *)
Definition onSocket (a : action) : bool :=
  match a with
  | UdpSend _ _ _ _ => true
  | UdpClose _ => true
  | _ => false
  end.

(** The request [cleanup()] ends an answered call with. *)
Definition byeOf (response : Response) (uri : jsstring) : Request :=
  {| rq_method := BYE; rq_uri := uri;
     rq_from_tag := response.(rs_from_tag);
     rq_call_id := response.(rs_call_id);
     rq_cseq := (response.(rs_cseq) + 1)%Z;
     rq_expires := None; rq_authorization := None; rq_content := None |}.

(** The acknowledgement of a final response. *)
Definition ackOf (response : Response) (uri : jsstring) : Request :=
  {| rq_method := ACK; rq_uri := uri;
     rq_from_tag := response.(rs_from_tag);
     rq_call_id := response.(rs_call_id);
     rq_cseq := response.(rs_cseq);
     rq_expires := None; rq_authorization := None; rq_content := None |}.

(** The offer of a response, if it has one the parser accepts. *)
Definition answerOffer (response : Response) : option MediaOffer :=
  match response.(rs_content) with
  | Some c => _parseRemoteSdp c
  | None => None
  end.

(** A final response that is neither a success nor a challenge. *)
Definition isFailure (response : Response) : Prop :=
  isChallenge response = false
  /\ (response.(status) < 100 \/ 300 <= response.(status))%Z.

(** The REGISTER request of [sendRegister] ([expires] 600) and of the
    unregistration of [cleanup()] ([expires] 0). *)
Definition registerRequestOf (env : Env) (callId tag : jsstring) (expires : Z)
  : Request :=
  {| rq_method := REGISTER; rq_uri := js "sip:" ++ env.(SIP_DOMAIN);
     rq_from_tag := tag; rq_call_id := callId; rq_cseq := 1;
     rq_expires := Some expires; rq_authorization := None;
     rq_content := None |}.

(** [retry] repeats [request] once more: same method, call-id and
    expiry, the next CSeq, and credentials. *)
Definition retryOf (request retry : Request) : Prop :=
  retry.(rq_method) = request.(rq_method)
  /\ retry.(rq_call_id) = request.(rq_call_id)
  /\ retry.(rq_expires) = request.(rq_expires)
  /\ retry.(rq_cseq) = (request.(rq_cseq) + 1)%Z
  /\ isSome retry.(rq_authorization) = true.

(** A code unit of [rstring]'s alphabet. *)
Definition isAlphanumeric (c : N) : bool :=
  ((65 <=? c) && (c <=? 90) || (97 <=? c) && (c <=? 122)
   || (48 <=? c) && (c <=? 57))%N.

(** The Ring leg asks the provider for a live call. *)
Definition startsLiveCall (acts : list Ring.action) : bool :=
  existsb (fun a => match a with Ring.StartLiveCall => true | _ => false end)
          acts.

Definition isReceivingAudio (a : Ring.action) : bool :=
  match a with
  | Ring.Emit Ring.ReceivingAudio => true
  | _ => false
  end.

(** How many times a run emitted [receivingAudio]. *)
Definition audioAnnouncements (trace : list (list Ring.action)) : nat :=
  List.length (filter isReceivingAudio (List.concat trace)).

Definition stopsCall (acts : list Ring.action) : bool :=
  existsb (fun a => match a with Ring.CallStop _ => true | _ => false end)
          acts.

(** The event settles one of the two promises of the race [race]. *)
Definition settles {R Q : Type} (race : nat) (ev : IndexRun.event R Q) : bool :=
  match ev with
  | IndexRun.ToneFinished _ _ _ _ r => Nat.eqb r race
  | IndexRun.TimerFired _ _ _ _ (Index.HangupTimeout r) => Nat.eqb r race
  | _ => false
  end.

(** How many times the race [race] ran the teardown in a run. *)
Definition teardowns {R Q : Type} (race : nat)
  (evs : list (IndexRun.event R Q)) (trace : list (list Index.call)) : nat :=
  List.length
    (filter (fun p => settles race (fst p) && negb (isNil (snd p)))
            (combine evs trace)).

(** The orchestrator dials: one of the two [initiateCall()]. *)
Definition dials (calls : list Index.call) : bool :=
  existsb (fun c => match c with
                    | Index.SipInitiateCall | Index.RingInitiateCall => true
                    | _ => false
                    end) calls.

End Spec2.

(* ================================================================== *)
(** * Part III: properties                                             *)
(* ================================================================== *)

(** ** Facts on strings and numbers *)

Module JsFacts.
Import Js Spec.

Lemma digit_not_space c : isDigit c = true -> isSpace c = false.
Proof.
  unfold isDigit, isSpace, isWhiteSpace, isLineTerminator. intros H.
  apply andb_true_iff in H. destruct H as [H1 H2].
  apply N.leb_le in H1. apply N.leb_le in H2.
  repeat match goal with
  | |- context [(c =? ?k)%N] =>
      replace (c =? k)%N with false by (symmetry; apply N.eqb_neq; lia)
  end.
  replace (c <=? 8202)%N with true by (symmetry; apply N.leb_le; lia).
  replace (8192 <=? c)%N with false by (symmetry; apply N.leb_gt; lia).
  reflexivity.
Qed.

Lemma digit_not_line_terminator c : isDigit c = true -> isLineTerminator c = false.
Proof.
  intros H. apply digit_not_space in H. unfold isSpace in H.
  apply orb_false_iff in H. tauto.
Qed.

Lemma space_not_digit c : isSpace c = true -> isDigit c = false.
Proof.
  intros H. destruct (isDigit c) eqn:E; [|reflexivity].
  apply digit_not_space in E. congruence.
Qed.

Lemma dropWhile_all p a b : all p a -> dropWhile p (a ++ b) = dropWhile p b.
Proof.
  intros H. induction H as [|c a Hc _ IH]; simpl; [reflexivity|].
  cbv beta in Hc. now rewrite Hc.
Qed.

Lemma dropWhile_snoc p l c :
  p c = false -> dropWhile p (l ++ [c]) = dropWhile p l ++ [c].
Proof.
  intros Hc. induction l as [|x l IH]; simpl.
  - now rewrite Hc.
  - destruct (p x); [exact IH | reflexivity].
Qed.

Lemma takeWhile_all p a b :
  all p a -> match b with [] => True | c :: _ => p c = false end ->
  takeWhile p (a ++ b) = a.
Proof.
  intros Ha Hb. induction Ha as [|c a Hc _ IH]; simpl.
  - destruct b; simpl; [reflexivity | now rewrite Hb].
  - cbv beta in Hc. now rewrite Hc, IH.
Qed.

Lemma trimEnd_spaces s ws : all isSpace ws -> trimEnd (s ++ ws) = trimEnd s.
Proof.
  intros H. unfold trimEnd. rewrite rev_app_distr.
  rewrite dropWhile_all; [reflexivity|].
  unfold all. apply Forall_rev. exact H.
Qed.

Lemma trimEnd_snoc s c : isSpace c = false -> trimEnd (s ++ [c]) = s ++ [c].
Proof.
  intros H. unfold trimEnd. rewrite rev_app_distr. simpl.
  rewrite H. simpl. now rewrite rev_involutive.
Qed.

(** Trimming keeps a first character that is not a space. *)
Lemma trim_head c s : isSpace c = false -> exists t, trim (c :: s) = c :: t.
Proof.
  intros H. unfold trim, trimStart. simpl. rewrite H.
  unfold trimEnd. simpl. rewrite dropWhile_snoc by exact H.
  rewrite rev_app_distr. simpl. eauto.
Qed.

(** A line that starts and ends with something else than a space, and
    the spaces after it (the CR of a CRLF). *)
Lemma trim_keep c s d ws :
  isSpace c = false -> isSpace d = false -> all isSpace ws ->
  trim (c :: s ++ d :: ws) = c :: s ++ [d].
Proof.
  intros Hc Hd Hws. unfold trim, trimStart. simpl. rewrite Hc.
  replace (c :: s ++ d :: ws) with ((c :: s ++ [d]) ++ ws)
    by (simpl; now rewrite <- app_assoc).
  rewrite trimEnd_spaces by exact Hws.
  change (c :: s ++ [d]) with ((c :: s) ++ [d]).
  now rewrite trimEnd_snoc.
Qed.

Lemma split_not_nil sep s : split sep s <> [].
Proof.
  destruct s as [|c s]; simpl; [discriminate|].
  destruct (c =? sep)%N; [discriminate|].
  destruct (split sep s); discriminate.
Qed.

Lemma split_app sep a b :
  ~ In sep a -> split sep (a ++ sep :: b) = a :: split sep b.
Proof.
  induction a as [|c a IH]; intros H; simpl.
  - now rewrite N.eqb_refl.
  - destruct (N.eqb_spec c sep) as [->|_].
    + exfalso. apply H. now left.
    + rewrite IH; [reflexivity|]. intros Hin. apply H. now right.
Qed.

Lemma split_none sep a : ~ In sep a -> split sep a = [a].
Proof.
  induction a as [|c a IH]; intros H; simpl; [reflexivity|].
  destruct (N.eqb_spec c sep) as [->|_].
  - exfalso. apply H. now left.
  - rewrite IH; [reflexivity|]. intros Hin. apply H. now right.
Qed.

(** Splitting what was joined with the separator, when no part holds
    it. *)
Lemma split_join sep parts :
  parts <> [] -> Forall (fun p => ~ In sep p) parts ->
  split sep (join [sep] parts) = parts.
Proof.
  intros Hne H. induction H as [|p rest Hp Hrest IH]; [congruence|].
  destruct rest as [|q rest].
  - simpl. now apply split_none.
  - change (join [sep] (p :: q :: rest)) with (p ++ sep :: join [sep] (q :: rest)).
    rewrite split_app by exact Hp. f_equal. apply IH. discriminate.
Qed.

(** The lines of a CRLF-terminated text, before trimming. *)
Lemma split_join_crlf ls :
  ls <> [] -> Forall (fun l => ~ In LF l) ls ->
  split LF (join CRLF ls ++ CRLF) = map (fun l => l ++ [CR]) ls ++ [[]].
Proof.
  intros Hne H. induction H as [|l rest Hl Hrest IH]; [congruence|].
  assert (Hcr : ~ In LF (l ++ [CR])).
  { intros Hin. apply in_app_or in Hin. destruct Hin as [Hin|[Hin|[]]];
      [now apply Hl | discriminate Hin]. }
  destruct rest as [|q rest].
  - simpl join. unfold CRLF.
    replace (l ++ [CR; LF]) with ((l ++ [CR]) ++ LF :: []) by now rewrite <- app_assoc.
    now rewrite split_app.
  - change (join CRLF (l :: q :: rest) ++ CRLF)
      with ((l ++ CRLF ++ join CRLF (q :: rest)) ++ CRLF).
    replace ((l ++ CRLF ++ join CRLF (q :: rest)) ++ CRLF)
      with ((l ++ [CR]) ++ LF :: (join CRLF (q :: rest) ++ CRLF))
      by (unfold CRLF; repeat rewrite <- app_assoc; reflexivity).
    rewrite split_app by exact Hcr.
    rewrite IH by discriminate. reflexivity.
Qed.

Lemma startsWith_app s t : startsWith (s ++ t) s = true.
Proof.
  induction s as [|c s IH]; simpl; [now destruct t|].
  now rewrite N.eqb_refl.
Qed.

Lemma startsWith_head_neq c p s q : c <> p -> startsWith (c :: s) (p :: q) = false.
Proof.
  intros H. simpl. apply N.eqb_neq in H. now rewrite H.
Qed.

Lemma sameValueZero_refl x : sameValueZero x x = true.
Proof. destruct x; simpl; auto using Z.eqb_refl. Qed.

Lemma arrayIncludes_map_In (f : jsstring -> number) x xs :
  In x xs -> arrayIncludes (map f xs) (f x) = true.
Proof.
  intros H. unfold arrayIncludes. apply existsb_exists.
  exists (f x). split; [now apply in_map | apply sameValueZero_refl].
Qed.

(** [parseInt] of a run of digits, whatever follows it. *)
Lemma parseInt10_digits d rest :
  digits d -> match rest with [] => True | c :: _ => isDigit c = false end ->
  parseInt10 (d ++ rest) =
  match roundDouble (digitsValue d) with
  | Some m => Num (Z.of_N m)
  | None => PosInf
  end.
Proof.
  intros [Hne Hd] Hrest. unfold parseInt10, trimStart.
  destruct d as [|c d]; [congruence|]. clear Hne.
  assert (Hc : isDigit c = true) by now inversion Hd.
  simpl app. simpl dropWhile. rewrite (digit_not_space _ Hc).
  assert (H45 : (c =? 45)%N = false).
  { unfold isDigit in Hc. apply andb_true_iff in Hc. destruct Hc as [Hc _].
    apply N.leb_le in Hc. apply N.eqb_neq. lia. }
  assert (H43 : (c =? 43)%N = false).
  { unfold isDigit in Hc. apply andb_true_iff in Hc. destruct Hc as [Hc _].
    apply N.leb_le in Hc. apply N.eqb_neq. lia. }
  rewrite H45, H43.
  change (c :: d ++ rest) with ((c :: d) ++ rest).
  rewrite takeWhile_all by assumption. reflexivity.
Qed.

Lemma parseInt10_digits_only d :
  digits d ->
  parseInt10 d =
  match roundDouble (digitsValue d) with
  | Some m => Num (Z.of_N m)
  | None => PosInf
  end.
Proof.
  intros H. rewrite <- (app_nil_r d) at 1. now apply parseInt10_digits.
Qed.

(** Below 2^53 the number read is the value of the digits. *)
Lemma parseInt10_exact d :
  digits d -> (digitsValue d < 2 ^ 53)%N ->
  parseInt10 d = Num (Z.of_N (digitsValue d)).
Proof.
  intros H Hlt. rewrite parseInt10_digits_only by exact H.
  unfold roundDouble. apply N.ltb_lt in Hlt. now rewrite Hlt.
Qed.

Lemma parseInt10_digits_not_NaN d : digits d -> parseInt10 d <> NaN.
Proof.
  intros H. rewrite parseInt10_digits_only by exact H.
  destruct (roundDouble (digitsValue d)); discriminate.
Qed.

End JsFacts.

(** ** Facts on the matcher

    Two directions.  When the text is laid out as the pattern expects
    and every [+] is followed by a character outside its class, the
    greedy choice succeeds and the captures are the runs themselves
    ([matchHere_Plus], [matchHere_Group]).  Conversely a successful
    match decomposes the text along the pattern ([Matches],
    [regexMatch_sound]). *)

Module RegexFacts.
Import Js Regex Spec JsFacts.

Lemma stripPrefix_app l s : stripPrefix l (l ++ s) = Some s.
Proof.
  induction l as [|c l IH]; simpl; [reflexivity|]. now rewrite N.eqb_refl.
Qed.

Lemma stripPrefix_sound l : forall s s', stripPrefix l s = Some s' -> s = l ++ s'.
Proof.
  induction l as [|c l IH]; intros s s' H; simpl in *.
  - congruence.
  - destruct s as [|x s]; [discriminate|].
    destruct (N.eqb_spec x c) as [->|_]; [|discriminate].
    f_equal. now apply IH.
Qed.

Lemma runLength_all p a b :
  all p a -> match b with [] => True | c :: _ => p c = false end ->
  runLength p (a ++ b) = List.length a.
Proof.
  intros Ha Hb. induction Ha as [|c a Hc _ IH]; simpl.
  - destruct b; simpl; [reflexivity | now rewrite Hb].
  - cbv beta in Hc. now rewrite Hc, IH.
Qed.

Lemma runLength_firstn p : forall s j,
  (j <= runLength p s)%nat -> all p (firstn j s) /\ List.length (firstn j s) = j.
Proof.
  induction s as [|c s IH]; intros j Hj; simpl in *.
  - assert (j = 0%nat) by lia. subst. simpl. split; [constructor | reflexivity].
  - destruct j as [|j]; simpl; [split; [constructor | reflexivity]|].
    destruct (p c) eqn:Hc; [|lia].
    destruct (IH j) as [Ha Hl]; [lia|].
    split; [constructor; assumption | now rewrite Hl].
Qed.

Lemma backtrack_first (A : Type) k (f : nat -> option A) x :
  f (S k) = Some x -> backtrack (S k) f = Some x.
Proof. intros H. simpl. now rewrite H. Qed.

Lemma backtrack_sound (A : Type) (f : nat -> option A) x : forall k,
  backtrack k f = Some x -> exists j, (1 <= j <= k)%nat /\ f j = Some x.
Proof.
  induction k as [|k IH]; simpl; intros H; [discriminate|].
  destruct (f (S k)) eqn:E.
  - exists (S k). split; [lia | congruence].
  - destruct (IH H) as [j [Hj Hf]]. exists j. split; [lia | exact Hf].
Qed.

Lemma matchHere_Chars l r s :
  matchHere (Chars l :: r) (l ++ s) = matchHere r s.
Proof. simpl. now rewrite stripPrefix_app. Qed.

Lemma skipn_length_app (w s : jsstring) : skipn (List.length w) (w ++ s) = s.
Proof. induction w; simpl; auto. Qed.

Lemma firstn_length_app (w s : jsstring) : firstn (List.length w) (w ++ s) = w.
Proof. induction w; simpl; [reflexivity | now f_equal]. Qed.

(** A greedy [c+] in front of a run [w] of the class that ends where the
    class ends. *)
Lemma backtrack_length (A : Type) (w : jsstring) (f : nat -> option A) x :
  w <> [] -> f (List.length w) = Some x -> backtrack (List.length w) f = Some x.
Proof.
  intros Hne H. destruct w as [|c w]; [congruence|]. now apply backtrack_first.
Qed.

Lemma matchHere_Plus c r w s caps :
  w <> [] -> all (cclass_mem c) w -> stops c s ->
  matchHere r s = Some caps ->
  matchHere (Plus c :: r) (w ++ s) = Some caps.
Proof.
  intros Hne Hw Hs Hr.
  change (matchHere (Plus c :: r) (w ++ s))
    with (backtrack (runLength (cclass_mem c) (w ++ s))
                    (fun k => matchHere r (skipn k (w ++ s)))).
  rewrite (runLength_all (cclass_mem c) w s Hw Hs).
  apply backtrack_length; [exact Hne|].
  now rewrite skipn_length_app.
Qed.

Lemma matchHere_Group c r w s caps :
  w <> [] -> all (cclass_mem c) w -> stops c s ->
  matchHere r s = Some caps ->
  matchHere (Group c :: r) (w ++ s) = Some (w :: caps).
Proof.
  intros Hne Hw Hs Hr.
  change (matchHere (Group c :: r) (w ++ s))
    with (backtrack (runLength (cclass_mem c) (w ++ s))
                    (fun k => option_map (cons (firstn k (w ++ s)))
                                         (matchHere r (skipn k (w ++ s))))).
  rewrite (runLength_all (cclass_mem c) w s Hw Hs).
  apply backtrack_length; [exact Hne|].
  now rewrite skipn_length_app, firstn_length_app, Hr.
Qed.

Lemma regexMatch_here r s caps :
  matchHere r s = Some caps -> regexMatch r s = Some caps.
Proof. intros H. destruct s; simpl; now rewrite H. Qed.

Lemma run_prefix c s j :
  (1 <= j <= runLength (cclass_mem c) s)%nat ->
  firstn j s <> [] /\ all (cclass_mem c) (firstn j s).
Proof.
  intros [H1 H2]. destruct (runLength_firstn (cclass_mem c) s j H2) as [Ha Hl].
  split; [|exact Ha]. intros E. rewrite E in Hl. simpl in Hl. lia.
Qed.

Lemma matchHere_sound r : forall s caps,
  matchHere r s = Some caps ->
  exists m rest, s = m ++ rest /\ Matches r m caps.
Proof.
  induction r as [|a r IH]; intros s caps H.
  - simpl in H. inversion H; subst. exists [], s. split; [reflexivity | constructor].
  - destruct a as [l|c|c]; simpl in H.
    + destruct (stripPrefix l s) as [s'|] eqn:E; [|discriminate].
      apply stripPrefix_sound in E. subst s.
      destruct (IH _ _ H) as [m [rest [-> Hm]]].
      exists (l ++ m), rest. split; [now rewrite app_assoc | now constructor].
    + apply backtrack_sound in H. destruct H as [j [Hj H]].
      destruct (IH _ _ H) as [m [rest [Hs Hm]]].
      destruct (run_prefix c s j Hj) as [Hne Hall].
      exists (firstn j s ++ m), rest. split.
      * rewrite <- app_assoc, <- Hs. symmetry. apply firstn_skipn.
      * now constructor.
    + apply backtrack_sound in H. destruct H as [j [Hj H]].
      destruct (matchHere r (skipn j s)) as [caps'|] eqn:E; [|discriminate].
      simpl in H. inversion H; subst caps. clear H.
      destruct (IH _ _ E) as [m [rest [Hs Hm]]].
      destruct (run_prefix c s j Hj) as [Hne Hall].
      exists (firstn j s ++ m), rest. split.
      * rewrite <- app_assoc, <- Hs. symmetry. apply firstn_skipn.
      * now constructor.
Qed.

Lemma regexMatch_sound r : forall s caps,
  regexMatch r s = Some caps ->
  exists before m rest, s = before ++ m ++ rest /\ Matches r m caps.
Proof.
  induction s as [|x s IH]; intros caps H; simpl in H.
  - destruct (matchHere r []) eqn:E; [|discriminate]. inversion H; subst.
    destruct (matchHere_sound _ _ _ E) as [m [rest [Hs Hm]]].
    exists [], m, rest. now split.
  - destruct (matchHere r (x :: s)) eqn:E.
    + inversion H; subst.
      destruct (matchHere_sound _ _ _ E) as [m [rest [Hs Hm]]].
      exists [], m, rest. now split.
    + destruct (IH _ H) as [before [m [rest [Hs Hm]]]].
      exists (x :: before), m, rest. split; [simpl; now f_equal | exact Hm].
Qed.

(** What a match of [/a=rtpmap:(\d+)\s+([\w\-]+)/] says of the line. *)
Lemma rtpmap_match_inv line caps :
  regexMatch re_rtpmap line = Some caps ->
  exists before d w codec rest,
    line = before ++ js "a=rtpmap:" ++ d ++ w ++ codec ++ rest
    /\ caps = [d; codec]
    /\ digits d
    /\ w <> [] /\ all isSpace w
    /\ codec <> [] /\ all (cclass_mem WordDash) codec.
Proof.
  intros H. apply regexMatch_sound in H.
  destruct H as [before [m [rest [Hs Hm]]]].
  unfold re_rtpmap in Hm.
  inversion Hm as [|l r m1 caps1 Hm1| |]; subst; clear Hm.
  inversion Hm1 as [| | |c r d m2 caps2 Hd1 Hd2 Hm2]; subst; clear Hm1.
  inversion Hm2 as [| |c r w m3 caps3 Hw1 Hw2 Hm3|]; subst; clear Hm2.
  inversion Hm3 as [| | |c r codec m4 caps4 Hc1 Hc2 Hm4]; subst; clear Hm3.
  inversion Hm4; subst; clear Hm4.
  exists before, d, w, codec, rest. rewrite app_nil_r.
  repeat split; try assumption.
  now rewrite <- !app_assoc.
Qed.

End RegexFacts.

(** ** Facts on the SDP parser *)

Module SdpFacts.
Import Js Regex Config Sdp Spec JsFacts RegexFacts.

Lemma stops_head c w s :
  w <> [] -> Forall (fun x => cclass_mem c x = false) w -> stops c (w ++ s).
Proof.
  intros Hne H. destruct w as [|x w]; [congruence|]. simpl. now inversion H.
Qed.

Lemma digits_not_Space d : all isDigit d -> Forall (fun x => cclass_mem Space x = false) d.
Proof.
  intros H. eapply Forall_impl; [|exact H]. intros c Hc. now apply digit_not_space.
Qed.

Lemma spaces_not_Digit w : all isSpace w -> Forall (fun x => cclass_mem Digit x = false) w.
Proof.
  intros H. eapply Forall_impl; [|exact H]. intros c Hc. now apply space_not_digit.
Qed.

Lemma spaces_not_NonSpace w : all isSpace w -> Forall (fun x => cclass_mem NonSpace x = false) w.
Proof.
  intros H. eapply Forall_impl; [|exact H]. intros c Hc. simpl. now rewrite Hc.
Qed.

Lemma nonspaces_not_Space w : none isSpace w -> Forall (fun x => cclass_mem Space x = false) w.
Proof. intros H. exact H. Qed.

Lemma nonspaces_NonSpace w : none isSpace w -> all (cclass_mem NonSpace) w.
Proof.
  intros H. eapply Forall_impl; [|exact H]. intros c Hc. simpl. now rewrite Hc.
Qed.

Lemma wordDash_not_space x : cclass_mem WordDash x = true -> isSpace x = false.
Proof.
  intros Hx. destruct (isSpace x) eqn:E; [exfalso | reflexivity].
  unfold cclass_mem, isWord, isDigit in Hx.
  unfold isSpace, isWhiteSpace, isLineTerminator in E.
  rewrite ?orb_true_iff, ?andb_true_iff, ?N.eqb_eq, ?N.leb_le in Hx.
  rewrite ?orb_true_iff, ?andb_true_iff, ?N.eqb_eq, ?N.leb_le in E.
  lia.
Qed.

(** The shape the two [m=] patterns accept at the start of a line. *)
Lemma m_line_match kind ws1 d ws2 proto ws3 pts :
  ws1 <> [] -> all isSpace ws1 -> digits d ->
  ws2 <> [] -> all isSpace ws2 ->
  proto <> [] -> none isSpace proto ->
  ws3 <> [] -> all isSpace ws3 ->
  pts <> [] -> all (cclass_mem Dot) pts -> stops Space pts ->
  regexMatch
    [Chars kind; Plus Space; Group Digit; Plus Space;
     Chars (js "RTP/"); Plus NonSpace; Plus Space; Group Dot]
    (kind ++ ws1 ++ d ++ ws2 ++ js "RTP/" ++ proto ++ ws3 ++ pts)
  = Some [d; pts].
Proof.
  intros H1 A1 [Hd Ad] H2 A2 Hp Ap H3 A3 Hpts Apts Spts.
  apply regexMatch_here. rewrite matchHere_Chars.
  apply matchHere_Plus; [assumption | assumption
                        | apply stops_head; [assumption | now apply digits_not_Space] |].
  apply matchHere_Group; [assumption | assumption
                         | apply stops_head; [assumption | now apply spaces_not_Digit] |].
  apply matchHere_Plus; [assumption | assumption | reflexivity |].
  rewrite matchHere_Chars.
  apply matchHere_Plus; [assumption | now apply nonspaces_NonSpace
                        | apply stops_head; [assumption | now apply spaces_not_NonSpace] |].
  apply matchHere_Plus; [assumption | assumption | assumption |].
  rewrite <- (app_nil_r pts) at 1.
  apply matchHere_Group; [assumption | assumption | exact I | reflexivity].
Qed.

(** The shape [/c=IN IP4\s+(\S+)/] accepts at the start of a line. *)
Lemma c_line_match ws addr rest :
  ws <> [] -> all isSpace ws -> addr <> [] -> none isSpace addr ->
  stops NonSpace rest ->
  regexMatch re_c_in_ip4 (js "c=IN IP4" ++ ws ++ addr ++ rest) = Some [addr].
Proof.
  intros H1 A1 H2 A2 Hr. apply regexMatch_here. unfold re_c_in_ip4.
  rewrite matchHere_Chars.
  apply matchHere_Plus; [assumption | assumption
                        | apply stops_head; [assumption | exact A2] |].
  apply matchHere_Group; [assumption | now apply nonspaces_NonSpace | assumption
                         | reflexivity].
Qed.

(** The shape [/a=rtpmap:(\d+)\s+([\w\-]+)/] accepts at the start of a
    line. *)
Lemma rtpmap_line_match d ws codec rest :
  digits d -> ws <> [] -> all isSpace ws ->
  codec <> [] -> all (cclass_mem WordDash) codec -> stops WordDash rest ->
  regexMatch re_rtpmap (js "a=rtpmap:" ++ d ++ ws ++ codec ++ rest)
  = Some [d; codec].
Proof.
  intros [Hd Ad] H1 A1 Hc Ac Hr. apply regexMatch_here. unfold re_rtpmap.
  rewrite matchHere_Chars.
  apply matchHere_Group; [assumption | assumption
                         | apply stops_head; [assumption | now apply spaces_not_Digit] |].
  apply matchHere_Plus; [assumption | assumption | | ].
  - apply stops_head; [assumption|].
    eapply Forall_impl; [|exact Ac]. intros x Hx. now apply wordDash_not_space.
  - apply matchHere_Group; [assumption | assumption | assumption | reflexivity].
Qed.

(** A step of the scan either keeps what was found or finds the same
    payload type whatever was found before. *)
Lemma rtpmapStep_None codec pts line :
  rtpmapStep codec pts None line = None ->
  forall found, rtpmapStep codec pts found line = found.
Proof.
  unfold rtpmapStep. intros H found.
  destruct (startsWith line (js "a=rtpmap:")); [|reflexivity].
  destruct (regexMatch re_rtpmap line) as [[|a [|b [|c l]]]|]; try reflexivity.
  destruct (includes (toUpperCase b) codec && arrayIncludes pts (parseInt10 a));
    [discriminate | reflexivity].
Qed.

Lemma findPayloadType_None codec pts lines :
  Forall (fun l => rtpmapStep codec pts None l = None) lines ->
  forall found, fold_left (rtpmapStep codec pts) lines found = found.
Proof.
  induction 1 as [|l lines Hl _ IH]; intros found; simpl; [reflexivity|].
  rewrite (rtpmapStep_None _ _ _ Hl). apply IH.
Qed.

(** The scan returns the payload type of the last line it takes. *)
Lemma findPayloadType_last codec pts before line after pt :
  (forall found, rtpmapStep codec pts found line = Some pt) ->
  Forall (fun l => rtpmapStep codec pts None l = None) after ->
  findPayloadType codec pts (before ++ line :: after) = Some pt.
Proof.
  intros Hline Hafter. unfold findPayloadType.
  rewrite fold_left_app. simpl. rewrite Hline.
  now apply findPayloadType_None.
Qed.

End SdpFacts.

(** ** The audio endpoint of a peer offer (C1) *)

Module AudioOffer.
Import Js Regex Config Sdp Spec Samples JsFacts RegexFacts SdpFacts.

Ltac solve_digits :=
  split; [discriminate | repeat constructor].

Lemma digits_no_SP d : digits d -> ~ In SP d.
Proof.
  intros [_ H] Hin. unfold all in H. rewrite Forall_forall in H.
  specialize (H _ Hin). discriminate H.
Qed.

Lemma digit_Dot c : isDigit c = true -> cclass_mem Dot c = true.
Proof. intros H. simpl. now rewrite (digit_not_line_terminator _ H). Qed.

(** A list of payload types as the [m=] line carries it: digits and
    single spaces, starting with a digit. *)
Lemma join_digits pts :
  pts <> [] -> Forall digits pts ->
  join [SP] pts <> [] /\ all (cclass_mem Dot) (join [SP] pts)
  /\ stops Space (join [SP] pts).
Proof.
  intros Hne H. induction H as [|p rest [Hp Ap] Hrest IH]; [congruence|].
  assert (Apd : all (cclass_mem Dot) p).
  { eapply Forall_impl; [|exact Ap]. intros c Hc. now apply digit_Dot. }
  destruct rest as [|q rest].
  - simpl. repeat split; try assumption.
    destruct p as [|c p]; [congruence|]. simpl.
    inversion Ap; subst. now apply digit_not_space.
  - destruct IH as [IH1 [IH2 IH3]]; [discriminate|].
    change (join [SP] (p :: q :: rest)) with (p ++ SP :: join [SP] (q :: rest)).
    repeat split.
    + destruct p; [congruence | discriminate].
    + apply Forall_app. split; [assumption|]. constructor; [reflexivity | assumption].
    + apply stops_head; [assumption | now apply digits_not_Space].
Qed.

(** The line ['a=rtpmap:<pt> OPUS/...'] is taken by the scan for OPUS
    when [<pt>] is among the payload types. *)
Lemma rtpmapStep_opus pts ptText rest found :
  digits ptText -> In ptText pts ->
  rtpmapStep (js "OPUS") (map parseInt10 pts) found
             (js "a=rtpmap:" ++ ptText ++ js " OPUS/" ++ rest)
  = Some (parseInt10 ptText).
Proof.
  intros Hd Hin. unfold rtpmapStep. rewrite startsWith_app.
  change (js "a=rtpmap:" ++ ptText ++ js " OPUS/" ++ rest)
    with (js "a=rtpmap:" ++ ptText ++ [SP] ++ js "OPUS" ++ (47%N :: rest)).
  rewrite rtpmap_line_match;
    [| assumption | discriminate | repeat constructor | discriminate
     | repeat constructor | reflexivity].
  change (includes (toUpperCase (js "OPUS")) (js "OPUS")) with true.
  now rewrite arrayIncludes_map_In.
Qed.

Lemma truthy_parsed d :
  digits d -> parseInt10 d <> Num 0 -> truthyNumber (parseInt10 d) = true.
Proof.
  intros Hd Hz. rewrite parseInt10_digits_only in * by exact Hd.
  destruct (roundDouble (digitsValue d)) as [m|]; [|reflexivity].
  simpl. destruct (Z.eqb_spec (Z.of_N m) 0) as [E|_]; [|reflexivity].
  rewrite E in Hz. congruence.
Qed.

Example two_opus_offer_parsed :
  _parseRemoteSdp two_opus_offer =
  Some {| audio := Some {| destination := js "10.0.0.5";
                           port := Num 5004; payloadType := Num 97 |};
          video := None |}.
Proof. vm_compute. reflexivity. Qed.

(** An offer whose OPUS payload type is 0: the parser leaves audio
    out. *)
Example zero_payload_type_offer_parsed :
  _parseRemoteSdp (join CRLF [ js "m=audio 5004 RTP/AVP 0";
                               js "a=rtpmap:0 OPUS/48000/2" ] ++ CRLF) = None.
Proof. vm_compute. reflexivity. Qed.

(** An offer with two [m=audio] lines: the parser reads the first. *)
Example two_audio_lines_offer_parsed :
  _parseRemoteSdp (join CRLF [ js "m=audio 5004 RTP/AVP 0";
                               js "m=audio 5008 RTP/AVP 96";
                               js "a=rtpmap:96 OPUS/48000/2" ] ++ CRLF) = None.
Proof. vm_compute. reflexivity. Qed.

(** C1, as stated, fails: with two OPUS lines among the advertised
    payload types the parser returns the payload type of the last one
    (97), not that of the first (96). *)
Lemma audio_offer_claim_fails :
  ~ audio_offer_claim two_opus_offer (js "5004") (js "96") (js "48000/2")
      [js "96"; js "97"].
Proof.
  intros H. destruct H as [offer [a [H1 [H2 [H3 _]]]]].
  - solve_digits.
  - solve_digits.
  - repeat constructor; discriminate.
  - now left.
  - vm_compute. tauto.
  - vm_compute. tauto.
  - rewrite two_opus_offer_parsed in H1. inversion H1; subst offer.
    simpl in H2. inversion H2; subst a. vm_compute in H3. discriminate H3.
Qed.

(** C1 (amended): when the first line that starts with [m=audio] is
    ['m=audio <port> RTP/AVP <pts>'], the offer has a line
    ['a=rtpmap:<pt> OPUS/...'] with [<pt>] among [<pts>], no later line
    is taken by the scan for OPUS, and [<pt>] is not zero, the parser
    returns an audio endpoint with that payload type and that port. *)
Theorem audio_offer_parsed
  (sdp portText ptText rest : jsstring) (pts before after : list jsstring) :
  digits portText -> digits ptText -> Forall digits pts -> In ptText pts ->
  find (fun line => startsWith line (js "m=audio")) (sdpLines sdp)
    = Some (js "m=audio " ++ portText ++ js " RTP/AVP " ++ join [SP] pts) ->
  sdpLines sdp
    = before ++ (js "a=rtpmap:" ++ ptText ++ js " OPUS/" ++ rest) :: after ->
  Forall (fun line =>
            rtpmapStep (js "OPUS") (map parseInt10 pts) None line = None) after ->
  parseInt10 ptText <> Num 0 ->
  exists offer a,
    _parseRemoteSdp sdp = Some offer /\ offer.(audio) = Some a
    /\ a.(payloadType) = parseInt10 ptText
    /\ a.(port) = parseInt10 portText.
Proof.
  intros Hport Hpt Hpts Hin Hfind Hlines Hafter Hnz.
  assert (Hne : pts <> []) by (intros ->; contradiction).
  destruct (join_digits pts Hne Hpts) as [J1 [J2 J3]].
  assert (Haudio : parseAudio (sdpLines sdp) =
                   Some {| destination := audioDestination (sdpLines sdp);
                           port := parseInt10 portText;
                           payloadType := parseInt10 ptText |}).
  { unfold parseAudio, mediaLine. rewrite Hfind.
    change (js "m=audio " ++ portText ++ js " RTP/AVP " ++ join [SP] pts)
      with (js "m=audio" ++ [SP] ++ portText ++ [SP] ++ js "RTP/" ++ js "AVP"
              ++ [SP] ++ join [SP] pts).
    unfold re_m_audio.
    rewrite m_line_match;
      [| discriminate | repeat constructor | assumption
       | discriminate | repeat constructor
       | discriminate | repeat constructor
       | discriminate | repeat constructor
       | assumption | assumption | assumption].
    rewrite split_join;
      [| assumption
       | eapply Forall_impl; [|exact Hpts]; intros d Hd; now apply digits_no_SP].
    rewrite Hlines.
    rewrite (findPayloadType_last (js "OPUS") (map parseInt10 pts) before _ after
               (parseInt10 ptText));
      [| intros found; now apply rtpmapStep_opus | assumption].
    now rewrite truthy_parsed. }
  destruct sdp as [|c sdp]; [discriminate Hfind|].
  unfold _parseRemoteSdp. simpl truthyString. cbv iota zeta.
  rewrite Haudio.
  eexists. eexists. split; [reflexivity|]. simpl. auto.
Qed.

(** The theorem at an offer with audio and video. *)
Lemma audio_offer_parsed_witness :
  exists offer a,
    _parseRemoteSdp
      (join CRLF [ js "v=0";
                   js "m=audio 5004 RTP/AVP 0 96";
                   js "a=rtpmap:96 OPUS/48000/2";
                   js "m=video 5006 RTP/AVP 99";
                   js "a=rtpmap:99 H264/90000" ] ++ CRLF) = Some offer
    /\ offer.(audio) = Some a
    /\ a.(payloadType) = parseInt10 (js "96")
    /\ a.(port) = parseInt10 (js "5004").
Proof.
  apply (audio_offer_parsed _ (js "5004") (js "96") (js "48000/2")
           [js "0"; js "96"]
           [js "v=0"; js "m=audio 5004 RTP/AVP 0 96"]
           [js "m=video 5006 RTP/AVP 99"; js "a=rtpmap:99 H264/90000"; []]).
  - solve_digits.
  - solve_digits.
  - repeat constructor; discriminate.
  - simpl; tauto.
  - vm_compute; reflexivity.
  - vm_compute; reflexivity.
  - repeat constructor.
  - vm_compute; discriminate.
Defined.

End AudioOffer.

(** ** Building an offer and parsing it back (C7) *)

Module RoundTrip.
Import Js Regex Config Sdp Spec Samples JsFacts RegexFacts SdpFacts.

Lemma noLineFeed_In s : noLineFeed s = true -> ~ In LF s.
Proof.
  unfold noLineFeed. rewrite forallb_forall. intros H Hin.
  specialize (H _ Hin). now rewrite N.eqb_refl in H.
Qed.

Lemma wellFormedAddress_spec a :
  wellFormedAddress a = true -> a <> [] /\ none isSpace a.
Proof.
  unfold wellFormedAddress. intros H. apply andb_true_iff in H.
  destruct H as [H1 H2]. split.
  - intros ->. discriminate H1.
  - unfold none. rewrite Forall_forall. rewrite forallb_forall in H2.
    intros c Hc. specialize (H2 _ Hc). now apply negb_true_iff in H2.
Qed.

Lemma nonspaces_no_LF a : none isSpace a -> ~ In LF a.
Proof.
  unfold none. rewrite Forall_forall. intros H Hin.
  specialize (H _ Hin). discriminate H.
Qed.

Lemma trim_c_line ip :
  ip <> [] -> none isSpace ip ->
  trim ((js "c=IN IP4 " ++ ip) ++ [CR]) = js "c=IN IP4 " ++ ip.
Proof.
  intros Hne Hip. destruct (exists_last Hne) as [ip0 [d ->]].
  apply Forall_app in Hip. destruct Hip as [_ Hd]. inversion Hd as [|? ? Hd' _]; subst.
  transitivity (trim (99%N :: (js "=IN IP4 " ++ ip0) ++ d :: [CR])).
  - f_equal. simpl. now rewrite <- !app_assoc.
  - rewrite trim_keep; [| reflexivity | assumption | repeat constructor].
    simpl. now rewrite <- ?app_assoc.
Qed.

Ltac no_lf :=
  let H := fresh in
  intros H;
  repeat match type of H with
         | In _ (_ ++ _) => apply in_app_or in H; destruct H as [H|H]
         end;
  first [ contradiction
        | revert H; apply noLineFeed_In; reflexivity ].

Ltac next_line tac := apply (f_equal2 (@cons jsstring)); [tac|].
Ltac literal_line := next_line ltac:(vm_compute; reflexivity).

(** The lines the parser sees in a built offer. *)
Lemma built_lines env sessionId :
  wellFormedAddress env.(LOCAL_IP) = true ->
  noLineFeed sessionId = true ->
  noLineFeed env.(LOCAL_VIDEO_PORT) = true ->
  exists o v,
    sdpLines (_buildLocalSdp env sessionId) =
    [ js "v=0";
      111%N :: o;
      js "s=-";
      js "c=IN IP4 " ++ env.(LOCAL_IP);
      js "t=0 0";
      js "m=audio 8000 RTP/AVP 96";
      js "a=rtpmap:96 OPUS/48000/2";
      js "a=fmtp:96 useinbandfec=1;minptime=10";
      js "a=ptime:20";
      js "a=maxptime:150";
      js "a=sendrecv";
      109%N :: v;
      js "a=rtpmap:99 H264/90000";
      js "a=fmtp:99 packetization-mode=1;profile-level-id=42e01f";
      js "a=sendonly";
      [] ].
Proof.
  intros Hip Hsid Hvp.
  apply wellFormedAddress_spec in Hip. destruct Hip as [Hne Hip].
  pose proof (nonspaces_no_LF _ Hip) as Hiplf.
  apply noLineFeed_In in Hsid. apply noLineFeed_In in Hvp.
  destruct (trim_head 111%N
              ((js "=- " ++ sessionId ++ js " " ++ sessionId ++ js " IN IP4 "
                  ++ env.(LOCAL_IP)) ++ [CR]) eq_refl) as [o Ho].
  destruct (trim_head 109%N
              ((js "=video " ++ env.(LOCAL_VIDEO_PORT) ++ js " RTP/AVP 99") ++ [CR])
              eq_refl) as [v Hv].
  exists o, v.
  unfold sdpLines, _buildLocalSdp.
  rewrite split_join_crlf; [| discriminate | repeat constructor; no_lf].
  rewrite map_app. cbn [map].
  literal_line. next_line ltac:(exact Ho).
  literal_line. next_line ltac:(now apply trim_c_line).
  do 7 literal_line. next_line ltac:(exact Hv).
  do 4 literal_line. reflexivity.
Qed.

Lemma rtpmapStep_skip codec pts found line :
  startsWith line (js "a=rtpmap:") = false ->
  rtpmapStep codec pts found line = found.
Proof. intros H. unfold rtpmapStep. now rewrite H. Qed.

Lemma find_skip (f : jsstring -> bool) x l : f x = false -> find f (x :: l) = find f l.
Proof. intros H. simpl. now rewrite H. Qed.

Lemma find_hit (f : jsstring -> bool) x l : f x = true -> find f (x :: l) = Some x.
Proof. intros H. simpl. now rewrite H. Qed.

Ltac scan_step :=
  match goal with
  | |- context [fold_left ?f (?x :: ?l) ?a] =>
      change (fold_left f (x :: l) a) with (fold_left f l (f a x))
  end.

(** C7: for every session id, the offer [_buildLocalSdp] builds is
    parsed by [_parseRemoteSdp] into an offer whose audio endpoint has
    payload type 96, port 8000 and the configured local address, the
    values the builder wrote.  The configured address is a well-formed
    one, and the session id and the video port are texts of numbers. *)
Theorem built_offer_parsed (env : Env) (sessionId : jsstring) :
  wellFormedAddress env.(LOCAL_IP) = true ->
  noLineFeed sessionId = true ->
  noLineFeed env.(LOCAL_VIDEO_PORT) = true ->
  exists offer a,
    _parseRemoteSdp (_buildLocalSdp env sessionId) = Some offer
    /\ offer.(audio) = Some a
    /\ a.(payloadType) = Num 96
    /\ a.(port) = Num 8000
    /\ a.(destination) = env.(LOCAL_IP).
Proof.
  intros Hip Hsid Hvp.
  destruct (built_lines env sessionId Hip Hsid Hvp) as [o [v Hlines]].
  apply wellFormedAddress_spec in Hip. destruct Hip as [Hne Hip].
  assert (Haudio : parseAudio (sdpLines (_buildLocalSdp env sessionId)) =
                   Some {| destination := env.(LOCAL_IP);
                           port := Num 8000; payloadType := Num 96 |}).
  { rewrite Hlines. unfold parseAudio.
    assert (Hm : forall l, mediaLine (js "m=audio") re_m_audio
                   (js "v=0" :: (111%N :: o) :: js "s=-"
                      :: (js "c=IN IP4 " ++ env.(LOCAL_IP)) :: js "t=0 0"
                      :: js "m=audio 8000 RTP/AVP 96" :: l)
                 = Some (Num 8000, [Num 96])).
    { intros l. unfold mediaLine.
      rewrite !find_skip by reflexivity. rewrite find_hit by reflexivity.
      vm_compute. reflexivity. }
    rewrite Hm. cbv iota beta zeta.
    assert (Hd : forall l, audioDestination
                   (js "v=0" :: (111%N :: o) :: js "s=-"
                      :: (js "c=IN IP4 " ++ env.(LOCAL_IP)) :: l)
                 = env.(LOCAL_IP)).
    { intros l. unfold audioDestination.
      rewrite !find_skip by reflexivity. rewrite find_hit by reflexivity.
      replace (js "c=IN IP4 " ++ env.(LOCAL_IP))
        with (js "c=IN IP4" ++ [SP] ++ env.(LOCAL_IP) ++ [])
        by (now rewrite app_nil_r).
      rewrite c_line_match;
        [reflexivity | discriminate | repeat constructor | assumption
         | assumption | exact I]. }
    rewrite Hd.
    assert (Hopus : forall found,
              rtpmapStep (js "OPUS") [Num 96] found (js "a=rtpmap:96 OPUS/48000/2")
              = Some (Num 96)) by (intros; vm_compute; reflexivity).
    assert (Hh264 : forall found,
              rtpmapStep (js "OPUS") [Num 96] found (js "a=rtpmap:99 H264/90000")
              = found) by (intros; vm_compute; reflexivity).
    unfold findPayloadType.
    repeat (scan_step;
            first [ rewrite rtpmapStep_skip by reflexivity
                  | rewrite Hopus | rewrite Hh264 ]).
    reflexivity. }
  assert (Htruthy : truthyString (_buildLocalSdp env sessionId) = true)
    by reflexivity.
  unfold _parseRemoteSdp. rewrite Htruthy. cbv zeta. rewrite Haudio.
  eexists. eexists. split; [reflexivity|]. simpl. auto.
Qed.

(** The theorem at a local address and a time stamp. *)
Lemma built_offer_parsed_witness :
  exists offer a,
    _parseRemoteSdp
      (_buildLocalSdp
         {| SIP_DOMAIN := js "pbx.example.org"; SIP_DEST := js "100";
            SIP_USER := js "doorbell"; LOCAL_IP := js "192.168.1.20";
            LOCAL_SIP_PORT := js "5060"; LOCAL_VIDEO_PORT := js "8002" |}
         (js "1730000000000")) = Some offer
    /\ offer.(audio) = Some a
    /\ a.(payloadType) = Num 96
    /\ a.(port) = Num 8000
    /\ a.(destination) = js "192.168.1.20".
Proof.
  apply (built_offer_parsed
           {| SIP_DOMAIN := js "pbx.example.org"; SIP_DEST := js "100";
              SIP_USER := js "doorbell"; LOCAL_IP := js "192.168.1.20";
              LOCAL_SIP_PORT := js "5060"; LOCAL_VIDEO_PORT := js "8002" |}
           (js "1730000000000")); reflexivity.
Defined.

End RoundTrip.

(** ** Connection addresses and the result of the parser (C8) *)

Module Addresses.
Import Js Regex Config Sdp Spec Samples JsFacts RegexFacts SdpFacts.

Lemma parseAudio_destination lines a :
  parseAudio lines = Some a -> a.(destination) = audioDestination lines.
Proof.
  unfold parseAudio. intros H.
  destruct (mediaLine (js "m=audio") re_m_audio lines) as [[p pts]|]; [|discriminate].
  destruct (findPayloadType (js "OPUS") pts lines) as [pt|]; [|discriminate].
  destruct (truthyNumber pt); [|discriminate].
  inversion H; subst. reflexivity.
Qed.

Lemma parseVideo_destination lines resultAudio v :
  parseVideo lines resultAudio = Some v ->
  v.(destination) = match resultAudio with
                    | Some a => a.(destination)
                    | None => loopback
                    end.
Proof.
  unfold parseVideo. intros H.
  destruct (mediaLine (js "m=video") re_m_video lines) as [[p pts]|]; [|discriminate].
  destruct (findPayloadType (js "H264") pts lines) as [pt|]; [|discriminate].
  destruct (truthyNumber pt); [|discriminate].
  inversion H; subst. reflexivity.
Qed.

Lemma parsed_offer sdp offer :
  _parseRemoteSdp sdp = Some offer ->
  offer.(audio) = parseAudio (sdpLines sdp)
  /\ offer.(video) = parseVideo (sdpLines sdp) offer.(audio)
  /\ (offer.(audio) <> None \/ offer.(video) <> None).
Proof.
  unfold _parseRemoteSdp. intros H.
  destruct (truthyString sdp); [|discriminate]. cbv zeta in H.
  destruct (parseAudio (sdpLines sdp)) as [a|] eqn:Ea.
  - inversion H; subst; simpl. repeat split. left. discriminate.
  - destruct (parseVideo (sdpLines sdp) None) as [v|] eqn:Ev; [|discriminate].
    inversion H; subst; simpl. rewrite Ev. repeat split. right. discriminate.
Qed.

Example video_only_offer_parsed :
  _parseRemoteSdp video_only_offer =
  Some {| audio := None;
          video := Some {| destination := js "127.0.0.1";
                           port := Num 5006; payloadType := Num 99 |} |}.
Proof. vm_compute. reflexivity. Qed.

(** An offer whose connection line is not an IPv4 one: the audio
    endpoint gets the loopback address. *)
Example ip6_offer_parsed :
  _parseRemoteSdp (join CRLF [ js "c=IN IP6 fe80::1";
                               js "m=audio 5004 RTP/AVP 96";
                               js "a=rtpmap:96 opus/48000/2" ] ++ CRLF) =
  Some {| audio := Some {| destination := js "127.0.0.1";
                           port := Num 5004; payloadType := Num 96 |};
          video := None |}.
Proof. vm_compute. reflexivity. Qed.

(** The video endpoint has the address of the audio endpoint when the
    audio block resolved. *)
Lemma video_with_audio sdp offer a v :
  _parseRemoteSdp sdp = Some offer ->
  offer.(audio) = Some a -> offer.(video) = Some v ->
  v.(destination) = a.(destination).
Proof.
  intros H Ha Hv. destruct (parsed_offer _ _ H) as [_ [Hpv _]].
  rewrite Hv, Ha in Hpv. symmetry in Hpv.
  now apply parseVideo_destination in Hpv.
Qed.

(** When the audio block did not resolve, the video endpoint has the
    loopback address, whatever connection lines the text has. *)
Lemma video_without_audio sdp offer v :
  _parseRemoteSdp sdp = Some offer ->
  offer.(audio) = None -> offer.(video) = Some v ->
  v.(destination) = loopback.
Proof.
  intros H Ha Hv. destruct (parsed_offer _ _ H) as [_ [Hpv _]].
  rewrite Hv, Ha in Hpv. symmetry in Hpv.
  now apply parseVideo_destination in Hpv.
Qed.

(** The parser returns null only for the empty text and when neither
    block resolved. *)
Lemma null_only_when_neither sdp :
  _parseRemoteSdp sdp = None ->
  sdp = [] \/ (parseAudio (sdpLines sdp) = None
               /\ parseVideo (sdpLines sdp) None = None).
Proof.
  unfold _parseRemoteSdp. intros H.
  destruct sdp as [|c sdp]; [now left | right].
  simpl truthyString in H. cbv iota zeta in H.
  destruct (parseAudio (sdpLines (c :: sdp))) as [a|]; [discriminate|].
  destruct (parseVideo (sdpLines (c :: sdp)) None) as [v|]; [discriminate|].
  now split.
Qed.

(** C8 at its failing input: an offer with the connection line
    [c=IN IP4 10.0.0.5] and an H264 video block, whose audio block does
    not resolve (no audio at all, or PCMU only).  The connection line
    is among the lines and the look-up of the audio block finds its
    address, yet the video endpoint gets the loopback address.  With an
    OPUS audio block next to the same lines, both endpoints get the
    address of the connection line. *)
Theorem video_address_without_audio :
  In (js "c=IN IP4 10.0.0.5") (sdpLines video_only_offer)
  /\ audioDestination (sdpLines video_only_offer) = js "10.0.0.5"
  /\ _parseRemoteSdp video_only_offer
     = Some {| audio := None;
               video := Some {| destination := js "127.0.0.1";
                                port := Num 5006; payloadType := Num 99 |} |}
  /\ In (js "c=IN IP4 10.0.0.5") (sdpLines pcmu_video_offer)
  /\ _parseRemoteSdp pcmu_video_offer
     = Some {| audio := None;
               video := Some {| destination := js "127.0.0.1";
                                port := Num 5006; payloadType := Num 99 |} |}
  /\ _parseRemoteSdp audio_video_offer
     = Some {| audio := Some {| destination := js "10.0.0.5";
                                port := Num 5004; payloadType := Num 96 |};
               video := Some {| destination := js "10.0.0.5";
                                port := Num 5006; payloadType := Num 99 |} |}.
Proof.
  split; [vm_compute; tauto|].
  split; [vm_compute; reflexivity|].
  split; [exact video_only_offer_parsed|].
  split; [vm_compute; tauto|].
  split; vm_compute; reflexivity.
Qed.

End Addresses.

(** ** Inbound INVITE without OPUS (C2, C10) *)

Module InboundInvite.
Import Js Regex Config Sdp Rtp Sip Spec Samples JsFacts RegexFacts SdpFacts.

Lemma no_opus_step pts line :
  ~ opus_rtpmap_for pts line -> rtpmapStep (js "OPUS") pts None line = None.
Proof.
  intros Hno. unfold rtpmapStep.
  destruct (startsWith line (js "a=rtpmap:")); [|reflexivity].
  destruct (regexMatch re_rtpmap line) as [caps|] eqn:E; [|reflexivity].
  destruct (rtpmap_match_inv _ _ E)
    as [before [d [w [codec [rest [Hl [-> [Hd [Hw [Aw [Hc Ac]]]]]]]]]]].
  destruct (includes (toUpperCase codec) (js "OPUS")
            && arrayIncludes pts (parseInt10 d)) eqn:Ecase; [|reflexivity].
  apply andb_true_iff in Ecase. destruct Ecase as [E1 E2].
  exfalso. apply Hno. exists before, d, w, codec, rest. tauto.
Qed.

Lemma no_opus_no_audio sdp :
  no_opus_offered sdp -> parseAudio (sdpLines sdp) = None.
Proof.
  intros Hno. unfold parseAudio.
  destruct (mediaLine (js "m=audio") re_m_audio (sdpLines sdp))
    as [[p pts]|] eqn:Em; [|reflexivity].
  unfold findPayloadType. rewrite findPayloadType_None; [reflexivity|].
  rewrite Forall_forall. intros line Hin.
  apply no_opus_step. now apply (Hno p pts).
Qed.

Lemma no_opus_parsed sdp offer :
  no_opus_offered sdp -> _parseRemoteSdp sdp = Some offer -> offer.(audio) = None.
Proof.
  intros Hno H. destruct (Addresses.parsed_offer _ _ H) as [Ha _].
  rewrite Ha. now apply no_opus_no_audio.
Qed.

(** The handler on an offer without audio endpoint, when no call is
    being set up. *)
Lemma reject_without_audio {Q : Type} (env : Env) (s : State Q)
  (request : Request) (sessionId : jsstring) :
  s.(initiatingCall) = false ->
  (forall offer, _parseRemoteSdp (offerOf request) = Some offer ->
                 offer.(audio) = None) ->
  _handleInboundInvite env s request sessionId =
  (set_currentCallId (Some request.(rq_call_id)) (set_initiatingCall true s),
   [notAcceptable request]).
Proof.
  intros Hidle Hnone. unfold _handleInboundInvite. rewrite Hidle.
  fold (offerOf request).
  destruct (_parseRemoteSdp (offerOf request)) as [offer|] eqn:E; [|reflexivity].
  now rewrite (Hnone offer eq_refl).
Qed.

Lemma includes_app before sub rest : includes (before ++ sub ++ rest) sub = true.
Proof.
  induction before as [|c before IH]; simpl.
  - pose proof (startsWith_app sub rest) as H.
    destruct (sub ++ rest); cbn [includes]; now rewrite H.
  - rewrite IH. apply orb_true_r.
Qed.

Lemma no_rtpmap_text pts line :
  includes line (js "a=rtpmap:") = false -> ~ opus_rtpmap_for pts line.
Proof.
  intros H [before [d [w [codec [rest [Hl _]]]]]].
  rewrite Hl in H. now rewrite includes_app in H.
Qed.

Lemma pcmu_offer_no_opus : no_opus_offered pcmu_offer.
Proof.
  intros p pts _ line Hin. apply no_rtpmap_text.
  vm_compute in Hin.
  repeat (destruct Hin as [<-|Hin]; [vm_compute; reflexivity|]).
  contradiction.
Qed.

(** C2, as stated, fails: while a call is being set up the handler
    returns at its guard and sends no 488. *)
Lemma invite_claim_fails :
  ~ invite_claim env0 (set_initiatingCall true (new_Sip tt))
      pcmu_invite (js "1730000000000").
Proof.
  intros H. destruct (H pcmu_offer_no_opus) as [_ Hsent].
  vm_compute in Hsent. discriminate Hsent.
Qed.

(** C2 (amended): for every inbound INVITE that arrives while no call is
    being set up ([initiatingCall] unset) and whose offer has no OPUS
    rtpmap among the payload types of its [m=audio] line, parsing yields
    no audio endpoint and the handler sends one 488 response and nothing
    else (no 100, 180 or 200). *)
Theorem invite_without_opus_rejected {Q : Type} (env : Env) (s : State Q)
  (request : Request) (sessionId : jsstring) :
  s.(initiatingCall) = false ->
  no_opus_offered (offerOf request) ->
  (forall offer, _parseRemoteSdp (offerOf request) = Some offer ->
                 offer.(audio) = None)
  /\ snd (_handleInboundInvite env s request sessionId)
     = [notAcceptable request].
Proof.
  intros Hidle Hno.
  assert (Hnone : forall offer, _parseRemoteSdp (offerOf request) = Some offer ->
                                offer.(audio) = None)
    by (intros offer; now apply no_opus_parsed).
  split; [exact Hnone|].
  now rewrite reject_without_audio.
Qed.

(** The theorem at a PCMU-only INVITE received by a fresh object. *)
Lemma invite_without_opus_rejected_witness :
  (forall offer, _parseRemoteSdp pcmu_offer = Some offer -> offer.(audio) = None)
  /\ snd (_handleInboundInvite env0 (new_Sip tt) pcmu_invite (js "1730000000000"))
     = [notAcceptable pcmu_invite].
Proof.
  apply (invite_without_opus_rejected env0 (new_Sip tt) pcmu_invite
           (js "1730000000000")).
  - reflexivity.
  - exact pcmu_offer_no_opus.
Defined.

End InboundInvite.

(** ** The guard after a rejected INVITE (C10) *)

Module Guard.
Import Js Regex Config Sdp Rtp Sip Spec Samples JsFacts InboundInvite.

Ltac split_cases :=
  repeat match goal with
         | |- context [match ?x with _ => _ end] => destruct x eqn:?
         | |- context [if ?x then _ else _] => destruct x eqn:?
         end.

Ltac split_cases_in E :=
  repeat match type of E with
         | context [match ?x with _ => _ end] => destruct x eqn:?
         | context [if ?x then _ else _] => destruct x eqn:?
         end.

Ltac kept := simpl; split; first [assumption | reflexivity].

Section WithSequencer.

Context {Q : Type} (process : processFn Q) (env : Env).

(** No method of the class and no callback clears [initiatingCall], and
    while it is set none stores another call-id. *)
Lemma perform_keeps_guard (s : State Q) (op : operation) :
  s.(initiatingCall) = true ->
  (fst (perform process env s op)).(initiatingCall) = true
  /\ (fst (perform process env s op)).(currentCallId) = s.(currentCallId).
Proof.
  intros H. destruct op as [|c t|c t|sid t c|t c|rtp tone|rtp|request sid|cb response];
    cbn [perform].
  - unfold initialize. split_cases; kept.
  - unfold register. split_cases; kept.
  - kept.
  - unfold initiateCall. rewrite H. kept.
  - unfold cleanup. split_cases; kept.
  - destruct (sendAudioPacket process s rtp tone) as [[s' r] acts] eqn:E.
    unfold sendAudioPacket in E. split_cases_in E; inversion E; subst; kept.
  - destruct (sendVideoPacket s rtp) as [[s' r] acts] eqn:E.
    unfold sendVideoPacket in E. split_cases_in E; inversion E; subst; kept.
  - unfold onRequest, _handleBye, _handleInboundInvite. rewrite H.
    split_cases; kept.
  - unfold invokeCallback, registerResponse, _handleInviteResponse,
      _retryWithDigestAuth.
    split_cases; kept.
Qed.

Lemma run_keeps_guard (ops : list operation) : forall (s : State Q),
  s.(initiatingCall) = true ->
  (fst (run process env s ops)).(initiatingCall) = true
  /\ (fst (run process env s ops)).(currentCallId) = s.(currentCallId).
Proof.
  induction ops as [|op ops IH]; intros s H; simpl; [auto|].
  destruct (perform_keeps_guard s op H) as [H1 H2].
  destruct (perform process env s op) as [s1 acts]. simpl in H1, H2.
  destruct (IH s1 H1) as [H3 H4].
  destruct (run process env s1 ops) as [s2 rest]. simpl in *.
  split; [exact H3 | congruence].
Qed.

Lemma guarded_invite_ignored (s : State Q) request sessionId :
  s.(initiatingCall) = true ->
  _handleInboundInvite env s request sessionId = (s, []).
Proof. intros H. unfold _handleInboundInvite. now rewrite H. Qed.

Lemma guarded_initiateCall_noop (s : State Q) sessionId tag callId :
  s.(initiatingCall) = true ->
  initiateCall env s sessionId tag callId = (s, []).
Proof. intros H. unfold initiateCall. now rewrite H. Qed.

(** C10: an inbound INVITE rejected with 488 leaves [initiatingCall] set
    and the call-id of the rejected call stored; after it, whatever
    sequence of method calls, requests and responses follows, the flag
    stays set and the call-id stays, every inbound INVITE is ignored
    without a response and every [initiateCall] does nothing. *)
Theorem rejected_invite_keeps_guard (s : State Q) (request : Request)
  (sessionId : jsstring) :
  s.(initiatingCall) = false ->
  (forall offer, _parseRemoteSdp (offerOf request) = Some offer ->
                 offer.(audio) = None) ->
  let s1 := fst (_handleInboundInvite env s request sessionId) in
  snd (_handleInboundInvite env s request sessionId) = [notAcceptable request]
  /\ s1.(initiatingCall) = true
  /\ s1.(currentCallId) = Some request.(rq_call_id)
  /\ forall ops : list operation,
       let s2 := fst (run process env s1 ops) in
       s2.(initiatingCall) = true
       /\ s2.(currentCallId) = Some request.(rq_call_id)
       /\ (forall request' sessionId',
             _handleInboundInvite env s2 request' sessionId' = (s2, []))
       /\ (forall sessionId' tag callId,
             initiateCall env s2 sessionId' tag callId = (s2, [])).
Proof.
  intros Hidle Hnone. cbv zeta.
  rewrite (reject_without_audio env s request sessionId Hidle Hnone).
  cbn [fst snd].
  split; [reflexivity|]. split; [reflexivity|]. split; [reflexivity|].
  intros ops.
  destruct (run_keeps_guard ops
              (set_currentCallId (Some request.(rq_call_id))
                                 (set_initiatingCall true s)) eq_refl)
    as [H1 H2].
  split; [exact H1|]. split; [exact H2|]. split.
  - intros request' sessionId'. now apply guarded_invite_ignored.
  - intros sessionId' tag callId. now apply guarded_initiateCall_noop.
Qed.

End WithSequencer.

(** The theorem at a PCMU-only INVITE received by a fresh object. *)
Lemma rejected_invite_keeps_guard_witness :
  let s1 := fst (_handleInboundInvite env0 (new_Sip tt) pcmu_invite
                   (js "1730000000000")) in
  snd (_handleInboundInvite env0 (new_Sip tt) pcmu_invite (js "1730000000000"))
    = [notAcceptable pcmu_invite]
  /\ s1.(initiatingCall) = true
  /\ s1.(currentCallId) = Some pcmu_invite.(rq_call_id)
  /\ forall ops : list operation,
       let s2 := fst (run forwardAll env0 s1 ops) in
       s2.(initiatingCall) = true
       /\ s2.(currentCallId) = Some pcmu_invite.(rq_call_id)
       /\ (forall request' sessionId',
             _handleInboundInvite env0 s2 request' sessionId' = (s2, []))
       /\ (forall sessionId' tag callId,
             initiateCall env0 s2 sessionId' tag callId = (s2, [])).
Proof.
  apply (rejected_invite_keeps_guard forwardAll env0 (new_Sip tt) pcmu_invite
           (js "1730000000000")).
  - reflexivity.
  - intros offer. apply no_opus_parsed. exact pcmu_offer_no_opus.
Defined.

End Guard.

(** ** The digest retry (C3) *)

Module DigestRetry.
Import Js Config Sdp Rtp Sip Spec Samples.

(** The retry carries the CSeq of the request it repeats, plus one. *)
Lemma retry_cseq request response k :
  let '(request', sent) := _retryWithDigestAuth request response k in
  request'.(rq_cseq) = (request.(rq_cseq) + 1)%Z
  /\ sent = [SendRequest request' (Some (CbRetry k))].
Proof. simpl. split; reflexivity. Qed.

(** REGISTER and unregister: the answer to the retry is only logged,
    whatever it is. *)
Lemma register_retry_final {Q : Type} (s : State Q) response :
  invokeCallback s (CbRetry RcNothing) response = (s, []).
Proof. reflexivity. Qed.

Lemma register_challenged {Q : Type} (s : State Q) request response :
  isChallenge response = true ->
  invokeCallback s (CbRegister request) response
  = (s, [SendRequest (bump_cseq (signRequest request response))
                     (Some (CbRetry RcNothing))])
  /\ invokeCallback s (CbUnregister request) response
     = (s, [SendRequest (bump_cseq (signRequest request response))
                        (Some (CbRetry RcNothing))]).
Proof.
  intros H. unfold invokeCallback, registerResponse. now rewrite H.
Qed.

(** INVITE: the answer to the retry goes through
    [_handleInviteResponse] again, and a challenge there is retried
    again. *)
Lemma invite_challenged {Q : Type} (s : State Q) cb request response :
  cb = CbInvite \/ cb = CbRetry RcHandleInviteResponse ->
  s.(inviteRequest) = Some request ->
  isChallenge response = true ->
  invokeCallback s cb response
  = (set_inviteRequest (Some (bump_cseq (signRequest request response))) s,
     [SendRequest (bump_cseq (signRequest request response))
                  (Some (CbRetry RcHandleInviteResponse))]).
Proof.
  intros Hcb Hrq Hch.
  destruct Hcb as [-> | ->]; unfold invokeCallback, _handleInviteResponse;
    rewrite Hrq, Hch; reflexivity.
Qed.

(** C3 at its failing input: an INVITE answered 401 with a challenge,
    whose retry is answered 401 with a challenge again.  The first retry
    has CSeq 2 (the INVITE had 1); the second challenge is retried too,
    with CSeq 3. *)
Theorem invite_challenged_twice :
  let callId := js "Xk29dLmQ7" in
  let '(s1, sent1) :=
    initiateCall env0 (new_Sip tt) (js "1730000000000") (js "Gh7Rw21pZ") callId in
  let '(s2, sent2) :=
    invokeCallback s1 CbInvite (unauthorized callId (js "1f3a") 1) in
  let '(s3, sent3) :=
    invokeCallback s2 (CbRetry RcHandleInviteResponse)
                   (unauthorized callId (js "77c0") 2) in
  requestsSent sent1 = [(INVITE, 1%Z)]
  /\ requestsSent sent2 = [(INVITE, 2%Z)]
  /\ requestsSent sent3 = [(INVITE, 3%Z)].
Proof. vm_compute. repeat split. Qed.

End DigestRetry.

(** ** The packet senders of the SIP leg (C9) *)

Module PacketSenders.
Import Js Config Sdp Rtp Sip Spec Samples Guard.

Section WithSequencer.

Context {Q : Type} (process : processFn Q) (env : Env).

Lemma sendAudioPacket_sends (s : State Q) rtp isTone sock pkt port addr :
  In (UdpSend sock pkt port addr) (snd (sendAudioPacket process s rtp isTone)) ->
  exists a, audioEndpoint s = Some a
    /\ sock = AudioSocket
    /\ pkt = snd (fst (sendAudioPacket process s rtp isTone))
    /\ pkt.(header_payloadType) = a.(payloadType)
    /\ port = a.(Sdp.port) /\ addr = a.(destination).
Proof.
  unfold sendAudioPacket, audioEndpoint.
  destruct (serverRtpInfo s) as [info|]; [|simpl; tauto].
  destruct (audio info) as [a|]; [|simpl; tauto].
  destruct (process (rtpSequencer s) rtp isTone) as [[seq' rtp1] [|]];
    [|simpl; tauto].
  destruct (udp (set_rtpSequencer seq' s)); simpl.
  - intros [H|[]]. inversion H; subst. exists a. repeat split.
  - intros [H|[]]. discriminate H.
Qed.

Lemma sendVideoPacket_sends (s : State Q) rtp sock pkt port addr :
  In (UdpSend sock pkt port addr) (snd (sendVideoPacket s rtp)) ->
  exists v, videoEndpoint s = Some v
    /\ sock = VideoSocket
    /\ pkt = snd (fst (sendVideoPacket s rtp))
    /\ pkt.(header_payloadType) = v.(payloadType)
    /\ port = v.(Sdp.port) /\ addr = v.(destination).
Proof.
  unfold sendVideoPacket, videoEndpoint.
  destruct (serverRtpInfo s) as [info|]; [|simpl; tauto].
  destruct (video info) as [v|]; [|simpl; tauto].
  destruct (udpVideo s); simpl.
  - intros [H|[]]. inversion H; subst. exists v. repeat split.
  - intros [H|[]]. discriminate H.
Qed.

Lemma perform_endpointsNegotiated (s : State Q) (op : operation) :
  endpointsNegotiated s -> endpointsNegotiated (fst (perform process env s op)).
Proof.
  intros H. destruct op as [|c t|c t|sid t c|t c|rtp tone|rtp|request sid|cb response];
    cbn [perform].
  - unfold initialize. split_cases; exact H.
  - unfold register. split_cases; exact H.
  - exact H.
  - unfold initiateCall. split_cases; exact H.
  - unfold cleanup. split_cases; exact H.
  - destruct (sendAudioPacket process s rtp tone) as [[s' r] acts] eqn:E.
    unfold sendAudioPacket in E. split_cases_in E; inversion E; subst; exact H.
  - destruct (sendVideoPacket s rtp) as [[s' r] acts] eqn:E.
    unfold sendVideoPacket in E. split_cases_in E; inversion E; subst; exact H.
  - unfold onRequest, _handleBye, _handleInboundInvite.
    destruct (rq_method request); try exact H.
    + destruct (initiatingCall s); [exact H|].
      destruct (_parseRemoteSdp
                  match rq_content request with Some c => c | None => [] end)
        as [info|] eqn:E; [|exact H].
      destruct (audio info); [|exact H].
      intros info' Hinfo. simpl in Hinfo. inversion Hinfo; subst.
      eexists. exact E.
    + split_cases; exact H.
  - assert (Hr : endpointsNegotiated (fst (_handleInviteResponse s response))).
    { unfold _handleInviteResponse.
      destruct (inviteRequest s); [|exact H].
      destruct (isChallenge response); [exact H|].
      destruct ((100 <=? status response)%Z && (status response <? 200)%Z).
      { destruct (status response =? 180)%Z; exact H. }
      destruct ((200 <=? status response)%Z && (status response <? 300)%Z);
        [|exact H].
      assert (Hs : endpointsNegotiated
                     (set_serverRtpInfo
                        match rs_content response with
                        | Some c => _parseRemoteSdp c
                        | None => None
                        end
                        (set_sipSession (Some response) s))).
      { intros info Hinfo. simpl in Hinfo.
        destruct (rs_content response) as [c|]; [|discriminate].
        eexists. exact Hinfo. }
      destruct (rs_contact response); exact Hs. }
    unfold invokeCallback, registerResponse.
    destruct cb as [rq|rq| |[|]]; try exact Hr; split_cases; exact H.
Qed.

Ltac no_send :=
  let Hs := fresh "Hs" in
  simpl; intros Hs;
  repeat match type of Hs with
         | _ \/ _ => destruct Hs as [Hs|Hs]; [discriminate Hs|]
         end;
  exact (False_ind _ Hs).

(** The only operations that send a datagram are the two senders. *)
Lemma perform_sends (s : State Q) (op : operation) sock pkt port addr :
  In (UdpSend sock pkt port addr) (snd (perform process env s op)) ->
  exists info e,
    s.(serverRtpInfo) = Some info
    /\ (sock = AudioSocket /\ info.(audio) = Some e
        \/ sock = VideoSocket /\ info.(video) = Some e)
    /\ pkt.(header_payloadType) = e.(payloadType)
    /\ port = e.(Sdp.port) /\ addr = e.(destination).
Proof.
  destruct op as [|c t|c t|sid t c|t c|rtp tone|rtp|request sid|cb response];
    cbn [perform].
  - no_send.
  - unfold register, sendRegister. split_cases; no_send.
  - unfold sendRegister. no_send.
  - unfold initiateCall. split_cases; no_send.
  - unfold cleanup.
    destruct (terminateDialog s) as [hangup|] eqn:E; [|no_send].
    assert (Hh : ~ In (UdpSend sock pkt port addr) hangup).
    { unfold terminateDialog in E.
      split_cases_in E; inversion E; subst; simpl; intuition discriminate. }
    cbv zeta. cbn [snd]. intros Hs. apply in_app_or in Hs.
    destruct Hs as [Hs|Hs]; [now apply Hh in Hs|].
    revert Hs. split_cases; no_send.
  - pose proof (sendAudioPacket_sends s rtp tone sock pkt port addr) as Hs.
    destruct (sendAudioPacket process s rtp tone) as [[s' r] a'] eqn:E.
    simpl in *. intros Hsend.
    destruct (Hs Hsend) as [a [Ha [-> [_ [Hpt [-> ->]]]]]].
    unfold audioEndpoint in Ha.
    destruct (serverRtpInfo s) as [info|] eqn:Ei; [|discriminate].
    exists info, a. split; [reflexivity|]. split; [now left|]. auto.
  - pose proof (sendVideoPacket_sends s rtp sock pkt port addr) as Hs.
    destruct (sendVideoPacket s rtp) as [[s' r] a'] eqn:E.
    simpl in *. intros Hsend.
    destruct (Hs Hsend) as [v [Hv [-> [_ [Hpt [-> ->]]]]]].
    unfold videoEndpoint in Hv.
    destruct (serverRtpInfo s) as [info|] eqn:Ei; [|discriminate].
    exists info, v. split; [reflexivity|]. split; [now right|]. auto.
  - unfold onRequest, _handleBye, _handleInboundInvite. split_cases; no_send.
  - unfold invokeCallback, registerResponse, _handleInviteResponse,
      _retryWithDigestAuth.
    split_cases; no_send.
Qed.

Lemma run_sends (ops : list operation) : forall (s : State Q) acts sock pkt port addr,
  endpointsNegotiated s ->
  In acts (snd (run process env s ops)) ->
  In (UdpSend sock pkt port addr) acts ->
  exists info e,
    negotiated info
    /\ (sock = AudioSocket /\ info.(audio) = Some e
        \/ sock = VideoSocket /\ info.(video) = Some e)
    /\ pkt.(header_payloadType) = e.(payloadType)
    /\ port = e.(Sdp.port) /\ addr = e.(destination).
Proof.
  induction ops as [|op ops IH]; intros s acts sock pkt port addr Hinv Hin Hsend;
    simpl in Hin; [contradiction|].
  pose proof (perform_endpointsNegotiated s op Hinv) as Hinv'.
  pose proof (perform_sends s op sock pkt port addr) as Hp.
  destruct (perform process env s op) as [s1 acts1] eqn:Ep.
  destruct (run process env s1 ops) as [s2 rest] eqn:Er.
  simpl in Hin, Hinv', Hp. destruct Hin as [<-|Hin].
  - destruct (Hp Hsend) as [info [e [Hi H]]].
    exists info, e. split; [now apply Hinv | exact H].
  - eapply (IH s1); eauto. now rewrite Er.
Qed.

(** C9: [sendAudioPacket] does nothing (no action, same state, same
    packet) when there is no audio endpoint, and [sendVideoPacket]
    nothing when there is no video endpoint; with an endpoint (and, for
    audio, the sequencer letting the packet through) the packet gets the
    payload type of the endpoint and is sent to its port and address; a
    datagram either of them sends carries the payload type of the
    endpoint; and in every run of the object from its construction,
    every datagram sent goes to an endpoint of an offer parsed from the
    peer, under that endpoint's payload type. *)
Theorem packet_senders (s : State Q) (rtp : RtpPacket) (isTone : bool) :
  (audioEndpoint s = None ->
   sendAudioPacket process s rtp isTone = (s, rtp, []))
  /\ (videoEndpoint s = None -> sendVideoPacket s rtp = (s, rtp, []))
  /\ (forall a seq' rtp1,
        audioEndpoint s = Some a ->
        process s.(rtpSequencer) rtp isTone = (seq', rtp1, true) ->
        s.(udp) = true ->
        sendAudioPacket process s rtp isTone
        = (set_rtpSequencer seq' s, set_payloadType a.(payloadType) rtp1,
           [UdpSend AudioSocket (set_payloadType a.(payloadType) rtp1)
                    a.(Sdp.port) a.(destination)]))
  /\ (forall v,
        videoEndpoint s = Some v -> s.(udpVideo) = true ->
        sendVideoPacket s rtp
        = (s, set_payloadType v.(payloadType) rtp,
           [UdpSend VideoSocket (set_payloadType v.(payloadType) rtp)
                    v.(Sdp.port) v.(destination)]))
  /\ (forall sock pkt port addr,
        In (UdpSend sock pkt port addr) (snd (sendAudioPacket process s rtp isTone)) ->
        exists a, audioEndpoint s = Some a
          /\ sock = AudioSocket
          /\ pkt = snd (fst (sendAudioPacket process s rtp isTone))
          /\ pkt.(header_payloadType) = a.(payloadType)
          /\ port = a.(Sdp.port) /\ addr = a.(destination))
  /\ (forall sock pkt port addr,
        In (UdpSend sock pkt port addr) (snd (sendVideoPacket s rtp)) ->
        exists v, videoEndpoint s = Some v
          /\ sock = VideoSocket
          /\ pkt = snd (fst (sendVideoPacket s rtp))
          /\ pkt.(header_payloadType) = v.(payloadType)
          /\ port = v.(Sdp.port) /\ addr = v.(destination))
  /\ (forall (seq : Q) ops acts sock pkt port addr,
        In acts (snd (run process env (new_Sip seq) ops)) ->
        In (UdpSend sock pkt port addr) acts ->
        exists info e,
          negotiated info
          /\ (sock = AudioSocket /\ info.(audio) = Some e
              \/ sock = VideoSocket /\ info.(video) = Some e)
          /\ pkt.(header_payloadType) = e.(payloadType)
          /\ port = e.(Sdp.port) /\ addr = e.(destination)).
Proof.
  split; [|split; [|split; [|split; [|split; [|split]]]]].
  - unfold audioEndpoint, sendAudioPacket. intros H.
    destruct (serverRtpInfo s) as [info|]; [|reflexivity]. now rewrite H.
  - unfold videoEndpoint, sendVideoPacket. intros H.
    destruct (serverRtpInfo s) as [info|]; [|reflexivity]. now rewrite H.
  - unfold audioEndpoint, sendAudioPacket. intros a seq' rtp1 Ha Hp Hu.
    destruct (serverRtpInfo s) as [info|]; [|discriminate].
    rewrite Ha, Hp. simpl. now rewrite Hu.
  - unfold videoEndpoint, sendVideoPacket. intros v Hv Hu.
    destruct (serverRtpInfo s) as [info|]; [|discriminate].
    now rewrite Hv, Hu.
  - apply sendAudioPacket_sends.
  - apply sendVideoPacket_sends.
  - intros seq ops acts sock pkt port addr Hin Hsend.
    apply (run_sends ops (new_Sip seq) acts); try assumption.
    intros info Hinfo. discriminate Hinfo.
Qed.

End WithSequencer.

(** The sender of the Ring leg likewise does nothing while that leg has
    no call. *)
Lemma ring_sendAudioPacket_without_call {R : Type} (process : processFn R)
  (s : Ring.State R) (rtp : RtpPacket) (isTone : bool) :
  s.(Ring.currentCall) = None ->
  Ring.sendAudioPacket process s rtp isTone = (s, rtp, []).
Proof. intros H. unfold Ring.sendAudioPacket. now rewrite H. Qed.

(** The theorem before and after that INVITE is accepted: a packet
    handed to a fresh object goes nowhere, the same packet handed over
    after the INVITE leaves as payload type 96 for 10.0.0.5:5004. *)
Lemma packet_senders_witness :
  let established :=
    fst (_handleInboundInvite env0 (new_Sip tt) opus_invite
           (js "1730000000000")) in
  sendAudioPacket forwardAll (new_Sip tt) ringPacket false
    = (new_Sip tt, ringPacket, [])
  /\ sendAudioPacket forwardAll established ringPacket false
     = (established, set_payloadType (Num 96) ringPacket,
        [UdpSend AudioSocket (set_payloadType (Num 96) ringPacket)
                 (Num 5004) (js "10.0.0.5")]).
Proof.
  split.
  - apply (proj1 (packet_senders forwardAll env0 (new_Sip tt)
                    ringPacket false)).
    reflexivity.
  - apply (proj1 (proj2 (proj2
             (packet_senders forwardAll env0
                (fst (_handleInboundInvite env0 (new_Sip tt)
                        opus_invite (js "1730000000000")))
                ringPacket false)))
             {| destination := js "10.0.0.5"; port := Num 5004;
                payloadType := Num 96 |} tt ringPacket).
    + vm_compute. reflexivity.
    + reflexivity.
    + reflexivity.
Defined.

End PacketSenders.

(** ** Reconnection of the Ring leg (C6) *)

Module Reconnection.
Import Js Rtp Ring Spec Samples.

Section WithSequencer.

Context {R : Type}.



End WithSequencer.


(** A timer set by an earlier drop is not cancelled by [cleanup]: when
    it fires, the call of that drop is retried. *)
Example pending_reconnection_after_cleanup :
  let '(s1, _) := onCallEnded live in
  let '(s2, _) := cleanup s1 in
  snd (onTimer s2 Reconnect) = [StartLiveCall].
Proof. vm_compute. reflexivity. Qed.

(** A live call of an initialised leg drops, the timer fires, and the
    new call starts. *)
Example reconnection_run :
  let '(s1, acts1) := onCallEnded live in
  let '(s2, acts2) := onTimer s1 Reconnect in
  let '(s3, acts3) := liveCallStarted s2 8%N in
  acts1 = [SetTimeout 2000 Reconnect]
  /\ acts2 = [StartLiveCall]
  /\ s3.(currentCall) = Some 8%N
  /\ s3.(initiatingCall) = true.
Proof. vm_compute. repeat split. Qed.

End Reconnection.

(** ** The button-press listener (C4, C5) *)

Module Trigger.
Import Js Index Spec Samples Spec2.

Lemma string_eqb_refl (a : jsstring) : Sip.string_eqb a a = true.
Proof.
  unfold Sip.string_eqb. destruct (list_eq_dec N.eq_dec a a); congruence.
Qed.

Section WithLegs.

Context {R Q : Type}.

(** An accepted trigger records its time, and its dedup id if it has
    one. *)
Lemma accepted_state (st : State) (ring : Ring.State R) (sip : Sip.State Q)
  (data : Ring.buttonData) (now : Z) :
  suppressed st data now = false ->
  (fst (buttonPressed st ring sip data now)).(lastButtonPress) = now
  /\ (forall d, dingIdOf data = Some d ->
        (fst (buttonPressed st ring sip data now)).(lastDingId) = Some d).
Proof.
  unfold suppressed, buttonPressed. intros H.
  apply orb_false_iff in H. destruct H as [H1 H2]. rewrite H1, H2.
  destruct (callActive ring sip); simpl; split; try reflexivity;
    intros d ->; reflexivity.
Qed.

(** C5: after an accepted trigger, a trigger whose dedup id is the id of
    the accepted one is suppressed whatever the time, and a trigger that
    comes less than 500 ms after the accepted one is suppressed whatever
    its id; a suppressed trigger changes nothing and calls nothing. *)
Theorem debounce (st : State) (ring ring' : Ring.State R) (sip sip' : Sip.State Q)
  (data data' : Ring.buttonData) (now now' : Z) :
  suppressed st data now = false ->
  let st1 := fst (buttonPressed st ring sip data now) in
  ((exists d, dingIdOf data = Some d /\ dingIdOf data' = Some d) ->
   buttonPressed st1 ring' sip' data' now' = (st1, []))
  /\ ((now' - now < 500)%Z ->
      buttonPressed st1 ring' sip' data' now' = (st1, [])).
Proof.
  intros Hacc. cbv zeta.
  destruct (accepted_state st ring sip data now Hacc) as [Htime Hid].
  set (st1 := fst (buttonPressed st ring sip data now)) in *.
  split.
  - intros [d [Hd Hd']]. unfold buttonPressed.
    unfold duplicateDing. rewrite Hd', (Hid d Hd), string_eqb_refl. reflexivity.
  - intros Hlt. unfold buttonPressed.
    destruct (duplicateDing st1 (dingIdOf data')); [reflexivity|].
    unfold withinDebounce. rewrite Htime.
    apply Z.ltb_lt in Hlt. now rewrite Hlt.
Qed.

(** An accepted trigger that finds a call starting or established on
    either leg calls [initiateCall] on neither; it plays the hangup tone
    and sets a timer of 2000 ms; whichever of the two comes first, the
    end of the tone or the timer, calls [fullCleanup()] on the legs as
    they are then, and the other one then does nothing. *)
Lemma busy_trigger_race (st : State) (ring : Ring.State R) (sip : Sip.State Q)
  (data : Ring.buttonData) (now : Z) :
  suppressed st data now = false ->
  callActive ring sip = true ->
  let race := st.(nextRace) in
  let st1 := fst (buttonPressed st ring sip data now) in
  let calls := snd (buttonPressed st ring sip data now) in
  calls = [TonesPlayHangup race; SetTimeout 2000 (HangupTimeout race)]
  /\ ~ In SipInitiateCall calls /\ ~ In RingInitiateCall calls
  /\ forall env (ring1 ring2 : Ring.State R) (sip1 sip2 : Sip.State Q)
            tag1 callId1 tag2 callId2,
       snd (toneFinished env st1 ring1 sip1 tag1 callId1 race)
       = snd (fullCleanup env ring1 sip1 tag1 callId1)
       /\ snd (onTimer env st1 ring1 sip1 tag1 callId1 (HangupTimeout race))
          = snd (fullCleanup env ring1 sip1 tag1 callId1)
       /\ snd (onTimer env (fst (toneFinished env st1 ring1 sip1 tag1 callId1 race))
                       ring2 sip2 tag2 callId2 (HangupTimeout race)) = []
       /\ snd (toneFinished env
                 (fst (onTimer env st1 ring1 sip1 tag1 callId1 (HangupTimeout race)))
                 ring2 sip2 tag2 callId2 race) = [].
Proof.
  intros Hacc Hbusy. cbv zeta.
  unfold suppressed in Hacc. apply orb_false_iff in Hacc. destruct Hacc as [H1 H2].
  unfold buttonPressed. rewrite H1, H2, Hbusy. cbn [fst snd].
  assert (Hgone : forall l,
            existsb (Nat.eqb (nextRace st))
                    (filter (fun r => negb (Nat.eqb (nextRace st) r)) l) = false).
  { induction l as [|r l IH]; simpl; [reflexivity|].
    destruct (Nat.eqb (nextRace st) r) eqn:E; simpl; [exact IH|].
    now rewrite E. }
  split; [reflexivity|].
  split; [simpl; intuition discriminate|].
  split; [simpl; intuition discriminate|].
  intros env ring1 ring2 sip1 sip2 tag1 callId1 tag2 callId2.
  unfold toneFinished, onTimer, raceSettled. cbn [pendingRaces].
  cbn [existsb]. rewrite Nat.eqb_refl. cbn [orb fst snd pendingRaces].
  cbn [filter]. rewrite Nat.eqb_refl. cbn [negb].
  rewrite Hgone. repeat split; reflexivity.
Qed.

(** When [sip.cleanup()] returns, [fullCleanup()] is the full teardown:
    the SIP leg cleaned up, then the Ring leg, then the tone player, and
    the timer of 200 ms that ends the process. *)
Lemma fullCleanup_returns (env : Config.Env) (ring : Ring.State R)
  (sip : Sip.State Q) (tag callId : jsstring) :
  Sip.terminateDialog sip <> None ->
  fullCleanup env ring sip tag callId
  = (fst (Ring.cleanup ring), fst (Sip.cleanup env sip tag callId),
     [SipCleanup (snd (Sip.cleanup env sip tag callId));
      RingCleanup (snd (Ring.cleanup ring));
      TonesCleanup; SetTimeout 200 ProcessExit]).
Proof.
  intros Hret. unfold fullCleanup.
  assert (Hr : raised (snd (Sip.cleanup env sip tag callId)) = false).
  { unfold Sip.cleanup.
    destruct (Sip.terminateDialog sip) as [hangup|] eqn:E; [|congruence].
    cbn [snd]. unfold raised. rewrite existsb_app.
    assert (Hh : existsb (fun a => match a with Sip.Throw => true | _ => false end)
                         hangup = false).
    { unfold Sip.terminateDialog in E.
      destruct (Sip.sipSession sip) as [response|].
      - destruct (Sip.rs_contact response); inversion E; reflexivity.
      - destruct (Sip.inviteRequest sip); inversion E; reflexivity. }
    rewrite Hh.
    destruct (Sip.registerInterval sip), (Sip.udp sip), (Sip.udpVideo sip);
      reflexivity. }
  destruct (Sip.cleanup env sip tag callId) as [sip' sipDid]. simpl in Hr.
  rewrite Hr. destruct (Ring.cleanup ring) as [ring' ringDid]. reflexivity.
Qed.

(** When the session of the SIP leg has no contact, [sip.cleanup()]
    raises before it has done anything, and [fullCleanup()] ends there:
    both legs are as they were, the Ring leg is not cleaned up, the
    tone player is not, and the timer that ends the process is not
    set. *)
Lemma fullCleanup_raises (env : Config.Env) (ring : Ring.State R)
  (sip : Sip.State Q) (tag callId : jsstring) (session : Sip.Response) :
  sip.(Sip.sipSession) = Some session ->
  session.(Sip.rs_contact) = None ->
  fullCleanup env ring sip tag callId = (ring, sip, [SipCleanup [Sip.Throw]]).
Proof.
  intros Hs Hc. unfold fullCleanup, Sip.cleanup, Sip.terminateDialog.
  rewrite Hs, Hc. reflexivity.
Qed.

End WithLegs.

(** The theorem at a first press with a ding id: a press with the same
    id a minute later and a press with another id 200 ms later are both
    suppressed. *)
Lemma debounce_witness :
  let st1 := fst (buttonPressed initial (Ring.new_Ring tt) (Sip.new_Sip tt)
                    (Ring.WithDingId (Some (js "7301")))
                    1730000000000) in
  buttonPressed st1 ringInCall sipInCall
    (Ring.WithDingId (Some (js "7301"))) 1730000060000 = (st1, [])
  /\ buttonPressed st1 ringInCall sipInCall
       (Ring.WithDingId (Some (js "7302"))) 1730000000200 = (st1, []).
Proof.
  split.
  - apply (proj1 (debounce initial (Ring.new_Ring tt) ringInCall
                    (Sip.new_Sip tt) sipInCall
                    (Ring.WithDingId (Some (js "7301")))
                    (Ring.WithDingId (Some (js "7301")))
                    1730000000000 1730000060000 eq_refl)).
    exists (js "7301"). split; reflexivity.
  - apply (proj2 (debounce initial (Ring.new_Ring tt) ringInCall
                    (Sip.new_Sip tt) sipInCall
                    (Ring.WithDingId (Some (js "7301")))
                    (Ring.WithDingId (Some (js "7302")))
                    1730000000000 1730000000200 eq_refl)).
    vm_compute. reflexivity.
Defined.

(** C4 at its failing input: the SIP leg has answered an inbound
    INVITE, the Ring leg holds the live call, and the button is pressed.
    The press is accepted and finds a call active: it plays the hangup
    tone and sets the timer of 2000 ms, and dials on neither leg.  When
    the timer fires, or the tone ends, [fullCleanup()] calls
    [sip.cleanup()], which raises on the session the leg built itself
    (it has no contact): nothing is sent to the peer, the Ring leg keeps
    its call, the tone player is not cleaned up and the process is not
    ended.  With the session of an answered outbound call the same
    [fullCleanup()] is the full teardown: BYE, both sockets closed, the
    live call stopped, the timer of 200 ms. *)
Theorem busy_trigger_inbound_call :
  let tag := js "Wd5Xe2Qa7" in
  let callId := js "Jk8Hg1Fs4" in
  let st1 := fst (buttonPressed initial live sipInboundCall
                    Ring.TheCamera 1730000005000) in
  callActive live sipInboundCall = true
  /\ snd (buttonPressed initial live sipInboundCall Ring.TheCamera 1730000005000)
     = [TonesPlayHangup 0; SetTimeout 2000 (HangupTimeout 0)]
  /\ Sip.cleanup env0 sipInboundCall tag callId = (sipInboundCall, [Sip.Throw])
  /\ snd (onTimer env0 st1 live sipInboundCall tag callId (HangupTimeout 0))
     = [SipCleanup [Sip.Throw]]
  /\ snd (toneFinished env0 st1 live sipInboundCall tag callId 0)
     = [SipCleanup [Sip.Throw]]
  /\ fullCleanup env0 live sipInboundCall tag callId
     = (live, sipInboundCall, [SipCleanup [Sip.Throw]])
  /\ snd (fullCleanup env0 live sipOutboundCall tag callId)
     = [SipCleanup
          [Sip.SendRequest
             (byeOf (answer 200 (js "OK") None (Some (js "sip:100@10.0.0.5"))
                            (Some audio_video_offer))
                    (js "sip:100@10.0.0.5")) None;
           Sip.UdpClose Sip.AudioSocket; Sip.UdpClose Sip.VideoSocket];
        RingCleanup [Ring.CallStop 7%N];
        TonesCleanup; SetTimeout 200 ProcessExit].
Proof. vm_compute. repeat split. Qed.

End Trigger.

(* ------------------------------------------------------------------ *)
(** * Further properties of the code                                   *)
(* ------------------------------------------------------------------ *)

(** ** The parser: what an endpoint it returns stands for, and line
    endings *)

Module ParserFacts.
Import Js Regex Config Sdp Spec Samples Spec2 JsFacts RegexFacts SdpFacts.

Lemma NonSpace_none w : all (cclass_mem NonSpace) w -> none isSpace w.
Proof.
  intros H. eapply Forall_impl; [|exact H]. intros c Hc. simpl in Hc.
  now apply negb_true_iff in Hc.
Qed.

Lemma Dot_none w : all (cclass_mem Dot) w -> none isLineTerminator w.
Proof.
  intros H. eapply Forall_impl; [|exact H]. intros c Hc. simpl in Hc.
  now apply negb_true_iff in Hc.
Qed.

(** What a match of one of the two [m=] patterns says of the line. *)
Lemma m_line_match_inv kind line caps :
  regexMatch
    [Chars kind; Plus Space; Group Digit; Plus Space;
     Chars (js "RTP/"); Plus NonSpace; Plus Space; Group Dot] line = Some caps ->
  exists d ptsText,
    caps = [d; ptsText]
    /\ media_line kind (parseInt10 d) (map parseInt10 (split SP ptsText)) line.
Proof.
  intros H. apply regexMatch_sound in H.
  destruct H as [before [m [rest [Hs Hm]]]].
  inversion Hm as [|l r m1 caps1 Hm1| |]; subst; clear Hm.
  inversion Hm1 as [| |c r ws1 m2 caps2 Hw1 Aw1 Hm2|]; subst; clear Hm1.
  inversion Hm2 as [| | |c r d m3 caps3 Hd Ad Hm3]; subst; clear Hm2.
  inversion Hm3 as [| |c r ws2 m4 caps4 Hw2 Aw2 Hm4|]; subst; clear Hm3.
  inversion Hm4 as [|l r m5 caps5 Hm5| |]; subst; clear Hm4.
  inversion Hm5 as [| |c r proto m6 caps6 Hp Ap Hm6|]; subst; clear Hm5.
  inversion Hm6 as [| |c r ws3 m7 caps7 Hw3 Aw3 Hm7|]; subst; clear Hm6.
  inversion Hm7 as [| | |c r ptsText m8 caps8 Ht At Hm8]; subst; clear Hm7.
  inversion Hm8; subst; clear Hm8.
  exists d, ptsText. split; [reflexivity|].
  exists before, ws1, d, ws2, proto, ws3, ptsText, rest.
  rewrite app_nil_r.
  repeat split; try assumption;
    try (now apply NonSpace_none); try (now apply Dot_none).
  now rewrite <- !app_assoc.
Qed.

Lemma mediaLine_sound kind re lines port pts :
  re = [Chars kind; Plus Space; Group Digit; Plus Space;
        Chars (js "RTP/"); Plus NonSpace; Plus Space; Group Dot] ->
  mediaLine kind re lines = Some (port, pts) ->
  exists mLine,
    find (fun line => startsWith line kind) lines = Some mLine
    /\ media_line kind port pts mLine.
Proof.
  intros -> H. unfold mediaLine in H.
  destruct (find (fun line => startsWith line kind) lines) as [mLine|];
    [|discriminate].
  destruct (regexMatch _ mLine) as [caps|] eqn:E; [|discriminate].
  destruct (m_line_match_inv _ _ _ E) as [d [ptsText [-> Hm]]].
  inversion H; subst. exists mLine. now split.
Qed.

Lemma rtpmapStep_sound codec pts found line :
  rtpmapStep codec pts found line = found
  \/ exists pt, rtpmapStep codec pts found line = Some pt
                /\ rtpmap_for codec pts pt line.
Proof.
  unfold rtpmapStep.
  destruct (startsWith line (js "a=rtpmap:")); [|now left].
  destruct (regexMatch re_rtpmap line) as [caps|] eqn:E; [|now left].
  destruct (rtpmap_match_inv _ _ E)
    as [before [d [w [codec' [rest [Hl [-> [Hd [Hw [Aw [Hc Ac]]]]]]]]]]].
  destruct (includes (toUpperCase codec') codec
            && arrayIncludes pts (parseInt10 d)) eqn:Ecase; [|now left].
  apply andb_true_iff in Ecase. destruct Ecase as [E1 E2].
  right. exists (parseInt10 d). split; [reflexivity|].
  exists before, d, w, codec', rest. tauto.
Qed.

Lemma scan_sound codec pts lines : forall found pt,
  fold_left (rtpmapStep codec pts) lines found = Some pt ->
  found = Some pt
  \/ exists line, In line lines /\ rtpmap_for codec pts pt line.
Proof.
  induction lines as [|l lines IH]; intros found pt H; simpl in H.
  - now left.
  - destruct (IH _ _ H) as [Hstep | [line [Hin Hline]]].
    + destruct (rtpmapStep_sound codec pts found l) as [Hsame | [pt' [Hpt' Hfor]]].
      * left. congruence.
      * right. exists l. split; [now left|]. congruence.
    + right. exists line. split; [now right | exact Hline].
Qed.

Lemma findPayloadType_sound codec pts lines pt :
  findPayloadType codec pts lines = Some pt ->
  exists line, In line lines /\ rtpmap_for codec pts pt line.
Proof.
  intros H. destruct (scan_sound codec pts lines None pt H) as [E|E];
    [discriminate | exact E].
Qed.

(** X1: an audio endpoint is returned only for an offer whose first
    [m=audio] line has the shape of the pattern and carries the port
    returned, and which has an [a=rtpmap] line naming a codec with OPUS
    in it for the payload type returned, one of those of the [m=audio]
    line and not zero. *)
Theorem audio_endpoint_sound (sdp : jsstring) (offer : MediaOffer) (a : Endpoint) :
  _parseRemoteSdp sdp = Some offer ->
  offer.(audio) = Some a ->
  exists mLine pts line,
    find (fun l => startsWith l (js "m=audio")) (sdpLines sdp) = Some mLine
    /\ media_line (js "m=audio") a.(port) pts mLine
    /\ In line (sdpLines sdp)
    /\ rtpmap_for (js "OPUS") pts a.(payloadType) line
    /\ truthyNumber a.(payloadType) = true.
Proof.
  intros H Ha. destruct (Addresses.parsed_offer _ _ H) as [Hpa _].
  rewrite Ha in Hpa. symmetry in Hpa. unfold parseAudio in Hpa.
  destruct (mediaLine (js "m=audio") re_m_audio (sdpLines sdp))
    as [[p pts]|] eqn:Em; [|discriminate].
  destruct (findPayloadType (js "OPUS") pts (sdpLines sdp)) as [pt|] eqn:Ef;
    [|discriminate].
  destruct (truthyNumber pt) eqn:Et; [|discriminate].
  inversion Hpa; subst a; simpl.
  destruct (mediaLine_sound _ _ _ _ _ eq_refl Em) as [mLine [Hfind Hm]].
  destruct (findPayloadType_sound _ _ _ _ Ef) as [line [Hin Hfor]].
  exists mLine, pts, line. tauto.
Qed.

(** The theorem at the offer with audio and video. *)
Lemma audio_endpoint_sound_witness :
  exists mLine pts line,
    find (fun l => startsWith l (js "m=audio")) (sdpLines audio_video_offer)
      = Some mLine
    /\ media_line (js "m=audio") (Num 5004) pts mLine
    /\ In line (sdpLines audio_video_offer)
    /\ rtpmap_for (js "OPUS") pts (Num 96) line
    /\ truthyNumber (Num 96) = true.
Proof.
  apply (audio_endpoint_sound audio_video_offer
           {| audio := Some {| destination := js "10.0.0.5";
                               port := Num 5004; payloadType := Num 96 |};
              video := Some {| destination := js "10.0.0.5";
                               port := Num 5006; payloadType := Num 99 |} |}
           {| destination := js "10.0.0.5";
              port := Num 5004; payloadType := Num 96 |}).
  - vm_compute. reflexivity.
  - reflexivity.
Defined.

(** X2: a video endpoint is returned only for an offer whose first
    [m=video] line has the shape of the pattern and carries the port
    returned, and which has an [a=rtpmap] line naming a codec with H264
    in it for the payload type returned, one of those of the [m=video]
    line and not zero. *)
Theorem video_endpoint_sound (sdp : jsstring) (offer : MediaOffer) (v : Endpoint) :
  _parseRemoteSdp sdp = Some offer ->
  offer.(video) = Some v ->
  exists mLine pts line,
    find (fun l => startsWith l (js "m=video")) (sdpLines sdp) = Some mLine
    /\ media_line (js "m=video") v.(port) pts mLine
    /\ In line (sdpLines sdp)
    /\ rtpmap_for (js "H264") pts v.(payloadType) line
    /\ truthyNumber v.(payloadType) = true.
Proof.
  intros H Hv. destruct (Addresses.parsed_offer _ _ H) as [_ [Hpv _]].
  rewrite Hv in Hpv. symmetry in Hpv. unfold parseVideo in Hpv.
  destruct (mediaLine (js "m=video") re_m_video (sdpLines sdp))
    as [[p pts]|] eqn:Em; [|discriminate].
  destruct (findPayloadType (js "H264") pts (sdpLines sdp)) as [pt|] eqn:Ef;
    [|discriminate].
  destruct (truthyNumber pt) eqn:Et; [|discriminate].
  inversion Hpv; subst v; simpl.
  destruct (mediaLine_sound _ _ _ _ _ eq_refl Em) as [mLine [Hfind Hm]].
  destruct (findPayloadType_sound _ _ _ _ Ef) as [line [Hin Hfor]].
  exists mLine, pts, line. tauto.
Qed.

(** The theorem at the offer with video only. *)
Lemma video_endpoint_sound_witness :
  exists mLine pts line,
    find (fun l => startsWith l (js "m=video")) (sdpLines video_only_offer)
      = Some mLine
    /\ media_line (js "m=video") (Num 5006) pts mLine
    /\ In line (sdpLines video_only_offer)
    /\ rtpmap_for (js "H264") pts (Num 99) line
    /\ truthyNumber (Num 99) = true.
Proof.
  apply (video_endpoint_sound video_only_offer
           {| audio := None;
              video := Some {| destination := js "127.0.0.1";
                               port := Num 5006; payloadType := Num 99 |} |}
           {| destination := js "127.0.0.1";
              port := Num 5006; payloadType := Num 99 |}).
  - vm_compute. reflexivity.
  - reflexivity.
Defined.

Lemma dropWhile_app_keep p l ws :
  dropWhile p l <> [] -> dropWhile p (l ++ ws) = dropWhile p l ++ ws.
Proof.
  induction l as [|c l IH]; simpl; intros H; [congruence|].
  destruct (p c); [now apply IH | reflexivity].
Qed.

(** White space at the end of a line does not count. *)
Lemma trim_spaces_end l ws : all isSpace ws -> trim (l ++ ws) = trim l.
Proof.
  intros Hws. unfold trim, trimStart.
  destruct (dropWhile isSpace l) as [|c t] eqn:E.
  - assert (Hl : all isSpace l).
    { clear Hws. induction l as [|x l IH]; [constructor|].
      simpl in E. destruct (isSpace x) eqn:Ex; [|discriminate].
      constructor; [exact Ex | now apply IH]. }
    rewrite dropWhile_all by exact Hl.
    rewrite <- (app_nil_r ws). rewrite dropWhile_all by exact Hws. reflexivity.
  - rewrite dropWhile_app_keep by (rewrite E; discriminate).
    rewrite E. now apply trimEnd_spaces.
Qed.

Lemma split_join_lf ls :
  ls <> [] -> Forall (fun l => ~ In LF l) ls ->
  split LF (join [LF] ls ++ [LF]) = ls ++ [[]].
Proof.
  intros Hne H. induction H as [|l rest Hl Hrest IH]; [congruence|].
  destruct rest as [|q rest].
  - simpl join. now rewrite split_app.
  - change (join [LF] (l :: q :: rest) ++ [LF])
      with ((l ++ [LF] ++ join [LF] (q :: rest)) ++ [LF]).
    replace ((l ++ [LF] ++ join [LF] (q :: rest)) ++ [LF])
      with (l ++ LF :: (join [LF] (q :: rest) ++ [LF]))
      by (repeat rewrite <- app_assoc; reflexivity).
    rewrite split_app by exact Hl.
    rewrite IH by discriminate. reflexivity.
Qed.

(** The result of the parser is a function of the trimmed lines. *)
Lemma parse_by_lines sdp sdp' :
  sdp <> [] -> sdp' <> [] -> sdpLines sdp = sdpLines sdp' ->
  _parseRemoteSdp sdp = _parseRemoteSdp sdp'.
Proof.
  intros H H' E. unfold _parseRemoteSdp. rewrite E.
  destruct sdp; [congruence|]. destruct sdp'; [congruence|]. reflexivity.
Qed.

(** X3: a session description parses the same with CRLF line ends as with
    bare LF line ends. *)
Theorem line_endings (ls : list jsstring) :
  ls <> [] -> Forall (fun l => ~ In LF l) ls ->
  _parseRemoteSdp (join CRLF ls ++ CRLF) = _parseRemoteSdp (join [LF] ls ++ [LF]).
Proof.
  intros Hne Hls. apply parse_by_lines.
  - destruct (join CRLF ls); discriminate.
  - destruct (join [LF] ls); discriminate.
  - unfold sdpLines. rewrite split_join_crlf, split_join_lf by assumption.
    rewrite !map_app, map_map. f_equal.
    apply map_ext. intros l. apply trim_spaces_end. repeat constructor.
Qed.

(** The theorem at the lines of an offer with audio and video. *)
Lemma line_endings_witness :
  _parseRemoteSdp audio_video_offer
  = _parseRemoteSdp
      (join [LF] [ js "c=IN IP4 10.0.0.5";
                   js "m=audio 5004 RTP/AVP 96";
                   js "a=rtpmap:96 opus/48000/2";
                   js "m=video 5006 RTP/AVP 99";
                   js "a=rtpmap:99 H264/90000" ] ++ [LF]).
Proof.
  apply (line_endings [ js "c=IN IP4 10.0.0.5";
                        js "m=audio 5004 RTP/AVP 96";
                        js "a=rtpmap:96 opus/48000/2";
                        js "m=video 5006 RTP/AVP 99";
                        js "a=rtpmap:99 H264/90000" ]).
  - discriminate.
  - repeat constructor; apply RoundTrip.noLineFeed_In; reflexivity.
Defined.

End ParserFacts.

(** ** The builder and the parser: the video endpoint *)

Module VideoRoundTrip.
Import Js Regex Config Sdp Spec Samples JsFacts RegexFacts SdpFacts RoundTrip.

Lemma trim_m_video_line vport :
  trim ((js "m=video " ++ vport ++ js " RTP/AVP 99") ++ [CR])
  = js "m=video " ++ vport ++ js " RTP/AVP 99".
Proof.
  transitivity (trim (109%N :: (js "=video " ++ vport ++ js " RTP/AVP 9")
                        ++ 57%N :: [CR])).
  - f_equal. simpl. rewrite <- !app_assoc. reflexivity.
  - rewrite trim_keep; [| reflexivity | reflexivity | repeat constructor].
    simpl. rewrite <- !app_assoc. reflexivity.
Qed.

(** The lines the parser sees in a built offer, with the [m=video]
    line. *)
Lemma built_lines_video env sessionId :
  wellFormedAddress env.(LOCAL_IP) = true ->
  noLineFeed sessionId = true ->
  noLineFeed env.(LOCAL_VIDEO_PORT) = true ->
  exists o,
    sdpLines (_buildLocalSdp env sessionId) =
    [ js "v=0";
      111%N :: o;
      js "s=-";
      js "c=IN IP4 " ++ env.(LOCAL_IP);
      js "t=0 0";
      js "m=audio 8000 RTP/AVP 96";
      js "a=rtpmap:96 OPUS/48000/2";
      js "a=fmtp:96 useinbandfec=1;minptime=10";
      js "a=ptime:20";
      js "a=maxptime:150";
      js "a=sendrecv";
      js "m=video " ++ env.(LOCAL_VIDEO_PORT) ++ js " RTP/AVP 99";
      js "a=rtpmap:99 H264/90000";
      js "a=fmtp:99 packetization-mode=1;profile-level-id=42e01f";
      js "a=sendonly";
      [] ].
Proof.
  intros Hip Hsid Hvp.
  apply wellFormedAddress_spec in Hip. destruct Hip as [Hne Hip].
  pose proof (nonspaces_no_LF _ Hip) as Hiplf.
  apply noLineFeed_In in Hsid. apply noLineFeed_In in Hvp.
  destruct (trim_head 111%N
              ((js "=- " ++ sessionId ++ js " " ++ sessionId ++ js " IN IP4 "
                  ++ env.(LOCAL_IP)) ++ [CR]) eq_refl) as [o Ho].
  exists o.
  unfold sdpLines, _buildLocalSdp.
  rewrite split_join_crlf; [| discriminate | repeat constructor; no_lf].
  rewrite map_app. cbn [map].
  literal_line. next_line ltac:(exact Ho).
  literal_line. next_line ltac:(now apply trim_c_line).
  do 7 literal_line. next_line ltac:(apply trim_m_video_line).
  do 4 literal_line. reflexivity.
Qed.

Lemma digits_noLineFeed d : digits d -> noLineFeed d = true.
Proof.
  intros [_ H]. unfold noLineFeed. apply forallb_forall. intros c Hc.
  unfold all in H. rewrite Forall_forall in H. specialize (H _ Hc).
  apply negb_true_iff. apply N.eqb_neq. intros ->. discriminate H.
Qed.

Lemma m_video_line_match vport :
  digits vport ->
  regexMatch re_m_video (js "m=video " ++ vport ++ js " RTP/AVP 99")
  = Some [vport; js "99"].
Proof.
  intros Hd.
  replace (js "m=video " ++ vport ++ js " RTP/AVP 99")
    with (js "m=video" ++ [SP] ++ vport ++ [SP] ++ js "RTP/" ++ js "AVP"
            ++ [SP] ++ js "99") by reflexivity.
  unfold re_m_video.
  apply m_line_match; try discriminate; try assumption;
    try (repeat constructor).
Qed.

(** The whole offer the parser returns for a built one, when the video
    port is written in digits. *)
Lemma built_parse env sessionId :
  wellFormedAddress env.(LOCAL_IP) = true ->
  noLineFeed sessionId = true ->
  digits env.(LOCAL_VIDEO_PORT) ->
  _parseRemoteSdp (_buildLocalSdp env sessionId) =
  Some {| audio := Some {| destination := env.(LOCAL_IP);
                           port := Num 8000; payloadType := Num 96 |};
          video := Some {| destination := env.(LOCAL_IP);
                           port := parseInt10 env.(LOCAL_VIDEO_PORT);
                           payloadType := Num 99 |} |}.
Proof.
  intros Hip Hsid Hvp.
  destruct (built_lines_video env sessionId Hip Hsid (digits_noLineFeed _ Hvp))
    as [o Hlines].
  apply wellFormedAddress_spec in Hip. destruct Hip as [Hne Hip].
  assert (Haudio : parseAudio (sdpLines (_buildLocalSdp env sessionId)) =
                   Some {| destination := env.(LOCAL_IP);
                           port := Num 8000; payloadType := Num 96 |}).
  { rewrite Hlines. unfold parseAudio.
    assert (Hm : forall l, mediaLine (js "m=audio") re_m_audio
                   (js "v=0" :: (111%N :: o) :: js "s=-"
                      :: (js "c=IN IP4 " ++ env.(LOCAL_IP)) :: js "t=0 0"
                      :: js "m=audio 8000 RTP/AVP 96" :: l)
                 = Some (Num 8000, [Num 96])).
    { intros l. unfold mediaLine.
      rewrite !find_skip by reflexivity. rewrite find_hit by reflexivity.
      vm_compute. reflexivity. }
    rewrite Hm. cbv iota beta zeta.
    assert (Hd : forall l, audioDestination
                   (js "v=0" :: (111%N :: o) :: js "s=-"
                      :: (js "c=IN IP4 " ++ env.(LOCAL_IP)) :: l)
                 = env.(LOCAL_IP)).
    { intros l. unfold audioDestination.
      rewrite !find_skip by reflexivity. rewrite find_hit by reflexivity.
      replace (js "c=IN IP4 " ++ env.(LOCAL_IP))
        with (js "c=IN IP4" ++ [SP] ++ env.(LOCAL_IP) ++ [])
        by (now rewrite app_nil_r).
      rewrite c_line_match;
        [reflexivity | discriminate | repeat constructor | assumption
         | assumption | exact I]. }
    rewrite Hd.
    assert (Hopus : forall found,
              rtpmapStep (js "OPUS") [Num 96] found (js "a=rtpmap:96 OPUS/48000/2")
              = Some (Num 96)) by (intros; vm_compute; reflexivity).
    assert (Hh264 : forall found,
              rtpmapStep (js "OPUS") [Num 96] found (js "a=rtpmap:99 H264/90000")
              = found) by (intros; vm_compute; reflexivity).
    unfold findPayloadType.
    repeat (scan_step;
            first [ rewrite rtpmapStep_skip by reflexivity
                  | rewrite Hopus | rewrite Hh264 ]).
    reflexivity. }
  assert (Hvideo : forall a,
            parseVideo (sdpLines (_buildLocalSdp env sessionId)) (Some a) =
            Some {| destination := a.(destination);
                    port := parseInt10 env.(LOCAL_VIDEO_PORT);
                    payloadType := Num 99 |}).
  { intros a. rewrite Hlines. unfold parseVideo.
    assert (Hm : mediaLine (js "m=video") re_m_video
                   [ js "v=0"; 111%N :: o; js "s=-";
                     js "c=IN IP4 " ++ env.(LOCAL_IP); js "t=0 0";
                     js "m=audio 8000 RTP/AVP 96";
                     js "a=rtpmap:96 OPUS/48000/2";
                     js "a=fmtp:96 useinbandfec=1;minptime=10";
                     js "a=ptime:20"; js "a=maxptime:150"; js "a=sendrecv";
                     js "m=video " ++ env.(LOCAL_VIDEO_PORT) ++ js " RTP/AVP 99";
                     js "a=rtpmap:99 H264/90000";
                     js "a=fmtp:99 packetization-mode=1;profile-level-id=42e01f";
                     js "a=sendonly"; [] ]
                 = Some (parseInt10 env.(LOCAL_VIDEO_PORT), [Num 99])).
    { unfold mediaLine.
      rewrite !find_skip by reflexivity. rewrite find_hit by reflexivity.
      rewrite m_video_line_match by exact Hvp. reflexivity. }
    rewrite Hm. cbv iota beta zeta.
    assert (Hopus : forall found,
              rtpmapStep (js "H264") [Num 99] found (js "a=rtpmap:96 OPUS/48000/2")
              = found) by (intros; vm_compute; reflexivity).
    assert (Hh264 : forall found,
              rtpmapStep (js "H264") [Num 99] found (js "a=rtpmap:99 H264/90000")
              = Some (Num 99)) by (intros; vm_compute; reflexivity).
    unfold findPayloadType.
    repeat (scan_step;
            first [ rewrite rtpmapStep_skip by reflexivity
                  | rewrite Hopus | rewrite Hh264 ]).
    reflexivity. }
  assert (Htruthy : truthyString (_buildLocalSdp env sessionId) = true)
    by reflexivity.
  unfold _parseRemoteSdp. rewrite Htruthy. cbv zeta. rewrite Haudio.
  rewrite Hvideo. reflexivity.
Qed.

(** X4: for every session id, the offer [_buildLocalSdp] builds is parsed
    by [_parseRemoteSdp] into an offer whose video endpoint has payload
    type 99, the configured video port as a number, and the configured
    local address, when that port is written in digits and the address
    is a well-formed one. *)
Theorem built_offer_video (env : Env) (sessionId : jsstring) :
  wellFormedAddress env.(LOCAL_IP) = true ->
  noLineFeed sessionId = true ->
  digits env.(LOCAL_VIDEO_PORT) ->
  exists offer v,
    _parseRemoteSdp (_buildLocalSdp env sessionId) = Some offer
    /\ offer.(video) = Some v
    /\ v.(payloadType) = Num 99
    /\ v.(port) = parseInt10 env.(LOCAL_VIDEO_PORT)
    /\ v.(port) <> NaN
    /\ v.(destination) = env.(LOCAL_IP)
    /\ offer.(audio) = Some {| destination := env.(LOCAL_IP);
                               port := Num 8000; payloadType := Num 96 |}.
Proof.
  intros Hip Hsid Hvp. rewrite (built_parse env sessionId Hip Hsid Hvp).
  eexists. eexists. split; [reflexivity|]. simpl.
  repeat split. now apply parseInt10_digits_not_NaN.
Qed.

(** The theorem at a local address, a video port and a time stamp. *)
Lemma built_offer_video_witness :
  exists offer v,
    _parseRemoteSdp
      (_buildLocalSdp
         {| SIP_DOMAIN := js "pbx.example.org"; SIP_DEST := js "100";
            SIP_USER := js "doorbell"; LOCAL_IP := js "192.168.1.20";
            LOCAL_SIP_PORT := js "5060"; LOCAL_VIDEO_PORT := js "8002" |}
         (js "1730000000000")) = Some offer
    /\ offer.(video) = Some v
    /\ v.(payloadType) = Num 99
    /\ v.(port) = Num 8002
    /\ v.(port) <> NaN
    /\ v.(destination) = js "192.168.1.20"
    /\ offer.(audio) = Some {| destination := js "192.168.1.20";
                               port := Num 8000; payloadType := Num 96 |}.
Proof.
  apply (built_offer_video
           {| SIP_DOMAIN := js "pbx.example.org"; SIP_DEST := js "100";
              SIP_USER := js "doorbell"; LOCAL_IP := js "192.168.1.20";
              LOCAL_SIP_PORT := js "5060"; LOCAL_VIDEO_PORT := js "8002" |}
           (js "1730000000000")).
  - reflexivity.
  - reflexivity.
  - split; [discriminate | repeat constructor].
Defined.

End VideoRoundTrip.

(** ** The SIP leg: dialogues and what holds over every run *)

Module SipFacts.
Import Js Regex Config Sdp Rtp Sip Spec Samples Spec2 JsFacts Guard.

Lemma string_eqb_true a b : string_eqb a b = true <-> a = b.
Proof.
  unfold string_eqb. destruct (list_eq_dec N.eq_dec a b); split;
    congruence.
Qed.

Lemma truthyString_true s : truthyString s = true <-> s <> [].
Proof. destruct s; simpl; split; congruence. Qed.

(** The test of [_handleBye], as a proposition. *)
Lemma sameCall_test ours received :
  truthyString ours && truthyString received && string_eqb ours received = true
  <-> sameCall ours received.
Proof.
  unfold sameCall.
  rewrite !andb_true_iff, !truthyString_true, string_eqb_true.
  split.
  - tauto.
  - intros [H1 H2]. subst. tauto.
Qed.

Lemma countUp_snoc callId n :
  countUp callId n ++ [(callId, Z.of_nat (S n))] = countUp callId (S n).
Proof.
  unfold countUp. rewrite seq_S, map_app. reflexivity.
Qed.

Lemma invitesOf_app a b : invitesOf (a ++ b) = invitesOf a ++ invitesOf b.
Proof.
  induction a as [|x a IH]; simpl; [reflexivity|].
  destruct x; try exact IH.
  destruct (rq_method request); simpl; now rewrite ?IH.
Qed.

Section WithSequencer.

Context {Q : Type} (process : processFn Q) (env : Env).

Lemma bye_for_our_call (s : State Q) (request : Request) session :
  s.(sipSession) = Some session ->
  sameCall session.(rs_call_id) request.(rq_call_id) ->
  _handleBye s request
  = (set_sipSession None s,
     [SendResponse (makeResponse request 200 (js "OK")); Emit CallEnded]).
Proof.
  intros Hs Hc. unfold _handleBye. rewrite Hs.
  apply sameCall_test in Hc. now rewrite Hc.
Qed.

Lemma bye_for_another_call (s : State Q) (request : Request) :
  ~ (exists session, s.(sipSession) = Some session
                     /\ sameCall session.(rs_call_id) request.(rq_call_id)) ->
  _handleBye s request = (s, [SendResponse (makeResponse request 200 (js "OK"))]).
Proof.
  intros Hn. unfold _handleBye.
  destruct (sipSession s) as [session|]; [|reflexivity].
  destruct (truthyString (rs_call_id session)
            && truthyString (rq_call_id request)
            && string_eqb (rs_call_id session) (rq_call_id request)) eqn:E;
    [|reflexivity].
  exfalso. apply Hn. exists session. split; [reflexivity|].
  now apply sameCall_test.
Qed.

(** X5: a BYE is always answered 200; it ends the call exactly when the
    object holds a session whose call-id is not empty and is the one of
    the BYE, and then the session is dropped and [callEnded] emitted;
    otherwise nothing else happens and the state is unchanged. *)
Theorem bye_handling (s : State Q) (request : Request) :
  let ok := SendResponse (makeResponse request 200 (js "OK")) in
  ((exists session, s.(sipSession) = Some session
                    /\ sameCall session.(rs_call_id) request.(rq_call_id))
   -> _handleBye s request = (set_sipSession None s, [ok; Emit CallEnded]))
  /\ (~ (exists session, s.(sipSession) = Some session
                        /\ sameCall session.(rs_call_id) request.(rq_call_id))
      -> _handleBye s request = (s, [ok])).
Proof.
  cbv zeta. split.
  - intros [session [Hs Hc]]. now apply (bye_for_our_call s request session).
  - apply bye_for_another_call.
Qed.

(** X6: an inbound INVITE whose offer has an audio endpoint, received while
    no call is being set up, is answered 100, 180 and 200 with the local
    offer, in that order, with [inboundCall] emitted after the 100 and
    [callEstablished] last; the offer parsed is stored.  A BYE with the
    call-id of that INVITE (not empty) then ends the call; a BYE with
    another call-id is answered 200 and changes nothing. *)
Theorem accepted_invite_then_bye (s : State Q) (request : Request)
  (sessionId : jsstring) (info : MediaOffer) (a : Endpoint) :
  s.(initiatingCall) = false ->
  _parseRemoteSdp (offerOf request) = Some info ->
  info.(audio) = Some a ->
  let s1 := fst (_handleInboundInvite env s request sessionId) in
  snd (_handleInboundInvite env s request sessionId)
  = [ SendResponse (makeResponse request 100 (js "Trying"));
      Emit InboundCall;
      SendResponse (makeResponse request 180 (js "Ringing"));
      SendResponse (with_content (_buildLocalSdp env sessionId)
                                 (makeResponse request 200 (js "OK")));
      Emit (CallEstablished (Some info)) ]
  /\ s1.(serverRtpInfo) = Some info
  /\ s1.(currentCallId) = Some request.(rq_call_id)
  /\ (forall bye,
        request.(rq_call_id) <> [] ->
        bye.(rq_call_id) = request.(rq_call_id) ->
        _handleBye s1 bye
        = (set_sipSession None s1,
           [SendResponse (makeResponse bye 200 (js "OK")); Emit CallEnded]))
  /\ (forall bye,
        bye.(rq_call_id) <> request.(rq_call_id) ->
        _handleBye s1 bye = (s1, [SendResponse (makeResponse bye 200 (js "OK"))])).
Proof.
  intros Hidle Hparse Haudio. cbv zeta.
  unfold _handleInboundInvite. rewrite Hidle.
  change (match rq_content request with Some c => c | None => [] end)
    with (offerOf request).
  rewrite Hparse, Haudio. cbn [fst snd].
  split; [reflexivity|]. split; [reflexivity|]. split; [reflexivity|].
  split.
  - intros bye Hne Hsame.
    eapply bye_for_our_call; [reflexivity|].
    split; simpl; congruence.
  - intros bye Hdiff.
    apply bye_for_another_call.
    intros [session [Hs [_ Hc]]]. simpl in Hs. inversion Hs; subst.
    simpl in Hc. congruence.
Qed.

Lemma cleanup_invites (s : State Q) tag callId :
  invitesOf (snd (cleanup env s tag callId)) = [].
Proof.
  unfold cleanup. destruct (terminateDialog s) as [hangup|] eqn:E;
    [|reflexivity].
  assert (Hh : invitesOf hangup = []).
  { unfold terminateDialog in E. split_cases_in E; inversion E; reflexivity. }
  cbn [snd]. rewrite invitesOf_app, Hh.
  destruct (registerInterval s), (udp s), (udpVideo s); reflexivity.
Qed.

Lemma cleanup_state (s : State Q) tag callId :
  (fst (cleanup env s tag callId)).(initiatingCall) = s.(initiatingCall)
  /\ ((fst (cleanup env s tag callId)).(inviteRequest) = None
      \/ (fst (cleanup env s tag callId)).(inviteRequest) = s.(inviteRequest)).
Proof.
  unfold cleanup. destruct (terminateDialog s); simpl; auto.
Qed.

(** Once a call set-up has begun and the object holds no INVITE, no
    operation sends one. *)
Lemma perform_no_invite (s : State Q) (op : operation) :
  registerCallbackTyped op ->
  s.(initiatingCall) = true -> s.(inviteRequest) = None ->
  (fst (perform process env s op)).(initiatingCall) = true
  /\ (fst (perform process env s op)).(inviteRequest) = None
  /\ invitesOf (snd (perform process env s op)) = [].
Proof.
  intros Ht H Hrq.
  destruct op as [|c t|c t|sid t c|t c|rtp tone|rtp|request sid|cb response];
    cbn [perform].
  - unfold initialize. split_cases; simpl; auto.
  - unfold register. split_cases; simpl; auto.
  - simpl. auto.
  - unfold initiateCall. rewrite H. simpl. auto.
  - rewrite cleanup_invites.
    destruct (cleanup_state s t c) as [E1 [E2|E2]]; rewrite E1, E2; auto.
  - destruct (sendAudioPacket process s rtp tone) as [[s' r] acts] eqn:E.
    unfold sendAudioPacket in E. split_cases_in E; inversion E; subst;
      simpl; auto.
  - destruct (sendVideoPacket s rtp) as [[s' r] acts] eqn:E.
    unfold sendVideoPacket in E. split_cases_in E; inversion E; subst;
      simpl; auto.
  - unfold onRequest, _handleBye, _handleInboundInvite. rewrite H.
    split_cases; simpl; auto.
  - unfold invokeCallback, registerResponse, _handleInviteResponse.
    rewrite Hrq. simpl in Ht.
    destruct cb as [rq|rq| |[|]]; simpl;
      try (destruct (isChallenge response); simpl; rewrite ?Ht; auto);
      auto.
Qed.

Lemma run_no_invite (ops : list operation) : forall (s : State Q),
  Forall registerCallbackTyped ops ->
  s.(initiatingCall) = true -> s.(inviteRequest) = None ->
  allInvites (snd (run process env s ops)) = [].
Proof.
  induction ops as [|op ops IH]; intros s Ht H Hrq; simpl; [reflexivity|].
  inversion Ht as [|? ? Hop Hops]; subst.
  destruct (perform_no_invite s op Hop H Hrq) as [H1 [H2 H3]].
  destruct (perform process env s op) as [s1 acts]. simpl in H1, H2, H3.
  specialize (IH s1 Hops H1 H2).
  destruct (run process env s1 ops) as [s2 rest]. simpl in *.
  unfold allInvites in *. simpl. now rewrite H3, IH.
Qed.

(** X7: a final response to the INVITE that is neither a success nor a
    challenge (a 401 without [www-authenticate] among them) makes the
    object drop the INVITE and emit [callFailed] with the status and the
    reason; after it no INVITE is sent again, whatever follows. *)
Theorem failed_invite_final (s : State Q) (rq : Request) (response : Response) :
  s.(initiatingCall) = true ->
  s.(inviteRequest) = Some rq ->
  isFailure response ->
  _handleInviteResponse s response
  = (set_inviteRequest None s,
     [Emit (CallFailed response.(status) response.(reason))])
  /\ forall ops : list operation,
       Forall registerCallbackTyped ops ->
       allInvites (snd (run process env (set_inviteRequest None s) ops)) = [].
Proof.
  intros H Hrq [Hch Hst]. split.
  - unfold _handleInviteResponse. rewrite Hrq, Hch.
    destruct ((100 <=? status response)%Z && (status response <? 200)%Z) eqn:E1.
    { apply andb_true_iff in E1. destruct E1 as [E1 E2].
      apply Z.leb_le in E1. apply Z.ltb_lt in E2. lia. }
    destruct ((200 <=? status response)%Z && (status response <? 300)%Z) eqn:E2.
    { apply andb_true_iff in E2. destruct E2 as [E2 E3].
      apply Z.leb_le in E2. apply Z.ltb_lt in E3. lia. }
    reflexivity.
  - intros ops Ht. apply run_no_invite; [exact Ht | exact H | reflexivity].
Qed.

Lemma success_not_challenge response :
  (200 <= response.(status) < 300)%Z -> isChallenge response = false.
Proof.
  intros H. unfold isChallenge.
  destruct (Z.eqb_spec (status response) 401); [lia | reflexivity].
Qed.

Lemma success_branch (s : State Q) rq response :
  s.(inviteRequest) = Some rq ->
  (200 <= response.(status) < 300)%Z ->
  _handleInviteResponse s response
  = (set_serverRtpInfo (answerOffer response)
       (set_sipSession (Some response) s),
     match response.(rs_contact) with
     | Some uri => [SendRequest (ackOf response uri) None;
                    Emit (CallEstablished (answerOffer response))]
     | None => [Throw]
     end).
Proof.
  intros Hrq Hst. unfold _handleInviteResponse.
  rewrite Hrq, (success_not_challenge _ Hst).
  destruct ((100 <=? status response)%Z && (status response <? 200)%Z) eqn:E1.
  { apply andb_true_iff in E1. destruct E1 as [E1 E2].
    apply Z.leb_le in E1. apply Z.ltb_lt in E2. lia. }
  assert (E2 : (200 <=? status response)%Z && (status response <? 300)%Z = true).
  { apply andb_true_iff. split; [apply Z.leb_le | apply Z.ltb_lt]; lia. }
  rewrite E2. unfold answerOffer, ackOf.
  destruct (rs_contact response); reflexivity.
Qed.

(** X8: a 2xx answer to the INVITE is acknowledged with an ACK to the
    contact of the answer that carries its call-id and its CSeq, and
    [callEstablished] is emitted with the offer parsed from its body.
    [cleanup()] then ends the call with a BYE to that contact, in that
    call and with that CSeq plus one, and sends no CANCEL: the only
    other requests it sends are REGISTER requests. *)
Theorem answered_invite (s : State Q) (rq : Request) (response : Response)
  (uri : jsstring) :
  s.(inviteRequest) = Some rq ->
  (200 <= response.(status) < 300)%Z ->
  response.(rs_contact) = Some uri ->
  let s1 := fst (_handleInviteResponse s response) in
  snd (_handleInviteResponse s response)
  = [SendRequest (ackOf response uri) None;
     Emit (CallEstablished (answerOffer response))]
  /\ s1.(serverRtpInfo) = answerOffer response
  /\ forall tag callId,
       exists rest,
         snd (cleanup env s1 tag callId)
         = SendRequest (byeOf response uri) None :: rest
         /\ forall r cb, In (SendRequest r cb) rest -> r.(rq_method) = REGISTER.
Proof.
  intros Hrq Hst Hc. cbv zeta.
  rewrite (success_branch s rq response Hrq Hst), Hc. cbn [fst snd].
  split; [reflexivity|]. split; [reflexivity|].
  intros tag callId. unfold cleanup, terminateDialog. cbn [sipSession set_serverRtpInfo set_sipSession].
  rewrite Hc. cbn [snd].
  eexists. split; [unfold byeOf; reflexivity|].
  intros r cb Hin.
  cbn [registerInterval udp udpVideo set_serverRtpInfo set_sipSession] in Hin.
  destruct (registerInterval s), (udp s), (udpVideo s); simpl in Hin;
    repeat (destruct Hin as [Hin|Hin]; [try discriminate; inversion Hin; reflexivity|]);
    contradiction.
Qed.

(** X9: a 2xx answer whose body holds no offer the parser accepts (or no
    body) still establishes the call: ACK and [callEstablished], with
    [null] for the offer.  The endpoints of an earlier offer are gone,
    and both packet senders then return without sending. *)
Theorem answer_without_offer (s : State Q) (rq : Request) (response : Response)
  (uri : jsstring) :
  s.(inviteRequest) = Some rq ->
  (200 <= response.(status) < 300)%Z ->
  response.(rs_contact) = Some uri ->
  answerOffer response = None ->
  let s1 := fst (_handleInviteResponse s response) in
  snd (_handleInviteResponse s response)
  = [SendRequest (ackOf response uri) None; Emit (CallEstablished None)]
  /\ s1.(sipSession) = Some response
  /\ (forall rtp isTone, sendAudioPacket process s1 rtp isTone = (s1, rtp, []))
  /\ (forall rtp, sendVideoPacket s1 rtp = (s1, rtp, []))
  /\ s1.(serverRtpInfo) = None.
Proof.
  intros Hrq Hst Hc Hnone. cbv zeta.
  rewrite (success_branch s rq response Hrq Hst), Hc, Hnone. cbn [fst snd].
  repeat split.
Qed.

(** One step of [invitesSoFar]. *)
Lemma perform_invitesSoFar (s : State Q) (op : operation) sent :
  registerCallbackTyped op ->
  invitesSoFar s sent ->
  invitesSoFar (fst (perform process env s op))
               (sent ++ invitesOf (snd (perform process env s op))).
Proof.
  intros Ht [Hidle Hrq].
  assert (Hsame : forall s' : State Q,
             s'.(initiatingCall) = s.(initiatingCall) ->
             s'.(inviteRequest) = s.(inviteRequest) ->
             invitesSoFar s' (sent ++ [])).
  { intros s' E1 E2. rewrite app_nil_r. unfold invitesSoFar.
    rewrite E1, E2. now split. }
  assert (Hdrop : forall s' : State Q,
             s'.(initiatingCall) = s.(initiatingCall) ->
             s'.(inviteRequest) = None ->
             invitesSoFar s' (sent ++ [])).
  { intros s' E1 E2. rewrite app_nil_r. unfold invitesSoFar.
    rewrite E1, E2. split.
    - intros H. destruct (Hidle H) as [-> _]. now split.
    - destruct (inviteRequest s) as [r|].
      + destruct Hrq as [_ [n [Hn _]]]. eauto.
      + exact Hrq. }
  destruct op as [|c t|c t|sid t c|t c|rtp tone|rtp|request sid|cb response];
    cbn [perform].
  - unfold initialize. split_cases; simpl; apply Hsame; reflexivity.
  - unfold register. split_cases; simpl; apply Hsame; reflexivity.
  - simpl. apply Hsame; reflexivity.
  - unfold initiateCall. destruct (initiatingCall s) eqn:E.
    + simpl. apply Hsame; [exact E | reflexivity].
    + destruct (Hidle eq_refl) as [-> _]. simpl. split.
      * discriminate.
      * simpl. split; [reflexivity|]. exists 1%nat. split; reflexivity.
  - rewrite cleanup_invites.
    destruct (cleanup_state s t c) as [E1 [E2|E2]];
      [now apply Hdrop | now apply Hsame].
  - destruct (sendAudioPacket process s rtp tone) as [[s' r] acts] eqn:E.
    unfold sendAudioPacket in E. split_cases_in E; inversion E; subst;
      simpl; apply Hsame; reflexivity.
  - destruct (sendVideoPacket s rtp) as [[s' r] acts] eqn:E.
    unfold sendVideoPacket in E. split_cases_in E; inversion E; subst;
      simpl; apply Hsame; reflexivity.
  - unfold onRequest, _handleBye, _handleInboundInvite.
    destruct (rq_method request); simpl; try (apply Hsame; reflexivity).
    + destruct (initiatingCall s) eqn:E.
      * simpl. apply Hsame; [exact E | reflexivity].
      * destruct (Hidle eq_refl) as [-> Hnone].
        assert (Hset : forall s' : State Q,
                   s'.(initiatingCall) = true -> s'.(inviteRequest) = None ->
                   invitesSoFar s' []).
        { intros s' E1 E2. unfold invitesSoFar. rewrite E1, E2. split.
          - discriminate.
          - exists [], 0%nat. reflexivity. }
        split_cases; simpl; apply Hset; simpl; auto.
    + split_cases; simpl; apply Hsame; reflexivity.
  - assert (Hreg : forall rq', rq_method rq' = REGISTER ->
               invitesSoFar (fst (registerResponse s rq' response))
                 (sent ++ invitesOf (snd (registerResponse s rq' response)))).
    { intros rq' Hm. unfold registerResponse.
      destruct (isChallenge response); simpl; [|apply Hsame; reflexivity].
      rewrite Hm. simpl. apply Hsame; reflexivity. }
    assert (Hinv : invitesSoFar (fst (_handleInviteResponse s response))
                     (sent ++ invitesOf (snd (_handleInviteResponse s response)))).
    { unfold _handleInviteResponse.
      destruct (inviteRequest s) as [r|] eqn:Er; [|simpl; apply Hsame; auto].
      destruct Hrq as [Hm [n [Hn Hc]]].
      destruct (isChallenge response).
      - simpl. rewrite Hm. unfold invitesSoFar. simpl. split.
        + intros H. destruct (Hidle H) as [_ Hnone]. congruence.
        + split; [exact Hm|]. exists (S n). split.
          * rewrite Hn, Hc.
            replace (Z.of_nat n + 1)%Z with (Z.of_nat (S n)) by lia.
            apply countUp_snoc.
          * lia.
      - split_cases; simpl;
          try (apply Hsame; simpl; congruence);
          try (apply Hdrop; simpl; congruence). }
    simpl in Ht. unfold invokeCallback.
    destruct cb as [rq'|rq'| |[|]]; auto.
Qed.

Lemma run_invitesSoFar (ops : list operation) : forall (s : State Q) sent,
  Forall registerCallbackTyped ops ->
  invitesSoFar s sent ->
  invitesSoFar (fst (run process env s ops))
               (sent ++ allInvites (snd (run process env s ops))).
Proof.
  induction ops as [|op ops IH]; intros s sent Ht Hinv; simpl.
  - now rewrite app_nil_r.
  - inversion Ht as [|? ? Hop Hops]; subst.
    pose proof (perform_invitesSoFar s op sent Hop Hinv) as H1.
    destruct (perform process env s op) as [s1 acts]. simpl in H1.
    specialize (IH s1 _ Hops H1).
    destruct (run process env s1 ops) as [s2 rest]. simpl in *.
    unfold allInvites in *. simpl. now rewrite app_assoc.
Qed.

(** X10: over every sequence of method calls, requests and responses from
    the constructor on, the INVITE requests the object sends all carry
    one call-id, and their CSeq numbers are 1, 2, 3, ... in the order
    they are sent. *)
Theorem invite_cseq_consecutive (seq0 : Q) (ops : list operation) :
  Forall registerCallbackTyped ops ->
  exists callId n,
    allInvites (snd (run process env (new_Sip seq0) ops)) = countUp callId n.
Proof.
  intros Ht.
  assert (H0 : invitesSoFar (new_Sip seq0) []).
  { split; simpl; [auto|]. exists [], 0%nat. reflexivity. }
  pose proof (run_invitesSoFar ops (new_Sip seq0) [] Ht H0) as [_ H].
  simpl in H.
  destruct (inviteRequest (fst (run process env (new_Sip seq0) ops))) as [r|].
  - destruct H as [_ [n [Hn _]]]. eauto.
  - exact H.
Qed.

Lemma answeredSetups_cons op ops acts rest :
  answeredSetups (op :: ops) (acts :: rest)
  = ((if isCallSetup op && negb (isNil acts) then 1 else 0)
     + answeredSetups ops rest)%nat.
Proof.
  unfold answeredSetups. simpl.
  destruct (isCallSetup op && negb (isNil acts)); reflexivity.
Qed.

(** A call set-up sets the guard, and does nothing under the guard. *)
Lemma setup_sets_guard (s : State Q) (op : operation) :
  isCallSetup op = true ->
  (fst (perform process env s op)).(initiatingCall) = true
  /\ (s.(initiatingCall) = true -> snd (perform process env s op) = []).
Proof.
  intros H. destruct op; try discriminate H; cbn [perform].
  - unfold initiateCall. destruct (initiatingCall s) eqn:E; simpl; auto.
    split; [reflexivity | discriminate].
  - unfold onRequest. simpl in H.
    destruct (rq_method request); try discriminate H.
    unfold _handleInboundInvite. destruct (initiatingCall s) eqn:E.
    + simpl. auto.
    + split; [|discriminate]. split_cases; reflexivity.
Qed.

Lemma guarded_setups (ops : list operation) : forall (s : State Q),
  s.(initiatingCall) = true ->
  answeredSetups ops (snd (run process env s ops)) = 0%nat.
Proof.
  induction ops as [|op ops IH]; intros s H; simpl; [reflexivity|].
  destruct (perform_keeps_guard process env s op H) as [H1 _].
  pose proof (setup_sets_guard s op) as Hs.
  destruct (perform process env s op) as [s1 acts]. simpl in H1, Hs.
  specialize (IH s1 H1).
  destruct (run process env s1 ops) as [s2 rest]. simpl in *.
  rewrite answeredSetups_cons, IH.
  destruct (isCallSetup op); [|reflexivity].
  destruct (Hs eq_refl) as [_ Hnil]. rewrite (Hnil H). reflexivity.
Qed.

(** X11: over every sequence of method calls, requests and responses, from
    whatever state, at most one call set-up ([initiateCall()] or an
    inbound INVITE) does anything: every other one returns at the guard
    without sending anything. *)
Theorem one_call_setup (s : State Q) (ops : list operation) :
  (answeredSetups ops (snd (run process env s ops)) <= 1)%nat.
Proof.
  revert s. induction ops as [|op ops IH]; intros s; simpl; [auto|].
  pose proof (setup_sets_guard s op) as Hs.
  pose proof (guarded_setups ops (fst (perform process env s op))) as Hg.
  destruct (perform process env s op) as [s1 acts]. simpl in Hs, Hg.
  specialize (IH s1).
  destruct (run process env s1 ops) as [s2 rest]. simpl in *.
  rewrite answeredSetups_cons.
  destruct (isCallSetup op); simpl; [|exact IH].
  destruct (Hs eq_refl) as [Hset _]. rewrite (Hg Hset).
  destruct (negb (isNil acts)); auto.
Qed.

Lemma hangup_no_socket (s : State Q) hangup :
  terminateDialog s = Some hangup -> forallb (fun a => negb (onSocket a)) hangup = true.
Proof.
  unfold terminateDialog. intros E.
  split_cases_in E; inversion E; reflexivity.
Qed.

(** With both sockets closed, no operation opens one or uses one. *)
Lemma perform_closed (s : State Q) (op : operation) :
  s.(udp) = false -> s.(udpVideo) = false ->
  (fst (perform process env s op)).(udp) = false
  /\ (fst (perform process env s op)).(udpVideo) = false
  /\ forallb (fun a => negb (onSocket a)) (snd (perform process env s op)) = true.
Proof.
  intros Ha Hv.
  destruct op as [|c t|c t|sid t c|t c|rtp tone|rtp|request sid|cb response];
    cbn [perform].
  - unfold initialize. split_cases; simpl; auto.
  - unfold register. split_cases; simpl; auto.
  - simpl. auto.
  - unfold initiateCall. split_cases; simpl; auto.
  - unfold cleanup. destruct (terminateDialog s) as [hangup|] eqn:E;
      [|simpl; auto].
    cbn [fst snd]. rewrite Ha, Hv. simpl. split; [reflexivity|].
    split; [reflexivity|].
    rewrite forallb_app, (hangup_no_socket s hangup E).
    destruct (registerInterval s); reflexivity.
  - destruct (sendAudioPacket process s rtp tone) as [[s' r] acts] eqn:E.
    unfold sendAudioPacket in E.
    destruct (serverRtpInfo s) as [info|]; [|inversion E; subst; simpl; auto].
    destruct (audio info) as [a|]; [|inversion E; subst; simpl; auto].
    destruct (process (rtpSequencer s) rtp tone) as [[seq' rtp1] fwd].
    simpl in E. rewrite Ha in E.
    destruct fwd; inversion E; subst; simpl; auto.
  - destruct (sendVideoPacket s rtp) as [[s' r] acts] eqn:E.
    unfold sendVideoPacket in E. rewrite Hv in E.
    split_cases_in E; inversion E; subst; simpl; auto.
  - unfold onRequest, _handleBye, _handleInboundInvite.
    split_cases; simpl; auto.
  - unfold invokeCallback, registerResponse, _handleInviteResponse,
      _retryWithDigestAuth.
    split_cases; simpl; auto.
Qed.

Lemma run_closed (ops : list operation) : forall (s : State Q),
  s.(udp) = false -> s.(udpVideo) = false ->
  forall acts a, In acts (snd (run process env s ops)) -> In a acts ->
                 onSocket a = false.
Proof.
  induction ops as [|op ops IH]; intros s Ha Hv acts a Hin Hina; simpl in Hin;
    [contradiction|].
  destruct (perform_closed s op Ha Hv) as [H1 [H2 H3]].
  destruct (perform process env s op) as [s1 acts1]. simpl in H1, H2, H3.
  specialize (IH s1 H1 H2).
  destruct (run process env s1 ops) as [s2 rest]. simpl in *.
  destruct Hin as [<-|Hin].
  - rewrite forallb_forall in H3. specialize (H3 _ Hina).
    now apply negb_true_iff in H3.
  - eapply IH; eassumption.
Qed.

(** X12: when [cleanup()] returns, the object holds no session, no INVITE
    and no refresh timer, and both sockets are closed.  A second
    [cleanup()] does nothing at all, and whatever follows, no datagram
    is sent and no socket closed again: the sockets are never
    reopened. *)
Theorem cleanup_final (s : State Q) (tag callId : jsstring) :
  terminateDialog s <> None ->
  let s1 := fst (cleanup env s tag callId) in
  s1.(sipSession) = None /\ s1.(inviteRequest) = None
  /\ s1.(registerInterval) = false
  /\ s1.(udp) = false /\ s1.(udpVideo) = false
  /\ (forall tag' callId', cleanup env s1 tag' callId' = (s1, []))
  /\ forall (ops : list operation) acts a,
       In acts (snd (run process env s1 ops)) -> In a acts ->
       onSocket a = false.
Proof.
  intros Hret. cbv zeta. unfold cleanup at 1 2 3 4 5.
  destruct (terminateDialog s) as [hangup|] eqn:E; [|congruence].
  cbn [fst]. repeat (split; [reflexivity|]).
  split.
  - intros tag' callId'. unfold cleanup. rewrite E. reflexivity.
  - intros ops acts a. unfold cleanup. rewrite E. cbn [fst].
    apply run_closed; reflexivity.
Qed.

(** X14: [register()] sends one REGISTER with CSeq 1 and the expiry of 600 s
    and sets the refresh timer; called again, it does nothing.  Its
    request, and the unregistration of [cleanup()], are repeated once
    when challenged, with credentials and the next CSeq, and the answer
    to that repetition is never followed by another request; any other
    answer sends nothing. *)
Theorem registration_dialogue (s : State Q) (callId tag : jsstring) :
  s.(registerInterval) = false ->
  let rq := registerRequestOf env callId tag registerExpires in
  let s1 := fst (register env s callId tag) in
  snd (register env s callId tag)
  = [SendRequest rq (Some (CbRegister rq)); SetInterval 600000]
  /\ (forall callId' tag', register env s1 callId' tag' = (s1, []))
  /\ (forall (s' : State Q) request response,
        isChallenge response = true ->
        exists retry,
          invokeCallback s' (CbRegister request) response
          = (s', [SendRequest retry (Some (CbRetry RcNothing))])
          /\ invokeCallback s' (CbUnregister request) response
             = (s', [SendRequest retry (Some (CbRetry RcNothing))])
          /\ retryOf request retry)
  /\ (forall (s' : State Q) request response,
        isChallenge response = false ->
        invokeCallback s' (CbRegister request) response = (s', [])
        /\ invokeCallback s' (CbUnregister request) response = (s', []))
  /\ (forall (s' : State Q) response,
        invokeCallback s' (CbRetry RcNothing) response = (s', [])).
Proof.
  intros Hreg. cbv zeta. unfold register. rewrite Hreg. cbn [fst snd].
  split; [reflexivity|]. split; [reflexivity|]. split; [|split].
  - intros s' request response Hch.
    exists (bump_cseq (signRequest request response)).
    unfold invokeCallback, registerResponse. rewrite Hch.
    split; [reflexivity|]. split; [reflexivity|].
    unfold retryOf. simpl. repeat (split; [reflexivity|]).
    unfold isChallenge in Hch. apply andb_true_iff in Hch.
    destruct Hch as [_ Hch]. destruct (www_authenticate response);
      [reflexivity | discriminate].
  - intros s' request response Hch.
    unfold invokeCallback, registerResponse. rewrite Hch. now split.
  - reflexivity.
Qed.

(** The unregistration of [cleanup()]: an object with a refresh timer
    and no call clears the timer and sends one REGISTER with expiry 0,
    before it closes the two sockets. *)
Lemma cleanup_unregisters (s : State Q) (tag callId : jsstring) :
  s.(registerInterval) = true ->
  s.(sipSession) = None -> s.(inviteRequest) = None ->
  s.(udp) = true -> s.(udpVideo) = true ->
  snd (cleanup env s tag callId)
  = [ClearInterval;
     SendRequest (registerRequestOf env callId tag 0)
                 (Some (CbUnregister (registerRequestOf env callId tag 0)));
     UdpClose AudioSocket; UdpClose VideoSocket].
Proof.
  intros H1 H2 H3 H4 H5. unfold cleanup, terminateDialog.
  rewrite H2, H3. cbn [snd]. rewrite H1, H4, H5. reflexivity.
Qed.

End WithSequencer.

(** The theorem at a BYE for the call of an answered INVITE. *)
Lemma bye_handling_witness :
  _handleBye
    (set_sipSession
       (Some (answer 200 (js "OK") None (Some (js "sip:100@10.0.0.5")) None))
       sipInCall)
    (byeFor (js "Xk29dLmQ7"))
  = (set_sipSession None
       (set_sipSession
          (Some (answer 200 (js "OK") None (Some (js "sip:100@10.0.0.5")) None))
          sipInCall),
     [SendResponse (makeResponse (byeFor (js "Xk29dLmQ7")) 200 (js "OK"));
      Emit CallEnded]).
Proof.
  apply (proj1 (bye_handling
                  (set_sipSession
                     (Some (answer 200 (js "OK") None
                                   (Some (js "sip:100@10.0.0.5")) None))
                     sipInCall)
                  (byeFor (js "Xk29dLmQ7")))).
  eexists. split; [reflexivity|]. split; [discriminate | reflexivity].
Defined.

(** The theorem at an INVITE that offers OPUS, received by a fresh
    object. *)
Lemma accepted_invite_then_bye_witness :
  snd (_handleInboundInvite env0 (new_Sip tt) opus_invite (js "1730000000000"))
  = [ SendResponse (makeResponse opus_invite 100 (js "Trying"));
      Emit InboundCall;
      SendResponse (makeResponse opus_invite 180 (js "Ringing"));
      SendResponse (with_content (_buildLocalSdp env0 (js "1730000000000"))
                                 (makeResponse opus_invite 200 (js "OK")));
      Emit (CallEstablished
              (Some {| audio := Some {| destination := js "10.0.0.5";
                                        port := Num 5004;
                                        payloadType := Num 96 |};
                       video := None |})) ].
Proof.
  apply (proj1 (accepted_invite_then_bye env0 (new_Sip tt) opus_invite
                  (js "1730000000000")
                  {| audio := Some {| destination := js "10.0.0.5";
                                      port := Num 5004;
                                      payloadType := Num 96 |};
                     video := None |}
                  {| destination := js "10.0.0.5";
                     port := Num 5004; payloadType := Num 96 |}
                  eq_refl ltac:(vm_compute; reflexivity) eq_refl)).
Defined.

(** The theorem at an INVITE answered 486. *)
Lemma failed_invite_final_witness :
  _handleInviteResponse sipInCall (answer 486 (js "Busy Here") None None None)
  = (set_inviteRequest None sipInCall,
     [Emit (CallFailed 486 (js "Busy Here"))]).
Proof.
  refine (proj1 (failed_invite_final forwardAll env0 sipInCall _
                   (answer 486 (js "Busy Here") None None None)
                   eq_refl eq_refl _)).
  split; [reflexivity | right; simpl; lia].
Defined.

(** The theorem at an INVITE answered 200 with an offer. *)
Lemma answered_invite_witness :
  snd (_handleInviteResponse sipInCall
         (answer 200 (js "OK") None (Some (js "sip:100@10.0.0.5"))
                 (Some audio_video_offer)))
  = [SendRequest
       (ackOf (answer 200 (js "OK") None (Some (js "sip:100@10.0.0.5"))
                      (Some audio_video_offer))
              (js "sip:100@10.0.0.5")) None;
     Emit (CallEstablished
             (answerOffer
                (answer 200 (js "OK") None (Some (js "sip:100@10.0.0.5"))
                        (Some audio_video_offer))))].
Proof.
  refine (proj1 (answered_invite env0 sipInCall _
                   (answer 200 (js "OK") None (Some (js "sip:100@10.0.0.5"))
                           (Some audio_video_offer))
                   (js "sip:100@10.0.0.5") eq_refl _ eq_refl)).
  simpl. lia.
Defined.

(** The theorem at an INVITE answered 200 without a body. *)
Lemma answer_without_offer_witness :
  snd (_handleInviteResponse sipInCall
         (answer 200 (js "OK") None (Some (js "sip:100@10.0.0.5")) None))
  = [SendRequest
       (ackOf (answer 200 (js "OK") None (Some (js "sip:100@10.0.0.5")) None)
              (js "sip:100@10.0.0.5")) None;
     Emit (CallEstablished None)].
Proof.
  refine (proj1 (answer_without_offer forwardAll sipInCall _
                   (answer 200 (js "OK") None (Some (js "sip:100@10.0.0.5")) None)
                   (js "sip:100@10.0.0.5") eq_refl _ eq_refl eq_refl)).
  simpl. lia.
Defined.

(** The theorem at an INVITE challenged twice. *)
Lemma invite_cseq_consecutive_witness :
  exists callId n,
    allInvites
      (snd (run forwardAll env0 (new_Sip tt)
              [ OpInitiateCall (js "1730000000000") (js "Gh7Rw21pZ")
                               (js "Xk29dLmQ7");
                OpResponse CbInvite (unauthorized (js "Xk29dLmQ7") (js "1f3a") 1);
                OpResponse (CbRetry RcHandleInviteResponse)
                           (unauthorized (js "Xk29dLmQ7") (js "77c0") 2) ]))
    = countUp callId n.
Proof.
  apply (invite_cseq_consecutive forwardAll env0 tt).
  repeat constructor.
Defined.

(** The theorem at a registered object that is in no call. *)
Lemma cleanup_final_witness :
  cleanup env0
    (fst (cleanup env0 (fst (register env0 (new_Sip tt) (js "Pq8Zr4Ty1")
                                      (js "Lm3Nb6Vc9")))
                  (js "Wd5Xe2Qa7") (js "Jk8Hg1Fs4")))
    (js "Rt6Yu3Io0") (js "Bn9Mv2Cx5")
  = (fst (cleanup env0 (fst (register env0 (new_Sip tt) (js "Pq8Zr4Ty1")
                                       (js "Lm3Nb6Vc9")))
                   (js "Wd5Xe2Qa7") (js "Jk8Hg1Fs4")), []).
Proof.
  refine (proj1 (proj2 (proj2 (proj2 (proj2 (proj2
            (cleanup_final forwardAll env0
               (fst (register env0 (new_Sip tt) (js "Pq8Zr4Ty1") (js "Lm3Nb6Vc9")))
               (js "Wd5Xe2Qa7") (js "Jk8Hg1Fs4") _))))))
            (js "Rt6Yu3Io0") (js "Bn9Mv2Cx5")).
  discriminate.
Defined.

(** The theorem at a fresh object. *)
Lemma registration_dialogue_witness :
  snd (register env0 (new_Sip tt) (js "Pq8Zr4Ty1") (js "Lm3Nb6Vc9"))
  = [SendRequest
       (registerRequestOf env0 (js "Pq8Zr4Ty1") (js "Lm3Nb6Vc9") registerExpires)
       (Some (CbRegister
                (registerRequestOf env0 (js "Pq8Zr4Ty1") (js "Lm3Nb6Vc9")
                                   registerExpires)));
     SetInterval 600000].
Proof.
  apply (proj1 (registration_dialogue env0 (new_Sip tt) (js "Pq8Zr4Ty1")
                  (js "Lm3Nb6Vc9") eq_refl)).
Defined.

End SipFacts.

(** ** [rstring()] *)

Module RandomFacts.
Import Js Random Spec Spec2.

Lemma chars_alphanumeric : forallb isAlphanumeric chars = true.
Proof. vm_compute. reflexivity. Qed.

Lemma chars_length : List.length chars = 62%nat.
Proof. reflexivity. Qed.

Lemma charAt_alphanumeric k :
  all isAlphanumeric (charAt chars k) /\ (List.length (charAt chars k) <= 1)%nat.
Proof.
  unfold charAt. destruct (nth_error chars k) as [c|] eqn:E.
  - split; [|simpl; lia]. constructor; [|constructor].
    apply nth_error_In in E.
    pose proof chars_alphanumeric as H. rewrite forallb_forall in H. now apply H.
  - split; [constructor | simpl; lia].
Qed.

Lemma charAt_inside k :
  (k < 62)%nat -> List.length (charAt chars k) = 1%nat.
Proof.
  intros H. unfold charAt. destruct (nth_error chars k) as [c|] eqn:E;
    [reflexivity|].
  apply nth_error_None in E. rewrite chars_length in E. lia.
Qed.

(** The loop, turn by turn. *)
Lemma rstring_turns draw :
  rstring draw
  = charAt chars (draw 0%nat) ++ charAt chars (draw 1%nat)
      ++ charAt chars (draw 2%nat) ++ charAt chars (draw 3%nat)
      ++ charAt chars (draw 4%nat) ++ charAt chars (draw 5%nat)
      ++ charAt chars (draw 6%nat) ++ charAt chars (draw 7%nat)
      ++ charAt chars (draw 8%nat).
Proof.
  unfold rstring. cbn [seq fold_left]. rewrite app_nil_l.
  rewrite <- !app_assoc. reflexivity.
Qed.

(** X15: whatever the random source gives, [rstring()] returns at most nine
    code units, all of them letters or digits; when every draw is an
    index into the alphabet, as [Math.floor(Math.random() * 62)] is, it
    returns exactly nine, so a call-id or a tag is never empty. *)
Theorem rstring_alphanumeric (draw : nat -> nat) :
  all isAlphanumeric (rstring draw)
  /\ (List.length (rstring draw) <= 9)%nat
  /\ ((forall i, (i < 9)%nat -> (draw i < 62)%nat) ->
      List.length (rstring draw) = 9%nat /\ rstring draw <> []).
Proof.
  rewrite rstring_turns. split; [|split].
  - unfold all. repeat (apply Forall_app; split);
      apply (proj1 (charAt_alphanumeric _)).
  - rewrite !length_app.
    pose proof (proj2 (charAt_alphanumeric (draw 0%nat))).
    pose proof (proj2 (charAt_alphanumeric (draw 1%nat))).
    pose proof (proj2 (charAt_alphanumeric (draw 2%nat))).
    pose proof (proj2 (charAt_alphanumeric (draw 3%nat))).
    pose proof (proj2 (charAt_alphanumeric (draw 4%nat))).
    pose proof (proj2 (charAt_alphanumeric (draw 5%nat))).
    pose proof (proj2 (charAt_alphanumeric (draw 6%nat))).
    pose proof (proj2 (charAt_alphanumeric (draw 7%nat))).
    pose proof (proj2 (charAt_alphanumeric (draw 8%nat))).
    lia.
  - intros H.
    assert (Hlen : List.length
                     (charAt chars (draw 0%nat) ++ charAt chars (draw 1%nat)
                        ++ charAt chars (draw 2%nat) ++ charAt chars (draw 3%nat)
                        ++ charAt chars (draw 4%nat) ++ charAt chars (draw 5%nat)
                        ++ charAt chars (draw 6%nat) ++ charAt chars (draw 7%nat)
                        ++ charAt chars (draw 8%nat)) = 9%nat).
    { rewrite !length_app.
      rewrite !charAt_inside by (apply H; lia). reflexivity. }
    split; [exact Hlen|]. intros E. rewrite E in Hlen. discriminate Hlen.
Qed.

(** The theorem at the draws 0, 7, 14, ..., 56. *)
Lemma rstring_alphanumeric_witness :
  List.length (rstring (fun i => (7 * i)%nat)) = 9%nat
  /\ rstring (fun i => (7 * i)%nat) <> [].
Proof.
  apply (proj2 (proj2 (rstring_alphanumeric (fun i => (7 * i)%nat)))).
  intros i Hi. lia.
Defined.

End RandomFacts.

(** ** The Ring leg over every run *)

Module RingFacts.
Import Js Rtp Ring RingRun Spec Samples Spec2 Guard.

Ltac settle :=
  simpl; repeat split; intros; auto; try congruence; try lia.

Section WithSequencer.

Context {Q : Type} (process : processFn Q).

(** After [cleanup()] of a leg whose guard is set, the guard and the
    mark of an intended end stay, and no operation starts a live
    call. *)
Lemma perform_after_cleanup (s : State Q) (op : operation) :
  s.(initiatingCall) = true -> s.(intentionalDisconnect) = true ->
  (fst (perform process s op)).(initiatingCall) = true
  /\ (fst (perform process s op)).(intentionalDisconnect) = true
  /\ startsLiveCall (snd (perform process s op)) = false.
Proof.
  intros H1 H2. destruct op; cbn [perform].
  - simpl. auto.
  - unfold initiateCall. rewrite H1. simpl. auto.
  - unfold liveCallStarted. simpl. destruct (sip s); simpl; auto.
  - unfold liveCallFailed, reconnectionFailed. destruct h; simpl; auto.
  - unfold onCallEnded. rewrite H2. simpl. auto.
  - simpl. auto.
  - unfold onAudioRtp. destruct (receivingAudio s); simpl;
      destruct (sip s); simpl; auto.
  - unfold onVideoRtp. destruct (sip s); simpl; auto.
  - unfold onTimer, reconnect, initiateCall. rewrite H1.
    destruct t; simpl; try destruct (currentCall s); simpl; auto.
  - destruct (sendAudioPacket process s rtp isTone) as [[s' r] acts] eqn:E.
    unfold sendAudioPacket in E.
    destruct (currentCall s); [|inversion E; subst; simpl; auto].
    destruct (process (rtpSequencer s) rtp isTone) as [[seq' rtp1] fwd].
    destruct fwd; inversion E; subst; simpl; auto.
  - unfold pipeAudio. simpl. destruct (currentCall s); simpl; auto.
  - unfold cleanup. simpl. destruct (currentCall s); simpl; auto.
Qed.

Lemma run_after_cleanup (ops : list operation) : forall (s : State Q),
  s.(initiatingCall) = true -> s.(intentionalDisconnect) = true ->
  (fst (run process s ops)).(initiatingCall) = true
  /\ (fst (run process s ops)).(intentionalDisconnect) = true
  /\ forall acts, In acts (snd (run process s ops)) ->
                  startsLiveCall acts = false.
Proof.
  induction ops as [|op ops IH]; intros s H1 H2; simpl.
  - repeat split; try assumption. intros acts [].
  - destruct (perform_after_cleanup s op H1 H2) as [E1 [E2 E3]].
    destruct (perform process s op) as [s1 acts1]. simpl in E1, E2, E3.
    destruct (IH s1 E1 E2) as [F1 [F2 F3]].
    destruct (run process s1 ops) as [s2 rest]. simpl in *.
    repeat split; try assumption.
    intros acts [<-|Hin]; [exact E3 | now apply F3].
Qed.

(** X16: after [cleanup()] of a leg that had begun a call (its guard is
    set), whatever follows, the leg never asks the provider for a live
    call again: [initiateCall()] returns at the guard, a reconnection
    timer still pending does nothing, and the end of a call is reported
    as [callEnded] and not followed by a reconnection. *)
Theorem no_live_call_after_cleanup (s : State Q) (ops : list operation) :
  s.(initiatingCall) = true ->
  let s1 := fst (cleanup s) in
  let s2 := fst (run process s1 ops) in
  (forall acts, In acts (snd (run process s1 ops)) ->
                startsLiveCall acts = false)
  /\ initiateCall s2 = (s2, [], None)
  /\ onTimer s2 Reconnect = (s2, [])
  /\ onCallEnded s2 = (s2, [Emit CallEnded]).
Proof.
  intros H. cbv zeta.
  assert (H1 : (fst (cleanup s)).(initiatingCall) = true).
  { unfold cleanup. simpl. destruct (currentCall s); exact H. }
  assert (H2 : (fst (cleanup s)).(intentionalDisconnect) = true).
  { unfold cleanup. simpl. destruct (currentCall s); reflexivity. }
  destruct (run_after_cleanup ops (fst (cleanup s)) H1 H2) as [F1 [F2 F3]].
  split; [exact F3|].
  unfold onTimer, reconnect, initiateCall, onCallEnded. rewrite F1, F2.
  repeat split.
Qed.

Lemma audioAnnouncements_cons acts rest :
  audioAnnouncements (acts :: rest)
  = (List.length (filter isReceivingAudio acts) + audioAnnouncements rest)%nat.
Proof.
  unfold audioAnnouncements. simpl. now rewrite filter_app, length_app.
Qed.

(** [receivingAudio] is never reset, and it is emitted only when the
    flag is not set. *)
Lemma perform_announces (s : State Q) (op : operation) :
  (s.(receivingAudio) = true ->
   (fst (perform process s op)).(receivingAudio) = true
   /\ filter isReceivingAudio (snd (perform process s op)) = [])
  /\ (List.length (filter isReceivingAudio (snd (perform process s op))) <= 1)%nat
  /\ (filter isReceivingAudio (snd (perform process s op)) <> [] ->
      (fst (perform process s op)).(receivingAudio) = true).
Proof.
  destruct op; cbn [perform].
  - settle.
  - unfold initiateCall. simpl.
    destruct (initiatingCall s), (ringApi s), (camera s); settle.
  - unfold liveCallStarted. simpl. destruct (sip s); settle.
  - unfold liveCallFailed, reconnectionFailed. destruct h; settle.
  - unfold onCallEnded. split_cases; settle.
  - settle.
  - unfold onAudioRtp. destruct (receivingAudio s) eqn:E; simpl;
      destruct (sip s); settle.
  - unfold onVideoRtp. destruct (sip s); settle.
  - unfold onTimer, reconnect, initiateCall, reconnectionFailed.
    destruct t; simpl;
      [destruct (initiatingCall s), (ringApi s), (camera s)
      | destruct (currentCall s) |]; settle.
  - destruct (sendAudioPacket process s rtp isTone) as [[s' r] acts] eqn:E.
    unfold sendAudioPacket in E.
    destruct (currentCall s); [|inversion E; subst; settle].
    destruct (process (rtpSequencer s) rtp isTone) as [[seq' rtp1] fwd].
    destruct fwd; inversion E; subst; settle.
  - unfold pipeAudio. simpl. destruct (currentCall s); settle.
  - unfold cleanup. simpl. destruct (currentCall s); settle.
Qed.

Lemma run_announced (ops : list operation) : forall (s : State Q),
  s.(receivingAudio) = true ->
  audioAnnouncements (snd (run process s ops)) = 0%nat.
Proof.
  induction ops as [|op ops IH]; intros s H; simpl; [reflexivity|].
  destruct (perform_announces s op) as [Hp _]. destruct (Hp H) as [E1 E2].
  destruct (perform process s op) as [s1 acts]. simpl in E1, E2.
  specialize (IH s1 E1).
  destruct (run process s1 ops) as [s2 rest]. simpl in *.
  now rewrite audioAnnouncements_cons, E2, IH.
Qed.

(** X19: over every sequence of operations, from whatever state, the leg
    emits [receivingAudio] at most once: the flag that guards it is
    never cleared, not by the end of a call, a reconnection or
    [cleanup()] either. *)
Theorem audio_announced_once (s : State Q) (ops : list operation) :
  (audioAnnouncements (snd (run process s ops)) <= 1)%nat.
Proof.
  revert s. induction ops as [|op ops IH]; intros s; simpl; [auto|].
  destruct (perform_announces s op) as [_ [Hle Hset]].
  pose proof (run_announced ops (fst (perform process s op))) as Hz.
  destruct (perform process s op) as [s1 acts]. simpl in Hle, Hset, Hz.
  specialize (IH s1).
  destruct (run process s1 ops) as [s2 rest]. simpl in *.
  rewrite audioAnnouncements_cons.
  destruct (filter isReceivingAudio acts) as [|x l] eqn:E.
  - simpl. exact IH.
  - rewrite Hz by (apply Hset; discriminate). simpl in *. lia.
Qed.

(** Only the end of a call clears the guard. *)
Lemma perform_keeps_ring_guard (s : State Q) (op : operation) :
  op <> OpCallEnded ->
  s.(initiatingCall) = true ->
  (fst (perform process s op)).(initiatingCall) = true
  /\ startsLiveCall (snd (perform process s op)) = false.
Proof.
  intros Hop H. destruct op; cbn [perform]; try congruence.
  - settle.
  - unfold initiateCall. rewrite H. settle.
  - unfold liveCallStarted. simpl. destruct (sip s); settle.
  - unfold liveCallFailed, reconnectionFailed. destruct h; settle.
  - settle.
  - unfold onAudioRtp. destruct (receivingAudio s); simpl;
      destruct (sip s); settle.
  - unfold onVideoRtp. destruct (sip s); settle.
  - unfold onTimer, reconnect, initiateCall. rewrite H.
    destruct t; simpl; try destruct (currentCall s); settle.
  - destruct (sendAudioPacket process s rtp isTone) as [[s' r] acts] eqn:E.
    unfold sendAudioPacket in E.
    destruct (currentCall s); [|inversion E; subst; settle].
    destruct (process (rtpSequencer s) rtp isTone) as [[seq' rtp1] fwd].
    destruct fwd; inversion E; subst; settle.
  - unfold pipeAudio. simpl. destruct (currentCall s); settle.
  - unfold cleanup. simpl. destruct (currentCall s); settle.
Qed.

Lemma run_keeps_ring_guard (ops : list operation) : forall (s : State Q),
  Forall (fun op => op <> OpCallEnded) ops ->
  s.(initiatingCall) = true ->
  (fst (run process s ops)).(initiatingCall) = true
  /\ forall acts, In acts (snd (run process s ops)) ->
                  startsLiveCall acts = false.
Proof.
  induction ops as [|op ops IH]; intros s Hops H; simpl.
  - split; [exact H | intros acts []].
  - inversion Hops as [|? ? Hop Hrest]; subst.
    destruct (perform_keeps_ring_guard s op Hop H) as [E1 E2].
    destruct (perform process s op) as [s1 acts1]. simpl in E1, E2.
    destruct (IH s1 Hrest E1) as [F1 F2].
    destruct (run process s1 ops) as [s2 rest]. simpl in *.
    split; [exact F1|].
    intros acts [<-|Hin]; [exact E2 | now apply F2].
Qed.

(** X17: [initiateCall()] sets the guard before anything can fail, and no
    failure clears it: after a call attempt, also one that was rejected
    at once (not initialised, no camera) or whose [startLiveCall()]
    failed, no live call is asked for as long as no call ends, and
    every [initiateCall()] returns at the guard. *)
Theorem failed_call_keeps_guard (s : State Q) (ops : list operation) :
  Forall (fun op => op <> OpCallEnded) ops ->
  let s1 := fst (fst (initiateCall s)) in
  let s2 := fst (run process s1 ops) in
  s1.(initiatingCall) = true
  /\ (forall acts, In acts (snd (run process s1 ops)) ->
                   startsLiveCall acts = false)
  /\ initiateCall s2 = (s2, [], None).
Proof.
  intros Hops. cbv zeta.
  assert (H1 : (fst (fst (initiateCall s))).(initiatingCall) = true).
  { unfold initiateCall. simpl.
    destruct (initiatingCall s) eqn:E, (ringApi s), (camera s); simpl; auto. }
  destruct (run_keeps_ring_guard ops _ Hops H1) as [F1 F2].
  split; [exact H1|]. split; [exact F2|].
  unfold initiateCall at 1. now rewrite F1.
Qed.

(** X18: [cleanup()] called while [startLiveCall()] is still pending stops
    nothing, and the call that then starts is taken as the current call
    and set up like any other, without a stop: it is stopped only by a
    later [cleanup()]. *)
Theorem cleanup_before_call_started (s : State Q) (call : Call) :
  s.(currentCall) = None ->
  let s1 := fst (cleanup s) in
  let s2 := fst (liveCallStarted s1 call) in
  snd (cleanup s) = []
  /\ s2.(currentCall) = Some call
  /\ s2.(intentionalDisconnect) = true
  /\ stopsCall (snd (liveCallStarted s1 call)) = false
  /\ snd (cleanup s2) = [CallStop call]
  /\ snd (liveCallStarted s1 call)
     = (if s.(sip) then [SetTimeout 500 KeyFrameIfCall] else [])
       ++ [Subscribe call; ActivateCameraSpeaker call;
           SetTimeout 1000 (KeyFrame call); SetInterval 4000 (KeyFrame call);
           Resolve].
Proof.
  intros H. cbv zeta. unfold cleanup. simpl. rewrite H. simpl.
  repeat split; destruct (sip s); reflexivity.
Qed.

End WithSequencer.

(** The theorem at a leg with a live call, cleaned up, whose call then
    ends and whose reconnection timer fires. *)
Lemma no_live_call_after_cleanup_witness :
  forallb (fun acts => negb (startsLiveCall acts))
          (snd (run forwardAll (fst (cleanup live))
                    [OpCallEnded; OpTimer Reconnect; OpInitiateCall]))
  = true.
Proof.
  apply forallb_forall. intros acts Hin. apply negb_true_iff.
  exact (proj1 (no_live_call_after_cleanup forwardAll live
                  [OpCallEnded; OpTimer Reconnect; OpInitiateCall] eq_refl)
               acts Hin).
Defined.

(** The theorem at a leg that was not initialised: the attempt is
    rejected, and after [initialize()] a new attempt does nothing. *)
Lemma failed_call_keeps_guard_witness :
  initiateCall
    (fst (run forwardAll (fst (fst (initiateCall (new_Ring tt))))
              [OpInitialize true; OpInitiateCall]))
  = (fst (run forwardAll (fst (fst (initiateCall (new_Ring tt))))
              [OpInitialize true; OpInitiateCall]), [], None).
Proof.
  refine (proj2 (proj2 (failed_call_keeps_guard forwardAll (new_Ring tt)
                          [OpInitialize true; OpInitiateCall] _))).
  repeat constructor; discriminate.
Defined.

(** The theorem at a leg that has asked for a live call. *)
Lemma cleanup_before_call_started_witness :
  (fst (liveCallStarted
          (fst (cleanup (fst (fst (initiateCall
                                     (initialize true (new_Ring tt)))))))
          7%N)).(currentCall) = Some 7%N
  /\ stopsCall
       (snd (liveCallStarted
               (fst (cleanup (fst (fst (initiateCall
                                          (initialize true (new_Ring tt)))))))
               7%N)) = false.
Proof.
  pose proof (cleanup_before_call_started
                (fst (fst (initiateCall (initialize true (new_Ring tt)))))
                7%N eq_refl) as H.
  cbv zeta in H. split; [apply H | apply H].
Defined.

End RingFacts.

(** ** The orchestrator over every run *)

Module IndexFacts.
Import Js Index IndexRun Spec Samples Spec2 Trigger.

Ltac split_if :=
  repeat match goal with
         | |- context [if ?x then _ else _] => destruct x
         | |- context [match ?x with Some _ => _ | None => _ end] => destruct x
         end.

Section WithLegs.

Context {R Q : Type} (env : Config.Env).

Lemma suppressed_noop (st : State) (ring : Ring.State R) (sip : Sip.State Q)
  data now :
  suppressed st data now = true ->
  buttonPressed st ring sip data now = (st, []).
Proof.
  unfold suppressed, buttonPressed. intros H.
  destruct (duplicateDing st (dingIdOf data)); [reflexivity|].
  simpl in H. now rewrite H.
Qed.

Lemma accepted_time (st : State) (ring : Ring.State R) (sip : Sip.State Q)
  data now :
  suppressed st data now = false ->
  (now - st.(lastButtonPress) >= 500)%Z
  /\ (fst (buttonPressed st ring sip data now)).(lastButtonPress) = now.
Proof.
  unfold suppressed, buttonPressed. intros H.
  apply orb_false_iff in H. destruct H as [H1 H2]. rewrite H1, H2.
  unfold withinDebounce in H2. apply Z.ltb_ge in H2.
  split; [lia|]. destruct (callActive ring sip); reflexivity.
Qed.

Lemma raceSettled_keeps (st : State) (ring : Ring.State R) (sip : Sip.State Q)
  tag callId race :
  (fst (raceSettled env st ring sip tag callId race)).(lastButtonPress)
  = st.(lastButtonPress)
  /\ (fst (raceSettled env st ring sip tag callId race)).(lastDingId)
     = st.(lastDingId)
  /\ (fst (raceSettled env st ring sip tag callId race)).(nextRace)
     = st.(nextRace).
Proof.
  unfold raceSettled. destruct (existsb _ _); simpl; auto.
Qed.

(** X20: over every sequence of presses, tone ends and timers, from whatever
    state, the presses that get past the two early returns are at least
    500 ms apart by the clock the listener reads, the first of them at
    least 500 ms after the last one accepted before. *)
Theorem presses_spaced (st : State) (evs : list (event R Q)) :
  spaced st.(lastButtonPress) (acceptedTimes env st evs).
Proof.
  revert st. induction evs as [|ev evs IH]; intros st; simpl; [exact I|].
  destruct ev as [ring sip data now|ring sip tag callId race|ring sip tag callId t];
    simpl.
  - destruct (suppressed st data now) eqn:E.
    + rewrite (suppressed_noop st ring sip data now E). simpl. apply IH.
    + destruct (accepted_time st ring sip data now E) as [H1 H2].
      simpl. split; [exact H1|]. rewrite <- H2 at 1. apply IH.
  - unfold toneFinished.
    rewrite <- (proj1 (raceSettled_keeps st ring sip tag callId race)).
    apply IH.
  - destruct t as [race|]; simpl.
    + rewrite <- (proj1 (raceSettled_keeps st ring sip tag callId race)).
      apply IH.
    + apply IH.
Qed.

Lemma step_keeps_dingId (st : State) (ev : event R Q) :
  withoutDingId ev ->
  (fst (step env st ev)).(lastDingId) = st.(lastDingId).
Proof.
  destruct ev as [ring sip data now|ring sip tag callId race|ring sip tag callId t];
    simpl; intros H.
  - unfold buttonPressed. rewrite H.
    split_if. all: try reflexivity.
  - apply raceSettled_keeps.
  - destruct t; [apply raceSettled_keeps | reflexivity].
Qed.

Lemma run_keeps_dingId (evs : list (event R Q)) : forall (st : State),
  Forall withoutDingId evs ->
  (fst (run env st evs)).(lastDingId) = st.(lastDingId).
Proof.
  induction evs as [|ev evs IH]; intros st H; simpl; [reflexivity|].
  inversion H as [|? ? Hev Hevs]; subst.
  pose proof (step_keeps_dingId st ev Hev) as E.
  destruct (step env st ev) as [st1 calls]. simpl in E.
  specialize (IH st1 Hevs).
  destruct (run env st1 evs) as [st2 rest]. simpl in *. congruence.
Qed.

(** X21: the remembered dedup id outlives presses that carry none: after any
    number of presses without a dedup id (accepted or not), of tone ends
    and of timers, a press with the remembered id is still suppressed,
    whatever the time. *)
Theorem remembered_id (st : State) (evs : list (event R Q)) (d : jsstring)
  (ring : Ring.State R) (sip : Sip.State Q) (now : Z) :
  st.(lastDingId) = Some d -> d <> [] ->
  Forall withoutDingId evs ->
  let st' := fst (run env st evs) in
  st'.(lastDingId) = Some d
  /\ buttonPressed st' ring sip (Ring.WithDingId (Some d)) now = (st', []).
Proof.
  intros Hd Hne Hevs. cbv zeta.
  pose proof (run_keeps_dingId evs st Hevs) as E. rewrite Hd in E.
  split; [exact E|].
  apply suppressed_noop. unfold suppressed, duplicateDing, dingIdOf.
  destruct d as [|c d]; [congruence|]. simpl. rewrite E.
  now rewrite string_eqb_refl.
Qed.

Lemma teardowns_cons race (ev : event R Q) evs calls rest :
  teardowns race (ev :: evs) (calls :: rest)
  = ((if settles race ev && negb (isNil calls) then 1 else 0)
     + teardowns race evs rest)%nat.
Proof.
  unfold teardowns. simpl.
  destruct (settles race ev && negb (isNil calls)); reflexivity.
Qed.

Lemma existsb_eqb_In race l : existsb (Nat.eqb race) l = true <-> In race l.
Proof.
  rewrite existsb_exists. split.
  - intros [x [Hin E]]. apply Nat.eqb_eq in E. now subst.
  - intros H. exists race. split; [exact H | apply Nat.eqb_refl].
Qed.

Lemma raceSettled_removes (st : State) (ring : Ring.State R) (sip : Sip.State Q)
  tag callId race :
  ~ In race (fst (raceSettled env st ring sip tag callId race)).(pendingRaces)
  \/ snd (raceSettled env st ring sip tag callId race) = [].
Proof.
  unfold raceSettled. destruct (existsb (Nat.eqb race) (pendingRaces st)) eqn:E.
  - left. simpl. rewrite filter_In. intros [_ H].
    now rewrite Nat.eqb_refl in H.
  - now right.
Qed.

Lemma raceSettled_absent (st : State) (ring : Ring.State R) (sip : Sip.State Q)
  tag callId race :
  ~ In race st.(pendingRaces) ->
  raceSettled env st ring sip tag callId race = (st, []).
Proof.
  intros H. unfold raceSettled.
  destruct (existsb (Nat.eqb race) (pendingRaces st)) eqn:E; [|reflexivity].
  apply existsb_eqb_In in E. contradiction.
Qed.

Lemma raceSettled_pending (st : State) (ring : Ring.State R) (sip : Sip.State Q)
  tag callId race r :
  In r (fst (raceSettled env st ring sip tag callId race)).(pendingRaces) ->
  In r st.(pendingRaces).
Proof.
  unfold raceSettled. destruct (existsb _ _); simpl; [|auto].
  rewrite filter_In. tauto.
Qed.

(** A race that is over (numbered, and not pending) stays over. *)
Lemma step_over (st : State) (ev : event R Q) race :
  (race < st.(nextRace))%nat -> ~ In race st.(pendingRaces) ->
  (race < (fst (step env st ev)).(nextRace))%nat
  /\ ~ In race (fst (step env st ev)).(pendingRaces)
  /\ (settles race ev = true -> snd (step env st ev) = []).
Proof.
  intros Hlt Hout.
  assert (Hr : forall (ring : Ring.State R) (sip : Sip.State Q) tag callId r,
             (race < (fst (raceSettled env st ring sip tag callId r)).(nextRace))%nat
             /\ ~ In race
                  (fst (raceSettled env st ring sip tag callId r)).(pendingRaces)
             /\ (Nat.eqb r race = true ->
                 snd (raceSettled env st ring sip tag callId r) = [])).
  { intros ring sip tag callId r.
    rewrite (proj2 (proj2 (raceSettled_keeps st ring sip tag callId r))).
    split; [exact Hlt|]. split.
    - intros H. apply Hout. eapply raceSettled_pending. exact H.
    - intros E. apply Nat.eqb_eq in E. subst r.
      now rewrite raceSettled_absent. }
  destruct ev as [ring sip data now|ring sip tag callId r|ring sip tag callId t];
    simpl.
  - unfold buttonPressed. repeat split; try discriminate.
    + split_if; simpl; lia.
    + split_if; simpl; try assumption;
        (intros [E|E]; [lia | contradiction]).
  - unfold toneFinished. apply Hr.
  - destruct t as [r|]; simpl.
    + apply Hr.
    + repeat split; try assumption; discriminate.
Qed.

Lemma run_over (evs : list (event R Q)) : forall (st : State) race,
  (race < st.(nextRace))%nat -> ~ In race st.(pendingRaces) ->
  teardowns race evs (snd (run env st evs)) = 0%nat.
Proof.
  induction evs as [|ev evs IH]; intros st race Hlt Hout; simpl;
    [reflexivity|].
  destruct (step_over st ev race Hlt Hout) as [H1 [H2 H3]].
  destruct (step env st ev) as [st1 calls]. simpl in H1, H2, H3.
  specialize (IH st1 race H1 H2).
  destruct (run env st1 evs) as [st2 rest]. simpl in *.
  rewrite teardowns_cons, IH.
  destruct (settles race ev); [|reflexivity].
  rewrite (H3 eq_refl). reflexivity.
Qed.

(** Every pending race has a number below the next one. *)
Lemma step_numbered (st : State) (ev : event R Q) :
  Forall (fun r => (r < st.(nextRace))%nat) st.(pendingRaces) ->
  Forall (fun r => (r < (fst (step env st ev)).(nextRace))%nat)
         (fst (step env st ev)).(pendingRaces).
Proof.
  intros H. rewrite Forall_forall in *.
  destruct ev as [ring sip data now|ring sip tag callId r|ring sip tag callId t];
    simpl.
  - unfold buttonPressed. split_if; simpl; try assumption;
      (intros x [<-|Hx]; [lia|]; specialize (H _ Hx); lia).
  - unfold toneFinished. intros x Hx.
    rewrite (proj2 (proj2 (raceSettled_keeps st ring sip tag callId r))).
    apply H. eapply raceSettled_pending. exact Hx.
  - destruct t as [r|]; simpl; [|assumption]. intros x Hx.
    rewrite (proj2 (proj2 (raceSettled_keeps st ring sip tag callId r))).
    apply H. eapply raceSettled_pending. exact Hx.
Qed.

Lemma settled_over (st : State) (ev : event R Q) race :
  Forall (fun r => (r < st.(nextRace))%nat) st.(pendingRaces) ->
  settles race ev = true -> snd (step env st ev) <> [] ->
  (race < (fst (step env st ev)).(nextRace))%nat
  /\ ~ In race (fst (step env st ev)).(pendingRaces).
Proof.
  intros Hnum Hs Hcalls.
  assert (Hr : forall (ring : Ring.State R) (sip : Sip.State Q) tag callId r,
             Nat.eqb r race = true ->
             snd (raceSettled env st ring sip tag callId r) <> [] ->
             (race < (fst (raceSettled env st ring sip tag callId r)).(nextRace))%nat
             /\ ~ In race
                  (fst (raceSettled env st ring sip tag callId r)).(pendingRaces)).
  { intros ring sip tag callId r E Hc. apply Nat.eqb_eq in E. subst r.
    destruct (raceSettled_removes st ring sip tag callId race) as [Hout|Hnil];
      [|contradiction].
    split; [|exact Hout].
    rewrite (proj2 (proj2 (raceSettled_keeps st ring sip tag callId race))).
    destruct (in_dec Nat.eq_dec race (pendingRaces st)) as [Hin|Hnin].
    - rewrite Forall_forall in Hnum. now apply Hnum.
    - rewrite raceSettled_absent in Hc by exact Hnin. now elim Hc. }
  destruct ev as [ring sip data now|ring sip tag callId r|ring sip tag callId t];
    simpl in *; try discriminate.
  - now apply Hr.
  - destruct t as [r|]; [now apply Hr | discriminate].
Qed.

Lemma run_teardowns (evs : list (event R Q)) : forall (st : State) race,
  Forall (fun r => (r < st.(nextRace))%nat) st.(pendingRaces) ->
  (teardowns race evs (snd (run env st evs)) <= 1)%nat.
Proof.
  induction evs as [|ev evs IH]; intros st race Hnum; simpl; [auto|].
  pose proof (step_numbered st ev Hnum) as Hnum1.
  pose proof (settled_over st ev race Hnum) as Hset.
  pose proof (run_over evs (fst (step env st ev)) race) as Hover.
  destruct (step env st ev) as [st1 calls]. simpl in Hnum1, Hset, Hover.
  specialize (IH st1 race Hnum1).
  destruct (run env st1 evs) as [st2 rest]. simpl in *.
  rewrite teardowns_cons.
  destruct (settles race ev); simpl; [|exact IH].
  destruct calls as [|c calls]; simpl; [exact IH|].
  destruct (Hset eq_refl ltac:(discriminate)) as [H1 H2].
  rewrite (Hover H1 H2). auto.
Qed.

(** X22: over every sequence of presses, tone ends and timers from the start
    of the program, each hang-up race runs the teardown at most once:
    of the tone ending and the 2000 ms timer firing, and of any
    repetition of either, only one finds the race pending. *)
Theorem race_once (evs : list (event R Q)) (race : nat) :
  (teardowns race evs (snd (run env initial evs)) <= 1)%nat.
Proof. apply run_teardowns. constructor. Qed.

End WithLegs.

(** The theorem at a press with a dedup id followed by one without. *)
Lemma remembered_id_witness :
  buttonPressed
    (fst (run env0
              {| lastButtonPress := 1000; lastDingId := Some (js "7301");
                 pendingRaces := []; nextRace := 0 |}
              [Pressed ringInCall sipInCall Ring.TheCamera 5000]))
    ringInCall sipInCall (Ring.WithDingId (Some (js "7301"))) 90000
  = (fst (run env0
              {| lastButtonPress := 1000; lastDingId := Some (js "7301");
                 pendingRaces := []; nextRace := 0 |}
              [Pressed ringInCall sipInCall Ring.TheCamera 5000]), []).
Proof.
  refine (proj2 (remembered_id env0
                   {| lastButtonPress := 1000; lastDingId := Some (js "7301");
                      pendingRaces := []; nextRace := 0 |}
                   [Pressed ringInCall sipInCall Ring.TheCamera 5000]
                   (js "7301") ringInCall sipInCall 90000 eq_refl _ _)).
  - discriminate.
  - repeat constructor.
Defined.

End IndexFacts.

(** ** The SIP leg after [cleanup()] *)

Module Teardown.
Import Js Config Sdp Rtp Sip Spec Samples Spec2.

Section WithSequencer.

Context {Q : Type} (process : processFn Q) (env : Env).

(** X13: [cleanup()] closes the sockets and keeps the endpoints of the
    offer: a packet handed to [sendVideoPacket] afterwards, with a video
    endpoint stored, raises instead of being dropped, and so does one
    handed to [sendAudioPacket] that the sequencer forwards, with an
    audio endpoint stored. *)
Theorem packet_after_cleanup_raises (s : State Q) (tag callId : jsstring)
  (info : MediaOffer) :
  terminateDialog s <> None ->
  s.(serverRtpInfo) = Some info ->
  let s1 := fst (cleanup env s tag callId) in
  s1.(serverRtpInfo) = Some info
  /\ (forall v rtp, info.(video) = Some v ->
                    snd (sendVideoPacket s1 rtp) = [Throw])
  /\ (forall a rtp isTone, info.(audio) = Some a ->
                           snd (process s1.(rtpSequencer) rtp isTone) = true ->
                           snd (sendAudioPacket process s1 rtp isTone) = [Throw]).
Proof.
  intros Hret Hinfo. cbv zeta. unfold cleanup.
  destruct (terminateDialog s) as [hangup|]; [|congruence]. cbn [fst].
  split; [exact Hinfo|]. split.
  - intros v rtp Hv. unfold sendVideoPacket. simpl. rewrite Hinfo, Hv.
    reflexivity.
  - intros a rtp isTone Ha Hfwd. unfold sendAudioPacket. simpl in *.
    rewrite Hinfo, Ha.
    destruct (process (rtpSequencer s) rtp isTone) as [[seq' rtp1] fwd].
    simpl in Hfwd. subst fwd. reflexivity.
Qed.

End WithSequencer.

(** The theorem at the leg of an answered call with audio and video. *)
Lemma packet_after_cleanup_raises_witness :
  snd (sendVideoPacket
         (fst (cleanup env0
                 (fst (_handleInviteResponse sipInCall
                         (answer 200 (js "OK") None
                                 (Some (js "sip:100@10.0.0.5"))
                                 (Some audio_video_offer))))
                 (js "Wd5Xe2Qa7") (js "Jk8Hg1Fs4")))
         ringPacket)
  = [Throw].
Proof.
  refine (proj1 (proj2
            (packet_after_cleanup_raises forwardAll env0
               (fst (_handleInviteResponse sipInCall
                       (answer 200 (js "OK") None
                               (Some (js "sip:100@10.0.0.5"))
                               (Some audio_video_offer))))
               (js "Wd5Xe2Qa7") (js "Jk8Hg1Fs4")
               {| audio := Some {| destination := js "10.0.0.5";
                                   port := Num 5004; payloadType := Num 96 |};
                  video := Some {| destination := js "10.0.0.5";
                                   port := Num 5006; payloadType := Num 99 |} |}
               _ _))
            {| destination := js "10.0.0.5";
               port := Num 5006; payloadType := Num 99 |}
            ringPacket eq_refl).
  - discriminate.
  - vm_compute. reflexivity.
Defined.

End Teardown.

(** ** The two legs and the orchestrator together *)

Module System.
Import Js Config Rtp Spec Samples Spec2.

Section WithLegs.

Context {R Q : Type} (process : processFn Q) (env : Env).

(** X23: once the SIP leg has begun a call set-up (its own or an inbound
    one, also one that failed or was rejected, also after [cleanup()]),
    whatever happens to it afterwards, the test of the listener finds a
    call active: no button press dials again, and every press that gets
    past the two early returns starts the hang-up sequence. *)
Theorem no_redial (sip : Sip.State Q) (ops : list Sip.operation)
  (ring : Ring.State R) (st : Index.State) (data : Ring.buttonData) (now : Z) :
  sip.(Sip.initiatingCall) = true ->
  let sip' := fst (Sip.run process env sip ops) in
  Index.callActive ring sip' = true
  /\ dials (snd (Index.buttonPressed st ring sip' data now)) = false
  /\ (Index.suppressed st data now = false ->
      snd (Index.buttonPressed st ring sip' data now)
      = [Index.TonesPlayHangup st.(Index.nextRace);
         Index.SetTimeout 2000 (Index.HangupTimeout st.(Index.nextRace))]).
Proof.
  intros H. cbv zeta.
  destruct (Guard.run_keeps_guard process env ops sip H) as [Hg _].
  assert (Ha : Index.callActive ring (fst (Sip.run process env sip ops)) = true).
  { unfold Index.callActive. rewrite Hg.
    now rewrite orb_true_r, !orb_true_l. }
  split; [exact Ha|].
  unfold Index.buttonPressed, Index.suppressed. rewrite Ha. split.
  - destruct (Index.duplicateDing st (Index.dingIdOf data)); [reflexivity|].
    destruct (Index.withinDebounce st now); reflexivity.
  - intros Hs. apply orb_false_iff in Hs. destruct Hs as [-> ->]. reflexivity.
Qed.

End WithLegs.

(** The theorem at an INVITE that was answered 486, then a press. *)
Lemma no_redial_witness :
  dials
    (snd (Index.buttonPressed Index.initial (Ring.new_Ring tt)
            (fst (Sip.run forwardAll env0 sipInCall
                    [Sip.OpResponse Sip.CbInvite
                       (answer 486 (js "Busy Here") None None None)]))
            Ring.TheCamera 1730000000000))
  = false.
Proof.
  apply (proj1 (proj2 (no_redial forwardAll env0 sipInCall
                         [Sip.OpResponse Sip.CbInvite
                            (answer 486 (js "Busy Here") None None None)]
                         (Ring.new_Ring tt) Index.initial Ring.TheCamera
                         1730000000000 eq_refl))).
Defined.

End System.
